(** * NestedComponent: the composite container of the form renderer

    A verification model of [src/components/nested/NestedComponent.js].

    The file has three main parts.

    - [Js]: the fragment of JavaScript values and operators the class uses
      (truthiness, [=== false], the bitwise accumulators [|=] and [&=],
      lodash's [_.each], [_.findIndex], [_.remove], [Array.prototype.splice]).
    - [Store]: child management and traversal ([everyComponent],
      [eachComponent], [getComponent], [createComponent], [addComponent],
      [removeComponent], [removeComponentByKey], [setHidden],
      [hideComponents], ...).  These methods hand out references to the
      container's own [components] array and mutate instances while a
      traversal is running, so they are modelled over an object store:
      instances and arrays live at locations and are updated in place.
    - [Tree]: value and validity propagation ([setValue], [setNestedValue],
      [isValid], [checkValidity], [checkData], ...).  These methods never
      change the shape of the component tree; they fold over the children
      and call the same method on each child.  They are modelled over the
      tree itself, in a state monad whose state holds the shared [flags]
      objects and the log of calls made to the collaborators that are not
      part of this class (the leaf components and the base class).

    Two smaller models follow them: [Lifecycle], for the calls that are
    handed down the tree ([setPristine], [clearOnHide], [disabled],
    [resetValue], [show]), and [Collapse], for [setCollapsed] and
    [toggleCollapse] over the element of the container.

    Definitions come first, theorems after them. *)

From stdpp Require Import gmap strings list.
From Stdlib Require Import ZArith.

Open Scope string_scope.
Open Scope list_scope.
Set Warnings "-register-all".

(** ** JavaScript values *)

Module Js.

Definition loc := nat.

(** Values that cross the interfaces of the class.  [Obj] is a plain data
    object that is only read (the [value] handed to [setValue]); [Ref] is a
    reference to a mutable object of the store (a component instance, an
    array, a flags object). *)
Inductive value : Type :=
| Undefined
| Null
| Bool (b : bool)
| Num (z : Z)
| Obj (fields : list (string * value))
| Ref (l : loc).

(** [ToBoolean]. *)
Definition truthy (v : value) : bool :=
  match v with
  | Undefined | Null => false
  | Bool b => b
  | Num z => negb (z =? 0)%Z
  | Obj _ | Ref _ => true
  end.

(** [v === false]. *)
Definition is_false (v : value) : bool :=
  match v with
  | Bool false => true
  | _ => false
  end.

(** [a || b] on values. *)
Definition or (a b : value) : value := if truthy a then a else b.

(** [ToInt32] on the values the accumulators of [checkData] can hold:
    booleans and integers; [undefined], [null] and plain objects go through
    [NaN] to [0]. *)
Definition to_int32 (v : value) : Z :=
  match v with
  | Bool true => 1
  | Num z => ((z + 2 ^ 31) mod 2 ^ 32 - 2 ^ 31)%Z
  | _ => 0
  end.

(** [a | b] and [a & b]: the result is always a number. *)
Definition bitor (a b : value) : value := Num (Z.lor (to_int32 a) (to_int32 b)).
Definition bitand (a b : value) : value := Num (Z.land (to_int32 a) (to_int32 b)).

(** [object[key]]: the property of that name of a plain data object,
    [undefined] when it has none or is not such an object. *)
Fixpoint assoc (key : string) (fields : list (string * value)) : value :=
  match fields with
  | [] => Undefined
  | (k, v) :: rest => if String.eqb k key then v else assoc key rest
  end.

Definition get (object : value) (key : string) : value :=
  match object with
  | Obj fields => assoc key fields
  | _ => Undefined
  end.

(** Whether a plain data object has a property of that name. *)
Definition has (object : value) (key : string) : bool :=
  match object with
  | Obj fields => existsb (fun field => String.eqb (fst field) key) fields
  | _ => false
  end.

(** [_.findIndex(array, predicate)]: the first index that satisfies the
    predicate, [None] for lodash's [-1]. *)
Fixpoint findIndex {A} (p : A -> bool) (array : list A) : option nat :=
  match array with
  | [] => None
  | x :: rest => if p x then Some 0 else S <$> findIndex p rest
  end.

(** [array.splice(index, 0, item)] for an index within the array. *)
Definition splice {A} (index : nat) (item : A) (array : list A) : list A :=
  take index array ++ item :: drop index array.

(** [array.push(item)]. *)
Definition push {A} (item : A) (array : list A) : list A := array ++ [item].

End Js.

(** ** Child management over the object store *)

Module Schema.

(** The schema node ([this.component]) as far as the class reads it. *)
Record t := {
  key : string;
  hidden : bool;
  internal : bool;
}.

End Schema.

Module Store.

Import Js.

(** A DOM element, by handle. *)
Definition Element := nat.

(** A component instance.  [components] is the location of the children
    array of a NestedComponent; a leaf has no such property (and no
    [everyComponent], [hideComponents], ...).  [hidden] is [this.hidden]
    ([None] when it is not set).  [visible] is the state behind the
    [visible] accessor of the base class: the class assigns to the
    accessor and never reads it. *)
Record Instance := {
  id : string;
  component : Schema.t;
  type : string;
  components : option loc;
  hidden : option (list string);
  visible : bool;
  element : option Element;
  options : value;
  data : value;
  parent : option loc;
  root : option loc;
  isBuilt : bool;
}.

Definition set_visible (b : bool) (c : Instance) : Instance :=
  {| id := id c; component := component c; type := type c;
     components := components c; hidden := hidden c; visible := b;
     element := element c; options := options c; data := data c;
     parent := parent c; root := root c; isBuilt := isBuilt c |}.

Definition set_hidden (h : option (list string)) (c : Instance) : Instance :=
  {| id := id c; component := component c; type := type c;
     components := components c; hidden := h; visible := visible c;
     element := element c; options := options c; data := data c;
     parent := parent c; root := root c; isBuilt := isBuilt c |}.

Definition set_components (a : option loc) (c : Instance) : Instance :=
  {| id := id c; component := component c; type := type c;
     components := a; hidden := hidden c; visible := visible c;
     element := element c; options := options c; data := data c;
     parent := parent c; root := root c; isBuilt := isBuilt c |}.

Definition set_parent (p : option loc) (c : Instance) : Instance :=
  {| id := id c; component := component c; type := type c;
     components := components c; hidden := hidden c; visible := visible c;
     element := element c; options := options c; data := data c;
     parent := p; root := root c; isBuilt := isBuilt c |}.

Definition set_root (r : option loc) (c : Instance) : Instance :=
  {| id := id c; component := component c; type := type c;
     components := components c; hidden := hidden c; visible := visible c;
     element := element c; options := options c; data := data c;
     parent := parent c; root := r; isBuilt := isBuilt c |}.

Definition set_isBuilt (b : bool) (c : Instance) : Instance :=
  {| id := id c; component := component c; type := type c;
     components := components c; hidden := hidden c; visible := visible c;
     element := element c; options := options c; data := data c;
     parent := parent c; root := root c; isBuilt := b |}.

(** What the class does to the world outside the store, in order. *)
Inductive Effect :=
| Warn (key : string)                            (* console.warn *)
| InsertBefore (container child before : Element)
| AppendChild (container child : Element)
| RemoveChildFrom (child container : Element)
| Destroy (component : loc)                      (* the base class teardown *)
| Called (args : list value).                    (* a caller's callback *)

(** The store: instances, arrays (of references to instances), the parent
    pointers of the DOM, and the effects so far. *)
Record World := {
  objects : gmap loc Instance;
  arrays : gmap loc (list loc);
  parentNode : gmap Element Element;
  effects : list Effect;
}.

Definition with_objects (f : gmap loc Instance -> gmap loc Instance) (w : World) : World :=
  {| objects := f (objects w); arrays := arrays w;
     parentNode := parentNode w; effects := effects w |}.

Definition with_arrays (f : gmap loc (list loc) -> gmap loc (list loc)) (w : World) : World :=
  {| objects := objects w; arrays := f (arrays w);
     parentNode := parentNode w; effects := effects w |}.

Definition with_parentNode (f : gmap Element Element -> gmap Element Element) (w : World) : World :=
  {| objects := objects w; arrays := arrays w;
     parentNode := f (parentNode w); effects := effects w |}.

Definition with_effect (e : Effect) (w : World) : World :=
  {| objects := objects w; arrays := arrays w;
     parentNode := parentNode w; effects := effects w ++ [e] |}.

(** A call either returns a result in a new store, throws (a [TypeError]
    on a property of [undefined], for example), or runs out of the fuel
    that bounds the depth of the recursion through the tree. *)
Inductive outcome (A : Type) : Type :=
| Returns (a : A) (w : World)
| Throws
| Timeout.
Arguments Returns {A} a w.
Arguments Throws {A}.
Arguments Timeout {A}.

Definition M (A : Type) : Type := World -> outcome A.

Definition ret {A} (a : A) : M A := fun w => Returns a w.

Definition bind {A B} (m : M A) (k : A -> M B) : M B :=
  fun w =>
    match m w with
    | Returns a w' => k a w'
    | Throws => Throws
    | Timeout => Timeout
    end.

Definition throw {A} : M A := fun _ => Throws.
Definition timeout {A} : M A := fun _ => Timeout.
Definition gets {A} (f : World -> A) : M A := fun w => Returns (f w) w.
Definition modify (f : World -> World) : M unit := fun w => Returns tt (f w).

Notation "'let*' x := m 'in' k" := (bind m (fun x => k))
  (at level 10, x pattern, m at level 100, k at level 200).
Notation "m ;; k" := (bind m (fun _ => k))
  (at level 100, k at level 200, right associativity).

(** Property access on a reference: a dangling reference has no place in
    JavaScript, so it is a stuck state ([Throws]). *)
Definition instance (c : loc) : M Instance :=
  fun w => match objects w !! c with Some o => Returns o w | None => Throws end.

Definition array (a : loc) : M (list loc) :=
  fun w => match arrays w !! a with Some l => Returns l w | None => Throws end.

Definition update (c : loc) (f : Instance -> Instance) : M unit :=
  let* o := instance c in modify (with_objects <[c := f o]>).

Definition write_array (a : loc) (l : list loc) : M unit :=
  let* _ := array a in modify (with_arrays <[a := l]>).

(** [[]]: a new, empty array. *)
Definition new_array : M loc :=
  fun w => let a := fresh (dom (arrays w)) in
           Returns a (with_arrays <[a := []]> w).

(** Reading a property of a value that should be an instance:
    [undefined.x] and [null.x] throw. *)
Definition instance_of (v : value) : M (option Instance) :=
  match v with
  | Ref c => let* o := instance c in ret (Some o)
  | Undefined | Null => throw
  | _ => ret None
  end.

(** [getComponents()]: [return this.components]. *)
Definition getComponents (this : loc) : M loc :=
  let* o := instance this in
  match components o with
  | Some a => ret a
  | None => throw
  end.

(** lodash's [arrayEach], the loop behind [_.each] on an array: the length
    is read once, before the loop; the element is read from the array at
    each step; the loop stops when the iteratee returns [false]. *)
Fixpoint arrayEach {V} (iteratee : value -> nat -> V -> M (value * V))
    (a : loc) (index remaining : nat) (s : V) : M V :=
  match remaining with
  | 0 => ret s
  | S remaining' =>
      let* l := array a in
      let element := match l !! index with Some c => Ref c | None => Undefined end in
      let* (r, s1) := iteratee element index s in
      if is_false r then ret s1
      else arrayEach iteratee a (S index) remaining' s1
  end.

Definition each {V} (a : loc) (iteratee : value -> nat -> V -> M (value * V))
    (s : V) : M V :=
  let* l := array a in
  arrayEach iteratee a 0 (List.length l) s.

(** A visitor: [fn(component, components, index)], with the variables it
    closes over threaded as [V]. *)
Definition Visitor (V : Type) : Type := value -> value -> nat -> V -> M (value * V).

(** [typeof component.everyComponent === 'function']: every instance that
    has a [components] array is a NestedComponent. *)
Definition has_everyComponent (component : value) : M bool :=
  let* o := instance_of component in
  ret (match o with
       | Some o => bool_decide (is_Some (components o))
       | None => false
       end).

(** [everyComponent(fn)], lines 61-74.  The method has no [return]
    statement: its result is [undefined]. *)
Fixpoint everyComponent {V} (fuel : nat) (this : loc) (fn : Visitor V) (s : V)
    : M (value * V) :=
  match fuel with
  | 0 => timeout
  | S fuel' =>
      let* components := getComponents this in
      let* s' := each components (fun component index s =>
              let* (r, s1) := fn component (Ref components) index s in
              if is_false r then ret (Bool false, s1)
              else
                let* nested := has_everyComponent component in
                if nested : bool then
                  match component with
                  | Ref c =>
                      let* (r2, s2) := everyComponent fuel' c fn s1 in
                      if is_false r2 then ret (Bool false, s2)
                      else ret (Undefined, s2)
                  | _ => throw
                  end
                else ret (Undefined, s1)) s in
      ret (Undefined, s')
  end.

(** [eachComponent(fn)], lines 81-87, with [fn(component, index)]. *)
Definition eachComponent {V} (this : loc)
    (fn : value -> nat -> V -> M (value * V)) (s : V) : M (value * V) :=
  let* components := getComponents this in
  let* s' := each components (fun component index s =>
          let* (r, s1) := fn component index s in
          if is_false r then ret (Bool false, s1)
          else ret (Undefined, s1)) s in
  ret (Undefined, s').

(** Reading a property of a component that the visitor dereferences
    ([component.component.key], [component.id], [component.components]):
    only an instance has them. *)
Definition deref (component : value) : M Instance :=
  match component with
  | Ref c => instance c
  | _ => throw
  end.

(** A callback [fn(component, components)]. *)
Definition Callback : Type := value -> value -> M unit.

Definition call (fn : option Callback) (component components : value) : M unit :=
  match fn with
  | Some fn => fn component components
  | None => ret tt
  end.

(** [getComponent(key, fn)], lines 97-109.  [comp] is the variable the
    visitor closes over. *)
Definition getComponent (fuel : nat) (this : loc) (key : string)
    (fn : option Callback) : M value :=
  let* (_, comp) :=
    everyComponent fuel this (fun component components _ comp =>
      let* o := deref component in
      if String.eqb (Schema.key (Store.component o)) key then
        call fn component components ;;
        ret (Bool false, component)
      else ret (Undefined, comp)) Null in
  ret comp.

(** [getComponentById(id, fn)], lines 118-130. *)
Definition getComponentById (fuel : nat) (this : loc) (id : string)
    (fn : option Callback) : M value :=
  let* (_, comp) :=
    everyComponent fuel this (fun component components _ comp =>
      let* o := deref component in
      if String.eqb (Store.id o) id then
        call fn component components ;;
        ret (Bool false, component)
      else ret (Undefined, comp)) Null in
  ret comp.

(** *** Collaborators outside the class

    [Components.create], the child's own [build], the base class's [hook],
    [destroy], [conditionallyVisible] and the setter of [visible] are not
    part of NestedComponent; the model takes them as an interface. *)
Class External := {
  (** [Components.create(component, options, data, true)] *)
  Components_create : Schema.t -> value -> value -> M loc;
  (** [comp.build()] *)
  build : loc -> M unit;
  (** [this.hook('addComponent', element, comp, this)] *)
  hook_addComponent : option Element -> loc -> loc -> M (option Element);
  (** [component.conditionallyVisible()] *)
  conditionallyVisible : loc -> M bool;
  (** [component.visible = value]: [visible] is an accessor of the base
      class, and the assignment runs its setter *)
  assign_visible : loc -> bool -> M unit;
  (** [super.destroy(all)], and the [destroy] of a leaf *)
  base_destroy : loc -> value -> M unit;
}.

(** The DOM calls, recorded as effects on the parent pointers. *)
Definition insertBefore (container child before : Element) : M unit :=
  modify (fun w => with_effect (InsertBefore container child before)
                     (with_parentNode <[child := container]> w)).

Definition appendChild (container child : Element) : M unit :=
  modify (fun w => with_effect (AppendChild container child)
                     (with_parentNode <[child := container]> w)).

Definition removeChildFrom (child container : Element) : M unit :=
  modify (fun w => with_effect (RemoveChildFrom child container)
                     (with_parentNode (delete child) w)).

(** [_.remove(components, { id })]: drops, in place, every entry whose
    [id] is the given one. *)
Definition id_of (w : World) (c : loc) : option string := id <$> objects w !! c.

Definition remove_by_id (components : value) (i : string) : M unit :=
  match components with
  | Ref a =>
      let* l := array a in
      let* w := gets (fun w => w) in
      write_array a (List.filter (fun c => negb (bool_decide (id_of w c = Some i))) l)
  | _ => throw
  end.

(** [array.forEach(fn)] over a private copy of an array. *)
Fixpoint forEach {A} (fn : A -> M unit) (l : list A) : M unit :=
  match l with
  | [] => ret tt
  | x :: rest => fn x ;; forEach fn rest
  end.

(** [removeComponent(component, components)], lines 207-215, over the
    [destroy] it dispatches to. *)
Definition removeComponent_with (destroy : loc -> M unit) (this : loc)
    (component : loc) (components : value) : M unit :=
  let* components :=
    (if truthy components then ret components
     else let* a := getComponents this in ret (Ref a)) in
  destroy component ;;
  let* o := instance component in
  match element o with
  | Some element =>
      let* p := gets (fun w => parentNode w !! element) in
      match p with
      | Some container => removeChildFrom element container
      | None => ret tt
      end
  | None => ret tt
  end ;;
  let* o := instance component in
  remove_by_id components (id o).

(** [destroyComponents()], lines 419-424. *)
Definition destroyComponents_with (destroy : loc -> M unit) (this : loc) : M unit :=
  let* a := getComponents this in
  let* components := array a in
  forEach (fun comp =>
    let* a := getComponents this in
    removeComponent_with destroy this comp (Ref a)) components ;;
  let* a := new_array in
  update this (set_components (Some a)) ;;
  update this (set_hidden (Some [])).

(** [destroy(all)], lines 414-417, for a NestedComponent; a leaf has the
    teardown of its own class only. *)
Fixpoint destroy `{External} (fuel : nat) (this : loc) (all : value) : M unit :=
  match fuel with
  | 0 => timeout
  | S fuel' =>
      let* o := instance this in
      base_destroy this all ;;
      match components o with
      | Some _ => destroyComponents_with (fun c => destroy fuel' c Undefined) this
      | None => ret tt
      end
  end.

Definition removeComponent `{External} (fuel : nat) : loc -> loc -> value -> M unit :=
  removeComponent_with (fun c => destroy fuel c Undefined).

Definition destroyComponents `{External} (fuel : nat) : loc -> M unit :=
  destroyComponents_with (fun c => destroy fuel c Undefined).

(** A callback that is called with one or with two arguments. *)
Definition Callback_n : Type := list value -> M unit.

Definition call_n (fn : option Callback_n) (args : list value) : M unit :=
  match fn with
  | Some fn => fn args
  | None => ret tt
  end.

(** [removeComponentByKey(key, fn)], lines 224-237. *)
Definition removeComponentByKey `{External} (fuel : nat) (this : loc)
    (key : string) (fn : option Callback_n) : M value :=
  let* comp := getComponent fuel this key (Some (fun component components =>
      match component with
      | Ref c =>
          removeComponent fuel this c components ;;
          call_n fn [component; components]
      | _ => throw
      end)) in
  if negb (truthy comp) then
    call_n fn [Null] ;;
    ret Null
  else ret Undefined.

(** [removeComponentById(id, fn)], lines 246-259. *)
Definition removeComponentById `{External} (fuel : nat) (this : loc)
    (id : string) (fn : option Callback_n) : M value :=
  let* comp := getComponentById fuel this id (Some (fun component components =>
      match component with
      | Ref c =>
          removeComponent fuel this c components ;;
          call_n fn [component; components]
      | _ => throw
      end)) in
  if negb (truthy comp) then
    call_n fn [Null] ;;
    ret Null
  else ret Undefined.

(** What [createComponent] reads of its [before] argument: its [id]
    ([None] when the object has none). *)
Record BeforeRef := { before_id : option string }.

(** [_.findIndex(this.components, { id: before.id })]. *)
Definition findIndex_by_id (w : World) (i : option string) (l : list loc) : option nat :=
  findIndex (fun c => bool_decide (is_Some i ∧ id_of w c = i)) l.

(** Lines 139-145 of [createComponent]: the factory call and the
    handshake that sets [parent] and [root], builds the child and marks it
    built. *)
Definition instantiate `{External} (this : loc) (component : Schema.t)
    (options data : value) : M loc :=
  let* t := instance this in
  let options := Js.or options (Store.options t) in
  let data := Js.or data (Store.data t) in
  let* comp := Components_create component options data in
  update comp (set_parent (Some this)) ;;
  let* t := instance this in
  update comp (set_root (Some (default this (root t)))) ;;
  build comp ;;
  update comp (set_isBuilt true) ;;
  ret comp.

(** [createComponent(component, options, data, before)], lines 138-163. *)
Definition createComponent `{External} (this : loc) (component : Schema.t)
    (options data : value) (before : option BeforeRef) : M loc :=
  let* comp := instantiate this component options data in
  if Schema.internal component then ret comp
  else
    let* a := getComponents this in
    let* l := array a in
    match before with
    | Some before =>
        let* index := gets (fun w => findIndex_by_id w (before_id before) l) in
        match index with
        | Some index => write_array a (splice index comp l)
        | None => write_array a (push comp l)
        end
    | None => write_array a (push comp l)
    end ;;
    ret comp.

(** [hideComponents(hidden)], lines 445-448, over the [setHidden] it
    calls for each child. *)
Definition hideComponents_with (setHidden : loc -> loc -> M unit) (this : loc)
    (hidden : option (list string)) : M unit :=
  update this (set_hidden hidden) ;;
  eachComponent this (fun component _ (_ : unit) =>
    match component with
    | Ref c => setHidden this c ;; ret (Undefined, tt)
    | _ => throw
    end) tt ;;
  ret tt.

(** [component.components && component.components.length] *)
Definition has_children (c : Instance) : M bool :=
  match components c with
  | Some a => let* l := array a in ret (negb (Nat.eqb (List.length l) 0))
  | None => ret false
  end.

(** [this.hidden && this.hidden.includes(component.key)] *)
Definition includes_key (hidden : option (list string)) (key : string) : bool :=
  match hidden with
  | Some h => bool_decide (key ∈ h)
  | None => false
  end.

(** [setHidden(component)], lines 430-443. *)
Fixpoint setHidden `{External} (fuel : nat) (this : loc) (component : loc) : M unit :=
  match fuel with
  | 0 => timeout
  | S fuel' =>
      let* c := instance component in
      let* nonempty := has_children c in
      if nonempty : bool then
        let* t := instance this in
        hideComponents_with (setHidden fuel') component (hidden t)
      else if Schema.hidden (Store.component c) then
        assign_visible component false
      else
        let* t := instance this in
        if includes_key (hidden t) (Schema.key (Store.component c)) then
          assign_visible component false
        else
          let* shown := conditionallyVisible component in
          if negb shown then assign_visible component false
          else ret tt
  end.

Definition hideComponents `{External} (fuel : nat) : loc -> option (list string) -> M unit :=
  hideComponents_with (setHidden fuel).

(** What [addComponent] reads of its [before] argument: the DOM node
    itself and its [component] property. *)
Record BeforeHandle := {
  node : Element;
  before_component : option BeforeRef;
}.

(** [addComponent(component, element, data, before, noAdd)],
    lines 178-199.  [getContainer()] and [getElement()] return
    [this.element]. *)
Definition addComponent `{External} (fuel : nat) (this : loc) (component : Schema.t)
    (element : option Element) (data : value) (before : option BeforeHandle)
    (noAdd : value) : M loc :=
  let* t := instance this in
  let element := match element with Some e => Some e | None => Store.element t end in
  let data := Js.or data (Store.data t) in
  let* comp := createComponent this component (Store.options t) data
                 (match before with Some b => before_component b | None => None end) in
  if truthy noAdd then ret comp
  else
    let* element := hook_addComponent element comp this in
    let* c := instance comp in
    match Store.element c with
    | None => modify (with_effect (Warn (Schema.key component))) ;; ret comp
    | Some compElement =>
        match element with
        | None => throw
        | Some element =>
            match before with
            | Some before => insertBefore element compElement (node before)
            | None => appendChild element compElement
            end ;;
            setHidden fuel this comp ;;
            ret comp
        end
    end.

(** *** Deep flattening *)

(** [array.reduce(fn, init)] over a private copy of an array. *)
Fixpoint reduce {A B} (fn : B -> A -> M B) (l : list A) (init : B) : M B :=
  match l with
  | [] => ret init
  | x :: rest => let* acc := fn init x in reduce fn rest acc
  end.

(** [getAllComponents()], lines 43-53.  A component that has the method
    (a NestedComponent) is replaced by what its own [getAllComponents]
    returns; [components.concat(result)] adds the elements of an array
    and, of anything else, the value itself.  Nothing in the callback
    writes to the store, so the collection is read once. *)
Fixpoint getAllComponents (fuel : nat) (this : loc) : M (list value) :=
  match fuel with
  | 0 => timeout
  | S fuel' =>
      let* a := getComponents this in
      let* l := array a in
      reduce (fun components component =>
                let* o := instance component in
                if bool_decide (is_Some (Store.components o)) then
                  let* result := getAllComponents fuel' component in
                  ret (components ++ result)
                else ret (components ++ [Ref component]))
        l []
  end.

(** The [errors] getter of a component that is not a NestedComponent
    belongs to its own class: [None] stands for a falsy value. *)
Class Reports := {
  leaf_errors : loc -> M (option (list value));
}.

(** The [errors] getter, lines 450-452: [comp.errors || []] of every
    component [getAllComponents] returns, concatenated. *)
Fixpoint errors `{Reports} (fuel : nat) (this : loc) : M (list value) :=
  match fuel with
  | 0 => timeout
  | S fuel' =>
      let* all := getAllComponents (S fuel') this in
      reduce (fun collected comp =>
                let* o := deref comp in
                let* found :=
                  (if bool_decide (is_Some (Store.components o)) then
                     match comp with
                     | Ref c => let* es := errors fuel' c in ret (Some es)
                     | _ => throw
                     end
                   else
                     match comp with
                     | Ref c => leaf_errors c
                     | _ => throw
                     end) in
                ret (collected ++ default [] found))
        all []
  end.

(** *** Adding the declared children *)

(** [this.hook('addComponents', this.componentComponents, this)]: the
    schemas of the children to add, [None] for a falsy result. *)
Class Hooks := {
  hook_addComponents : loc -> M (option (list Schema.t));
}.

(** [addComponents(element, data, options)], lines 270-282.  The store
    holds arrays of components only: an [options.components] that is
    truthy and is not such an array has no place in it, and the model
    stops there. *)
Definition addComponents `{External} `{Hooks} (fuel : nat) (this : loc)
    (element : option Element) (data options : value) : M unit :=
  let* t := instance this in
  let element := match element with Some e => Some e | None => Store.element t end in
  let data := Js.or data (Store.data t) in
  let options := Js.or options (Store.options t) in
  match options with
  | Undefined | Null => throw
  | _ =>
      let supplied := get options "components" in
      if truthy supplied then
        match supplied with
        | Ref a => update this (set_components (Some a))
        | _ => throw
        end
      else
        let* components := hook_addComponents this in
        forEach (fun component =>
                   addComponent fuel this component element data None Undefined ;;
                   ret tt)
          (default [] components)
  end.

(** *** Vocabulary of the statements *)

(** The shape of a region of the store: a leaf at a location, or a
    NestedComponent at a location with its array and the shapes of its
    children. *)
Inductive Shape :=
| LeafAt (c : loc)
| NestedAt (c : loc) (a : loc) (kids : list Shape).

Definition at_loc (t : Shape) : loc :=
  match t with
  | LeafAt c => c
  | NestedAt c _ _ => c
  end.

Fixpoint depth (t : Shape) : nat :=
  match t with
  | LeafAt _ => 0
  | NestedAt _ _ kids => S (list_max (List.map depth kids))
  end.

(** The store holds the shape [t]. *)
Fixpoint represents (w : World) (t : Shape) : bool :=
  match t with
  | LeafAt c =>
      match objects w !! c with
      | Some o => bool_decide (components o = None)
      | None => false
      end
  | NestedAt c a kids =>
      match objects w !! c with
      | Some o => bool_decide (components o = Some a)
      | None => false
      end
      && bool_decide (arrays w !! a = Some (List.map at_loc kids))
      && forallb (represents w) kids
  end.

(** A visitor that leaves the store alone: it reads its arguments and
    the variables it closes over, and returns a value. *)
Definition pure_each {V} (fn : value -> nat -> V -> value * V)
    : value -> nat -> V -> M (value * V) :=
  fun component index s => ret (fn component index s).

Definition pure_every {V} (fn : value -> value -> nat -> V -> value * V) : Visitor V :=
  fun component components index s => ret (fn component components index s).

(** Direct children in collection order, each with its index, until a
    visit returns [false]. *)
Fixpoint each_until_false {V} (fn : value -> nat -> V -> M (value * V))
    (l : list loc) (index : nat) (s : V) : M V :=
  match l with
  | [] => ret s
  | c :: rest =>
      let* (r, s1) := fn (Ref c) index s in
      if is_false r then ret s1
      else each_until_false fn rest (S index) s1
  end.

Section EveryUntilFalse.
Context {V : Type} (fn : Visitor V).

Section Level.
Context (below : Shape -> V -> M V) (a : loc).

(** One level of the deep traversal: visit a child; if the visit
    returned [false], stop the loop over this level; otherwise go through
    what is below the child and go on with the next sibling. *)
Fixpoint every_level (kids : list Shape) (index : nat) (s : V) : M V :=
  match kids with
  | [] => ret s
  | t :: rest =>
      let* (r, s1) := fn (Ref (at_loc t)) (Ref a) index s in
      if is_false r then ret s1
      else
        let* s2 := below t s1 in
        every_level rest (S index) s2
  end.

End Level.

(** Depth first, parent before children: what is below a leaf is
    nothing; what is below a NestedComponent is the loop over its
    children.  Whatever stops the loop below a child stops only that
    loop. *)
Fixpoint every_below (t : Shape) (s : V) : M V :=
  match t with
  | LeafAt _ => ret s
  | NestedAt _ a kids => every_level every_below a kids 0 s
  end.

End EveryUntilFalse.

(** The iteratee [eachComponent] hands to [_.each]. *)
Definition each_iteratee {V} (fn : value -> nat -> V -> M (value * V))
    : value -> nat -> V -> M (value * V) :=
  fun component index s =>
    let* (r, s1) := fn component index s in
    if is_false r then ret (Bool false, s1) else ret (Undefined, s1).

(** The iteratee [everyComponent] hands to [_.each], over the recursive
    call with the fuel that is left. *)
Definition every_iteratee {V} (n : nat) (a : loc) (fn : Visitor V)
    : value -> nat -> V -> M (value * V) :=
  fun component index s =>
    let* (r, s1) := fn component (Ref a) index s in
    if is_false r then ret (Bool false, s1)
    else
      let* nested := has_everyComponent component in
      if nested : bool then
        match component with
        | Ref c0 =>
            let* (r2, s2) := everyComponent n c0 fn s1 in
            if is_false r2 then ret (Bool false, s2) else ret (Undefined, s2)
        | _ => throw
        end
      else ret (Undefined, s1).

(** The locations of a shape, the root first. *)
Fixpoint locs (t : Shape) : list loc :=
  at_loc t ::
  match t with
  | LeafAt _ => []
  | NestedAt _ _ kids => flat_map locs kids
  end.

(** The caller's side of the contract of the traversals: a visitor does
    not add to or remove from the collection that is being traversed.
    For [eachComponent], the array stays as it is; for [everyComponent],
    what holds of the store ([inv], the shape at least) still holds after
    a visit of a component of the region. *)
Definition keeps_array {V} (a : loc) (l : list loc)
    (fn : value -> nat -> V -> M (value * V)) : Prop :=
  forall component index s w out w',
    arrays w !! a = Some l -> fn component index s w = Returns out w' ->
    arrays w' !! a = Some l.

Definition keeps_on {V} (inv : World -> Prop) (region : list loc) (fn : Visitor V) : Prop :=
  forall c, c ∈ region -> forall a index s w out w',
    inv w -> fn (Ref c) (Ref a) index s w = Returns out w' -> inv w'.

(** A visitor that, on the components of a region of this store, returns
    [undefined] and changes nothing. *)
Definition idle_on {V} (w : World) (region : list loc) (fn : Visitor V) : Prop :=
  forall c, c ∈ region -> forall a index s,
    fn (Ref c) (Ref a) index s w = Returns (Undefined, s) w.

(** What a call returned and what it left behind, for the statements
    that look at one component or one array only. *)
Definition visible_after {A} (o : outcome A) (c : loc) : option bool :=
  match o with
  | Returns _ w => visible <$> objects w !! c
  | _ => None
  end.

Definition array_after {A} (o : outcome A) (a : loc) : option (list loc) :=
  match o with
  | Returns _ w => arrays w !! a
  | _ => None
  end.

Definition returned {A} (o : outcome A) : option A :=
  match o with
  | Returns a _ => Some a
  | _ => None
  end.

Definition effects_after {A} (o : outcome A) : list Effect :=
  match o with
  | Returns _ w => effects w
  | _ => []
  end.

(** *** More vocabulary: lookups and whole traversals *)

(** The component at [c] passes the test of a lookup. *)
Definition satisfies (matches : Instance -> bool) (w : World) (c : loc) : bool :=
  match objects w !! c with
  | Some o => matches o
  | None => false
  end.

(** The tests of [getComponent] and of [getComponentById]. *)
Definition key_is (key : string) (o : Instance) : bool :=
  String.eqb (Schema.key (component o)) key.

Definition id_is (i : string) (o : Instance) : bool := String.eqb (id o) i.

(** The visitor both lookups hand to [everyComponent]. *)
Definition lookup_visitor (matches : Instance -> bool) (fn : option Callback)
    : Visitor value :=
  fun component components _ comp =>
    let* o := deref component in
    if matches o then
      call fn component components ;;
      ret (Bool false, component)
    else ret (Undefined, comp).

(** The callback the two removals hand to the lookup. *)
Definition removal `{External} (fuel : nat) (this : loc) (fn : option Callback_n)
    : Callback :=
  fun component components =>
    match component with
    | Ref c =>
        removeComponent fuel this c components ;;
        call_n fn [component; components]
    | _ => throw
    end.

(** The components below the root of a shape, a parent before its
    children. *)
Definition below (t : Shape) : list loc :=
  match t with
  | LeafAt _ => []
  | NestedAt _ _ kids => flat_map locs kids
  end.

Section Visits.
Context (under : Shape -> list (loc * loc * nat)) (a : loc).

(** The visits of one level: each child with the array it is in and its
    index there, followed by the visits under it. *)
Fixpoint visits_level (kids : list Shape) (index : nat) : list (loc * loc * nat) :=
  match kids with
  | [] => []
  | t :: rest => (at_loc t, a, index) :: under t ++ visits_level rest (S index)
  end.

End Visits.

(** The visits of a deep traversal that is never stopped: what the
    visitor is called with, in order. *)
Fixpoint visits (t : Shape) : list (loc * loc * nat) :=
  match t with
  | LeafAt _ => []
  | NestedAt _ a kids => visits_level visits a kids 0
  end.

(** What a visitor that leaves the store alone has accumulated after
    the given visits. *)
Definition after_visits {V} (fn : value -> value -> nat -> V -> value * V)
    (l : list (loc * loc * nat)) (s : V) : V :=
  fold_left (fun s '(c, a, index) => snd (fn (Ref c) (Ref a) index s)) l s.

(** The leaves of a shape (the components that are not
    NestedComponents), in collection order. *)
Fixpoint leaf_locs (t : Shape) : list loc :=
  match t with
  | LeafAt c => [c]
  | NestedAt _ _ kids => flat_map leaf_locs kids
  end.

(** *** Teardown *)

(** A store in which the collection of every NestedComponent exists
    and holds components that exist, each of a lower rank than the
    container: no component is, directly or not, inside itself. *)
Definition ranked (rank : loc -> nat) (w : World) : Prop :=
  forall c o a,
    objects w !! c = Some o -> components o = Some a ->
    exists l, arrays w !! a = Some l /\
      forall x, x ∈ l -> is_Some (objects w !! x) /\ rank x < rank c.

(** The same, as a test that can be run on a given store. *)
Definition well_ranked (rank : loc -> nat) (w : World) : bool :=
  forallb (fun '(c, o) =>
             match components o with
             | None => true
             | Some a =>
                 match arrays w !! a with
                 | Some l =>
                     forallb (fun x => bool_decide (is_Some (objects w !! x))
                                       && Nat.ltb (rank x) (rank c)) l
                 | None => false
                 end
             end)
    (map_to_list (objects w)).

(** What stays of a store through a teardown: every component is still
    there, with its [id], its element and its schema, a NestedComponent
    still being one; every array is still there, with nothing added. *)
Definition persists (w w' : World) : Prop :=
  (forall c o, objects w !! c = Some o ->
     exists o', objects w' !! c = Some o' /\ id o' = id o /\ element o' = element o /\
                component o' = component o /\
                (is_Some (components o') <-> is_Some (components o)))
  /\ (forall a l, arrays w !! a = Some l ->
        exists l', arrays w' !! a = Some l' /\ forall x, x ∈ l' -> x ∈ l).

(** The container has a collection, which is empty and is an array
    that was not in the store [before], and an empty [hidden] list. *)
Definition emptied (before : World) (this : loc) (w : World) : Prop :=
  exists o a, objects w !! this = Some o /\ components o = Some a /\
              arrays w !! a = Some [] /\ arrays before !! a = None /\
              hidden o = Some [].

(** The teardown of the base class, which is also that of a leaf,
    returns, and leaves the components and the arrays of the store as
    they were. *)
Definition teardown_keeps_store `{External} : Prop :=
  forall c all w,
    exists w', base_destroy c all w = Returns tt w' /\
               objects w' = objects w /\ arrays w' = arrays w.

(** The collection of a component, when it is there and has one. *)
Definition collection_of (w : World) (c : loc) : option loc :=
  objects w !! c ≫= components.

(** The components of a higher rank than [x] have the collection they
    had. *)
Definition spares (rank : loc -> nat) (x : loc) (w w' : World) : Prop :=
  forall c, rank x < rank c -> collection_of w' c = collection_of w c.

(** What is known of a [destroy] on the components of a rank below
    [bound]: it returns, and the store is still ranked, with what was in
    it, the collections of the components of a higher rank being the
    same. *)
Definition tears_down (rank : loc -> nat) (d : loc -> M unit) (bound : nat) : Prop :=
  forall x w,
    ranked rank w -> is_Some (objects w !! x) -> rank x < bound ->
    exists w', d x w = Returns tt w' /\ ranked rank w' /\ persists w w' /\
               spares rank x w w'.

(** *** The visibility cascade *)

(** The components of a shape that [setHidden] hands to
    [hideComponents]: those that have children. *)
Fixpoint holders (t : Shape) : list loc :=
  match t with
  | LeafAt _ => []
  | NestedAt c _ kids =>
      match kids with
      | [] => []
      | _ => c :: flat_map holders kids
      end
  end.

(** The components of a shape that [setHidden] decides by its rules 2
    to 4: those that have no children. *)
Fixpoint cells (t : Shape) : list loc :=
  match t with
  | LeafAt c => [c]
  | NestedAt c _ kids =>
      match kids with
      | [] => [c]
      | _ => flat_map cells kids
      end
  end.

(** Rules 2 to 4, against a given list: [visible = false] is assigned
    when the schema says [hidden], when the key is in the list, or when
    [conditionallyVisible()], which is asked only then, returns
    [false]. *)
Definition settle `{External} (hidden : option (list string)) (c : loc) : M unit :=
  let* o := instance c in
  if Schema.hidden (component o) || includes_key hidden (Schema.key (component o))
  then assign_visible c false
  else
    let* shown := conditionallyVisible c in
    if shown then ret tt else assign_visible c false.

Section InTurn.
Context {A : Type} (f : A -> M unit).

(** One after the other. *)
Fixpoint in_turn (l : list A) : M unit :=
  match l with
  | [] => ret tt
  | x :: rest => f x ;; in_turn rest
  end.

End InTurn.

(** The cascade over a shape, one list for all of it: a component with
    children is given the list and its children are taken in order, a
    component without children is decided against the list. *)
Fixpoint cascade `{External} (hidden : option (list string)) (t : Shape) : M unit :=
  match t with
  | LeafAt c => settle hidden c
  | NestedAt c _ kids =>
      match kids with
      | [] => settle hidden c
      | _ => update c (set_hidden hidden) ;; in_turn (cascade hidden) kids
      end
  end.

(** The same tree in two stores: the arrays are the same and every
    component has the collection it had. *)
Definition same_tree (w w' : World) : Prop :=
  arrays w' = arrays w /\
  forall x, components <$> objects w' !! x = components <$> objects w !! x.

(** The [hidden] list of the component [c]. *)
Definition hidden_at (hidden : option (list string)) (w : World) (c : loc) : Prop :=
  Store.hidden <$> objects w !! c = Some hidden.

(** From [w] to [w'] the tree is the same, and a component that had the
    list still has it. *)
Definition carries (hidden : option (list string)) (w w' : World) : Prop :=
  same_tree w w' /\ forall x, hidden_at hidden w x -> hidden_at hidden w' x.

(** The setter of [visible], on a component of the store, returns, and
    keeps the arrays and, of every component, the collection and the
    [hidden] list. *)
Definition setter_keeps_tree `{External} : Prop :=
  forall c b w,
    is_Some (objects w !! c) ->
    exists w',
      assign_visible c b w = Returns tt w' /\ same_tree w w' /\
      forall x, Store.hidden <$> objects w' !! x = Store.hidden <$> objects w !! x.

(** [conditionallyVisible], on a component of the store, returns, and
    reads without writing. *)
Definition condition_reads `{External} : Prop :=
  forall c w,
    is_Some (objects w !! c) ->
    exists shown, conditionallyVisible c w = Returns shown w.

(** What [setHidden] with fuel [n] does on a child of a depth below [n]
    whose parent has the list: it returns, and is the cascade over the
    child. *)
Definition cascades `{External} (hidden : option (list string)) (n : nat) : Prop :=
  forall parent t wk,
    represents wk t = true -> depth t < n -> hidden_at hidden wk parent ->
    exists w',
      setHidden n parent (at_loc t) wk = Returns tt w' /\
      cascade hidden t wk = Returns tt w' /\
      carries hidden wk w' /\
      Forall (hidden_at hidden w') (holders t).

(** *** Building a container of leaves *)

(** Collaborators that build leaves: the factory returns a new
    component, which has no collection and has the schema it was made
    from, and changes nothing else; [build] writes to the child only,
    keeping its schema, its [parent] and [root], and keeping it a leaf;
    the [addComponent] hook returns an element when it is given one, and
    neither it nor [conditionallyVisible] writes to the store; the setter
    of [visible] changes no component but the one it is called on, of
    which it keeps the schema, the [parent] and [isBuilt], and leaves the
    arrays alone. *)
Definition makes_leaves `{External} : Prop :=
  (forall schema options data w,
     exists c made,
       Components_create schema options data w =
         Returns c (with_objects <[c := made]> w) /\
       objects w !! c = None /\
       components made = None /\ component made = schema)
  /\ (forall c o w,
        objects w !! c = Some o ->
        exists o',
          build c w = Returns tt (with_objects <[c := o']> w) /\
          components o' = components o /\ component o' = component o /\
          parent o' = parent o /\ root o' = root o)
  /\ (forall element c this w,
        exists element',
          hook_addComponent element c this w = Returns element' w /\
          (is_Some element -> is_Some element'))
  /\ (forall c w, exists shown, conditionallyVisible c w = Returns shown w)
  /\ (forall c b o w,
        objects w !! c = Some o ->
        exists o' w',
          assign_visible c b w = Returns tt w' /\
          objects w' = <[c := o']> (objects w) /\ arrays w' = arrays w /\
          component o' = component o /\ parent o' = parent o /\
          isBuilt o' = isBuilt o).

(** A child as [addComponents] leaves it: made from the schema, with
    the container as its parent, built. *)
Definition child_of (w : World) (this : loc) (c : loc) (schema : Schema.t) : Prop :=
  exists o,
    objects w !! c = Some o /\ component o = schema /\
    parent o = Some this /\ isBuilt o = true.

(** The schemas that give a child in the collection. *)
Definition collected (schemas : list Schema.t) : list Schema.t :=
  List.filter (fun schema => negb (Schema.internal schema)) schemas.

End Store.

(** ** Value and validity propagation over the component tree *)

Module Tree.

Import Js.

(** A flags object: its properties.  A property that is not there reads
    as [undefined]. *)
Abbreviation Flags := (gmap string value).

Definition prop (flags : Flags) (name : string) : value :=
  default Undefined (flags !! name).

(** The calls the class makes to code that is not its own: the methods of
    a leaf component, the methods of the base class ([super.*],
    [setCustomValidity], [triggerChange]) and [utils.checkCondition].  A
    call that takes a flags object records the properties the object has
    when the call is made. *)
Inductive Call :=
| UpdateValue (flags : Flags)
| CalculateValue (data : value) (flags : Flags)
| CheckConditions (data : value)
| CheckValidity (data dirty : value)
| IsValid (data dirty : value)
| SetValue (v : value) (flags : Flags)
| SuperCalculateValue (data : value) (flags : Flags)
| SuperCheckConditions (data : value)
| SuperCheckValidity (data dirty : value)
| SuperIsValid (data dirty : value)
| CheckCondition (data : value)
| SetCustomValidity (message : string)
| TriggerChange (flags : Flags).

(** One such call: the component it was made on (by [id]), the call and
    what it returned. *)
Record Event := {
  target : string;
  call : Call;
  result : bool;
}.

(** The state: the flags objects that are passed by reference and written
    to ([setValue]), and the calls made so far. *)
Record World := {
  flagsStore : gmap loc Flags;
  log : list Event;
}.

Definition M (A : Type) : Type := World -> A * World.

Definition ret {A} (a : A) : M A := fun w => (a, w).

Definition bind {A B} (m : M A) (k : A -> M B) : M B :=
  fun w => let (a, w') := m w in k a w'.

Notation "'let*' x := m 'in' k" := (bind m (fun x => k))
  (at level 10, x pattern, m at level 100, k at level 200).
Notation "m ;; k" := (bind m (fun _ => k))
  (at level 100, k at level 200, right associativity).

(** What a component's collaborators are known by: the fields the class
    reads, and how the code behind the component answers a call, given
    the calls made before it. *)
Record Info := {
  id : string;
  key : string;
  type : string;
  defaultValue : value;
  hasValue : value -> bool;
  behaviour : Call -> list Event -> bool;
}.

(** The component tree: a leaf, or a NestedComponent with its
    [components]. *)
Inductive Component :=
| Leaf (i : Info)
| Nested (i : Info) (components : list Component).

Definition info (c : Component) : Info :=
  match c with
  | Leaf i => i
  | Nested i _ => i
  end.

(** Make a call to a collaborator and record it. *)
Definition ask (i : Info) (c : Call) : M bool :=
  fun w =>
    let r := behaviour i c (log w) in
    (r, {| flagsStore := flagsStore w;
           log := log w ++ [{| target := id i; call := c; result := r |}] |}).

(** The properties of the flags object behind a value. *)
Definition read (flags : value) : M Flags :=
  fun w =>
    (match flags with
     | Ref l => default ∅ (flagsStore w !! l)
     | _ => ∅
     end, w).

(** [flags.name = v] *)
Definition write (flags : loc) (name : string) (v : value) : M unit :=
  fun w =>
    (tt, {| flagsStore := <[flags := <[name := v]> (default ∅ (flagsStore w !! flags))]>
                            (flagsStore w);
            log := log w |}).

Section Reduce.
Context {A B : Type} (f : B -> A -> M B).

(** [array.reduce(f, init)] *)
Fixpoint reduce (l : list A) (init : B) : M B :=
  match l with
  | [] => ret init
  | x :: rest => let* acc := f init x in reduce rest acc
  end.

End Reduce.

Section ForEach.
Context {A : Type} (f : A -> M unit).

(** [array.forEach(f)] *)
Fixpoint forEach (l : list A) : M unit :=
  match l with
  | [] => ret tt
  | x :: rest => f x ;; forEach rest
  end.

End ForEach.

(** [updateValue(flags)], lines 284-286. *)
Fixpoint updateValue (this : Component) (flags : Flags) : M bool :=
  match this with
  | Leaf i => ask i (UpdateValue flags)
  | Nested i components =>
      reduce (fun changed comp =>
                let* r := updateValue comp flags in ret (r || changed))
        components false
  end.

(** [calculateValue(data, flags)], lines 383-388. *)
Fixpoint calculateValue (this : Component) (data : value) (flags : Flags) : M bool :=
  match this with
  | Leaf i => ask i (CalculateValue data flags)
  | Nested i components =>
      let* init := ask i (SuperCalculateValue data flags) in
      reduce (fun changed comp =>
                let* r := calculateValue comp data flags in ret (r || changed))
        components init
  end.

(** [checkConditions(data)], lines 331-334. *)
Fixpoint checkConditions (this : Component) (data : value) : M bool :=
  match this with
  | Leaf i => ask i (CheckConditions data)
  | Nested i components =>
      forEach (fun comp => checkConditions comp data ;; ret tt) components ;;
      ask i (SuperCheckConditions data)
  end.

(** [isValid(data, dirty)], lines 390-395. *)
Fixpoint isValid (this : Component) (data dirty : value) : M bool :=
  match this with
  | Leaf i => ask i (IsValid data dirty)
  | Nested i components =>
      let* init := ask i (SuperIsValid data dirty) in
      reduce (fun valid comp =>
                let* r := isValid comp data dirty in ret (r && valid))
        components init
  end.

(** [checkValidity(data, dirty)], lines 397-407. *)
Fixpoint checkValidity (this : Component) (data dirty : value) : M bool :=
  match this with
  | Leaf i => ask i (CheckValidity data dirty)
  | Nested i components =>
      let* applies := ask i (CheckCondition data) in
      if negb applies then
        ask i (SetCustomValidity "") ;;
        ret true
      else
        let* init := ask i (SuperCheckValidity data dirty) in
        reduce (fun check comp =>
                  let* r := checkValidity comp data dirty in ret (r && check))
          components init
  end.

(** [checkData(data, flags)], lines 299-329, of a NestedComponent with
    the given [components].  [flags] is [None] when the caller passes
    none.  [changed] and [valid] are accumulated with [|=] and [&=]. *)
Definition checkData (i : Info) (components : list Component) (data : value)
    (flags : option Flags) : M value :=
  let flags := default ∅ flags in
  let valid := Bool true in
  if truthy (prop flags "noCheck") then ret Undefined
  else
    let* changed := updateValue (Nested i components) {["noUpdateEvent" := Bool true]} in
    let* (changed, valid) :=
      reduce (fun '(changed, valid) comp =>
                let* r := calculateValue comp data {["noUpdateEvent" := Bool true]} in
                let changed := bitor changed (Bool r) in
                checkConditions comp data ;;
                if negb (truthy (prop flags "noValidate")) then
                  let* v := checkValidity comp data Undefined in
                  ret (changed, bitand valid (Bool v))
                else ret (changed, valid))
        components (Bool changed, valid) in
    (if truthy changed then ask i (TriggerChange flags) ;; ret tt else ret tt) ;;
    ret valid.

(** lodash's [_.get(object, path)], which reads the key it is given as a
    path into the object.  The library is not part of the class. *)
Class Lodash := {
  lodash_get : value -> string -> value;
}.

(** [setNestedValue(component, value, flags, changed)], lines 468-483,
    over the [setValue] it dispatches to.  [flags] is the object
    [setValue] got from [getFlags]. *)
Definition setNestedValue_with {lodash : Lodash} (setValue : Component -> value -> value -> M bool)
    (component : Component) (value : value) (flags : loc) (changed : bool) : M bool :=
  if String.eqb (type (info component)) "button" then ret false
  else if String.eqb (type (info component)) "components" then
    let* r := setValue component value (Ref flags) in ret (r || changed)
  else if truthy value && hasValue (info component) value then
    let* r := setValue component (lodash_get value (key (info component))) (Ref flags) in
    ret (r || changed)
  else
    write flags "noValidate" (Bool true) ;;
    let* r := setValue component (defaultValue (info component)) (Ref flags) in
    ret (r || changed).

(** [setValue(value, flags)], lines 485-493.  [getFlags] is the base
    class's normalisation of the arguments into one flags object. *)
Fixpoint setValue {lodash : Lodash} (getFlags : value -> value -> M loc) (this : Component)
    (value flags : value) : M bool :=
  match this with
  | Leaf i =>
      let* f := read flags in
      ask i (SetValue value f)
  | Nested i components =>
      if negb (truthy value) then ret false
      else
        let* flags := getFlags value flags in
        reduce (fun changed component =>
                  setNestedValue_with (setValue getFlags) component value flags changed)
          components false
  end.

Definition setNestedValue {lodash : Lodash} (getFlags : value -> value -> M loc) :
    Component -> value -> loc -> bool -> M bool :=
  setNestedValue_with (setValue getFlags).

(** *** Vocabulary of the statements *)

Section InvokeAll.
Context {A R : Type} (m : A -> M R).

(** Call [m] on every element, in order, whatever the results are, and
    collect them. *)
Fixpoint invoke_all (l : list A) : M (list R) :=
  match l with
  | [] => ret []
  | x :: rest =>
      let* r := m x in
      let* rs := invoke_all rest in
      ret (r :: rs)
  end.

End InvokeAll.

(** A run of events that begins with a call made on the component [c]. *)
Definition starts_at (c : Component) (block : list Event) : Prop :=
  exists e rest, block = e :: rest /\ target e = id (info c).

(** The events are one run per component, in the order of the list. *)
Definition one_run_each (l : list Component) (events : list Event) : Prop :=
  exists blocks, events = concat blocks /\ Forall2 starts_at l blocks.

(** What [checkData] does with one child. *)
Definition check_child (data : value) (noValidate : bool) (comp : Component)
    : M (bool * option bool) :=
  let* r := calculateValue comp data {["noUpdateEvent" := Bool true]} in
  checkConditions comp data ;;
  if noValidate then ret (r, None)
  else
    let* v := checkValidity comp data Undefined in
    ret (r, Some v).

(** A number that stands for a truth value: what [|=] and [&=] leave in
    their accumulator. *)
Definition bit (b : bool) : value := Num (if b then 1 else 0).

(** The value [checkData] returns after the given steps: [valid] is
    still the boolean it started as when no child was validated, and a
    number once [&=] has run. *)
Definition accumulated_valid (steps : list (bool * option bool)) : value :=
  match omap snd steps with
  | [] => Bool true
  | vs => bit (forallb Datatypes.id vs)
  end.

(** The flags object of a [SetValue] call had [noValidate] set. *)
Definition noValidate_set (e : Event) : Prop :=
  match call e with
  | SetValue _ flags => flags !! "noValidate" = Some (Bool true)
  | _ => True
  end.

(** [component] goes through the last branch of [setNestedValue]. *)
Definition defaulted (component : Component) (value : value) : Prop :=
  type (info component) <> "button" /\
  type (info component) <> "components" /\
  truthy value && hasValue (info component) value = false.

(** The log of a computation only grows. *)
Definition appends {A} (m : M A) : Prop :=
  forall w, exists evs, log (snd (m w)) = log w ++ evs.

(** The events a computation adds begin with a call made on [c]. *)
Definition announces {A} (c : Component) (m : M A) : Prop :=
  forall w, starts_at c (drop (length (log w)) (log (snd (m w)))).

(** One step of the accumulators of [checkData]. *)
Definition or_step (changed : value) (step : bool * option bool) : value :=
  bitor changed (Bool (fst step)).

Definition and_step (valid : value) (step : bool * option bool) : value :=
  match snd step with
  | Some v => bitand valid (Bool v)
  | None => valid
  end.

(** The function [checkData] folds over the children. *)
Definition checkData_step (data : value) (flags : Flags)
    : value * value -> Component -> M (value * value) :=
  fun '(changed, valid) comp =>
    let* r := calculateValue comp data {["noUpdateEvent" := Bool true]} in
    let changed := bitor changed (Bool r) in
    checkConditions comp data ;;
    if negb (truthy (prop flags "noValidate")) then
      let* v := checkValidity comp data Undefined in
      ret (changed, bitand valid (Bool v))
    else ret (changed, valid).

(** The flags object at [l] has [noValidate] set. *)
Definition noValidate_at (l : loc) (w : World) : Prop :=
  default ∅ (flagsStore w !! l) !! "noValidate" = Some (Bool true).

(** A computation that leaves [noValidate] set once it is, and makes
    [SetValue] calls only with flags that have it set. *)
Definition keeps {A} (l : loc) (m : M A) : Prop :=
  forall w, noValidate_at l w ->
    noValidate_at l (snd (m w)) /\
    exists evs, log (snd (m w)) = log w ++ evs /\ Forall noValidate_set evs.

(** *** The tree as a whole *)

(** The leaves of a tree, in collection order. *)
Fixpoint leaves (c : Component) : list Info :=
  match c with
  | Leaf i => [i]
  | Nested _ components => flat_map leaves components
  end.

(** All the components of a tree, a parent before its children
    ([pre_order]) or after them ([post_order]). *)
Fixpoint pre_order (c : Component) : list Component :=
  c :: match c with
       | Leaf _ => []
       | Nested _ components => flat_map pre_order components
       end.

Fixpoint post_order (c : Component) : list Component :=
  match c with
  | Leaf _ => []
  | Nested _ components => flat_map post_order components
  end ++ [c].

(** The event is a call made on [c]: [on_leaf] when [c] is a leaf,
    [on_nested] (a call to the base class) when it is a
    NestedComponent. *)
Definition made (on_leaf on_nested : Call) (c : Component) (e : Event) : Prop :=
  target e = id (info c) /\
  call e = match c with Leaf _ => on_leaf | Nested _ _ => on_nested end.

(** [setValue(v)] on [c] never comes to the last branch of
    [setNestedValue]: below every container that gets a truthy value,
    each child is a button, or is of type [components], or has an entry
    in the value it is handed. *)
Fixpoint supplied {lodash : Lodash} (c : Component) (v : value) : bool :=
  match c with
  | Leaf _ => true
  | Nested _ components =>
      negb (truthy v) ||
      forallb (fun child =>
                 if String.eqb (type (info child)) "button" then true
                 else if String.eqb (type (info child)) "components" then supplied child v
                 else if truthy v && hasValue (info child) v then
                   supplied child (lodash_get v (key (info child)))
                 else false)
        components
  end.

(** What a call that goes through a tree leaves behind: the flags
    objects are as they were, and the log has grown by events that
    answer, one for one and in order, to [xs]; [answer] relates the value
    returned to these events. *)
Definition walks {X R} (rel : X -> Event -> Prop) (answer : R -> list Event -> Prop)
    (xs : list X) (m : M R) : Prop :=
  forall w,
    flagsStore (snd (m w)) = flagsStore w /\
    exists evs,
      log (snd (m w)) = log w ++ evs /\
      Forall2 rel xs evs /\
      answer (fst (m w)) evs.

(** The value returned is the disjunction, the conjunction, of the
    results of the calls, or the result of the last call. *)
Definition any_result (r : bool) (evs : list Event) : Prop := r = existsb result evs.
Definition all_results (r : bool) (evs : list Event) : Prop := r = forallb result evs.
Definition last_result (r : bool) (evs : list Event) : Prop := result <$> last evs = Some r.

End Tree.

(** ** Fixtures: small forms on which the statements are exercised *)

Module Fixture.

Import Js.

(** *** In the store *)

Definition schema (key : string) (hidden internal : bool) : Schema.t :=
  {| Schema.key := key; Schema.hidden := hidden; Schema.internal := internal |}.

(** A text field that is shown, with or without a DOM element. *)
Definition field (id key : string) (element : option Store.Element) : Store.Instance :=
  {| Store.id := id; Store.component := schema key false false;
     Store.type := "textfield"; Store.components := None; Store.hidden := None;
     Store.visible := true; Store.element := element;
     Store.options := Undefined; Store.data := Undefined;
     Store.parent := None; Store.root := None; Store.isBuilt := true |}.

(** A container whose children array is at [a]. *)
Definition container (id key : string) (a : loc) (hidden : list string)
    : Store.Instance :=
  {| Store.id := id; Store.component := schema key false false;
     Store.type := "components"; Store.components := Some a;
     Store.hidden := Some hidden; Store.visible := true; Store.element := Some 100;
     Store.options := Undefined; Store.data := Undefined;
     Store.parent := None; Store.root := None; Store.isBuilt := true |}.

(** Collaborators for the fixtures: the factory makes a field from the
    schema, with the schema's key as its id and the element [7] unless the
    key is ["bare"]; [build] and the hook do nothing; every component is
    conditionally visible except those listed; the setter of [visible]
    keeps the value it is given; the base teardown is recorded. *)
Definition collaborators (not_shown : list loc) : Store.External :=
  {| Store.Components_create := fun component _ _ w =>
       let c := fresh (dom (Store.objects w)) in
       Store.Returns c
         (Store.with_objects
            <[c := {| Store.id := Schema.key component; Store.component := component;
                      Store.type := "textfield"; Store.components := None;
                      Store.hidden := None; Store.visible := true;
                      Store.element :=
                        if String.eqb (Schema.key component) "bare" then None else Some 7;
                      Store.options := Undefined; Store.data := Undefined;
                      Store.parent := None; Store.root := None;
                      Store.isBuilt := false |}]> w);
     Store.build := fun _ => Store.ret tt;
     Store.hook_addComponent := fun element _ _ => Store.ret element;
     Store.conditionallyVisible := fun c => Store.ret (negb (bool_decide (c ∈ not_shown)));
     Store.assign_visible := fun c b => Store.update c (Store.set_visible b);
     Store.base_destroy := fun c _ => Store.modify (Store.with_effect (Store.Destroy c)) |}.

(** A callback that records the arguments it is called with. *)
Definition record : Store.Callback_n :=
  fun args => Store.modify (Store.with_effect (Store.Called args)).

(** A visitor that lists what it visits and returns [false] on the
    components in [stop], [undefined] on the others. *)
Definition listing (stop : list loc) : value -> list value -> value * list value :=
  fun component seen =>
    (match component with
     | Ref c => if bool_decide (c ∈ stop) then Bool false else Undefined
     | _ => Undefined
     end, seen ++ [component]).

(** The form [0] with children [1], [2], [3] keyed a, b, c. *)
Definition flat : Store.World :=
  {| Store.objects :=
       <[0 := container "form" "form" 10 ["b"]]>
       (<[1 := field "f1" "a" (Some 1)]>
       (<[2 := field "f2" "b" (Some 2)]>
       (<[3 := field "f3" "c" (Some 3)]> ∅)));
     Store.arrays := <[10 := [1; 2; 3]]> ∅;
     Store.parentNode := <[1 := 100]> (<[2 := 100]> (<[3 := 100]> ∅));
     Store.effects := [] |}.

(** The form [0] with the panel [1] (holding [3], keyed k) and the field
    [2] (keyed k as well) after it. *)
Definition deep : Store.World :=
  {| Store.objects :=
       <[0 := container "form" "form" 10 []]>
       (<[1 := container "p1" "panel" 11 []]>
       (<[2 := field "f2" "k" None]>
       (<[3 := field "f3" "k" None]> ∅)));
     Store.arrays := <[10 := [1; 2]]> (<[11 := [3]]> ∅);
     Store.parentNode := ∅;
     Store.effects := [] |}.

Definition deep_shape : Store.Shape :=
  Store.NestedAt 0 10 [Store.NestedAt 1 11 [Store.LeafAt 3]; Store.LeafAt 2].

(** *** In the tree *)

(** The keys of the fixtures are plain names, for which [_.get] reads
    the property of that name. *)
Definition lodash : Tree.Lodash := {| Tree.lodash_get := get |}.

(** A component whose collaborators answer every call with [answer]. *)
Definition answering (id key type : string) (answer : bool) : Tree.Info :=
  {| Tree.id := id; Tree.key := key; Tree.type := type;
     Tree.defaultValue := Null;
     Tree.hasValue := fun v => has v key;
     Tree.behaviour := fun _ _ => answer |}.

(** A container whose condition does not apply. *)
Definition absent (id : string) : Tree.Info :=
  {| Tree.id := id; Tree.key := id; Tree.type := "components";
     Tree.defaultValue := Null;
     Tree.hasValue := fun _ => false;
     Tree.behaviour := fun c _ =>
       match c with
       | Tree.CheckCondition _ => false
       | _ => true
       end |}.

(** The form itself, a text field and a button, as tree nodes. *)
Definition form : Tree.Info := answering "form" "form" "components" true.

Definition text (key : string) (answer : bool) : Tree.Component :=
  Tree.Leaf (answering key key "textfield" answer).

Definition button (key : string) : Tree.Component :=
  Tree.Leaf (answering key key "button" false).

(** [getFlags] that hands a flags object back as it is, and makes a new
    one when there is none. *)
Definition getFlags : value -> value -> Tree.M loc :=
  fun _ flags w =>
    match flags with
    | Ref l => (l, w)
    | _ =>
        let l := fresh (dom (Tree.flagsStore w)) in
        (l, {| Tree.flagsStore := <[l := ∅]> (Tree.flagsStore w);
               Tree.log := Tree.log w |})
    end.

(** One flags object, still empty, and no call made yet. *)
Definition start : Tree.World :=
  {| Tree.flagsStore := <[0 := ∅]> ∅; Tree.log := [] |}.

(** A panel of the tree model: the two fields [a] and [b] in a nested
    container, and a field [c] after it. *)
Definition survey (answer : bool) : Tree.Component :=
  Tree.Nested form
    [Tree.Nested (answering "panel" "panel" "components" answer)
       [text "a" answer; text "b" true];
     text "c" answer].

(** The shape of the flat form. *)
Definition flat_shape : Store.Shape :=
  Store.NestedAt 0 10 [Store.LeafAt 1; Store.LeafAt 2; Store.LeafAt 3].

(** A callback of a lookup that leaves a warning behind. *)
Definition notice : Store.Callback :=
  fun _ _ => Store.modify (Store.with_effect (Store.Warn "found")).

(** A visitor that lists what it is called with. *)
Definition collecting : value -> value -> nat -> list (value * value * nat) ->
    value * list (value * value * nat) :=
  fun component components index seen =>
    (Undefined, seen ++ [(component, components, index)]).

(** The ranks of the components of the deep form (and of the flat
    one): the form above the panel, the panel above the fields. *)
Definition rank_of : loc -> nat :=
  fun c => match c with 0 => 2 | 1 => 1 | _ => 0 end.

(** Leaves of which only the field [3] has an error to report. *)
Definition reports : Store.Reports :=
  {| Store.leaf_errors := fun c =>
       Store.ret (if bool_decide (c = 3) then Some [Num 7] else None) |}.

(** The hook of [addComponents] hands the declared schemas over: here
    the fields [x] and [y], with a decoration between them that is
    internal. *)
Definition declares : Store.Hooks :=
  {| Store.hook_addComponents := fun _ =>
       Store.ret (Some [schema "x" false false; schema "deco" false true;
                        schema "y" true false]) |}.

(** A form with no children yet, whose options are an object. *)
Definition blank : Store.World :=
  {| Store.objects :=
       <[0 := {| Store.id := "form"; Store.component := schema "form" false false;
                 Store.type := "components"; Store.components := Some 10;
                 Store.hidden := Some []; Store.visible := true;
                 Store.element := Some 100;
                 Store.options := Obj []; Store.data := Undefined;
                 Store.parent := None; Store.root := None; Store.isBuilt := false |}]> ∅;
     Store.arrays := <[10 := []]> ∅;
     Store.parentNode := ∅;
     Store.effects := [] |}.

End Fixture.

(** ** Lifecycle cascades over the component tree

    [setPristine], [clearOnHide], the [disabled] setter, [resetValue],
    [getValue] and [show] hand one call down the tree.  As in [Tree], the
    methods of a leaf and of the base class are not part of the class:
    each call to them is recorded, and what it does to the submission
    data and what it returns are taken from the component. *)

Module Lifecycle.

Import Js.

(** The data objects, by reference: the properties of each. *)
Abbreviation Data := (gmap loc (gmap string value)).

Inductive Call :=
| SetPristine (pristine : value)
| ClearOnHide (show : value)
| SetDisabled (disabled : value)
| ResetValue
| Show (show : value)
| SetError (message : string).

Record Event := {
  target : string;
  call : Call;
}.

Record World := {
  data : Data;
  log : list Event;
}.

Definition M (A : Type) : Type := World -> A * World.

Definition ret {A} (a : A) : M A := fun w => (a, w).

Definition bind {A B} (m : M A) (k : A -> M B) : M B :=
  fun w => let (a, w') := m w in k a w'.

Notation "'let*' x := m 'in' k" := (bind m (fun x => k))
  (at level 10, x pattern, m at level 100, k at level 200).
Notation "m ;; k" := (bind m (fun _ => k))
  (at level 100, k at level 200, right associativity).

(** A component as the class sees it: [id], [key] (a single path
    segment), the reference [this.data], the [show] and [hide] maps of
    [this.options], and the code behind the component: what a call does
    to the data, and what [show] returns, given the calls made before. *)
Record Node := {
  id : string;
  key : string;
  this_data : loc;
  options_show : value;
  options_hide : value;
  acts : Call -> Data -> Data;
  shows : value -> list Event -> bool;
}.

Inductive Component :=
| Leaf (n : Node)
| Nested (n : Node) (components : list Component).

Definition node (c : Component) : Node :=
  match c with
  | Leaf n => n
  | Nested n _ => n
  end.

(** A call to the code behind a component. *)
Definition ask (n : Node) (c : Call) : M unit :=
  fun w => (tt, {| data := acts n c (data w);
                   log := log w ++ [{| target := id n; call := c |}] |}).

Section ForEach.
Context {A : Type} (f : A -> M unit).

Fixpoint forEach (l : list A) : M unit :=
  match l with
  | [] => ret tt
  | x :: rest => f x ;; forEach rest
  end.

End ForEach.

(** [setPristine(pristine)], lines 409-412. *)
Fixpoint setPristine (this : Component) (pristine : value) : M unit :=
  match this with
  | Leaf n => ask n (SetPristine pristine)
  | Nested n components =>
      ask n (SetPristine pristine) ;;
      forEach (fun comp => setPristine comp pristine) components
  end.

(** [clearOnHide(show)], lines 336-339. *)
Fixpoint clearOnHide (this : Component) (show : value) : M unit :=
  match this with
  | Leaf n => ask n (ClearOnHide show)
  | Nested n components =>
      ask n (ClearOnHide show) ;;
      forEach (fun component => clearOnHide component show) components
  end.

(** The [disabled] setter, lines 426-428: the assignment
    [component.disabled = disabled] runs the setter of the child. *)
Fixpoint set_disabled (this : Component) (disabled : value) : M unit :=
  match this with
  | Leaf n => ask n (SetDisabled disabled)
  | Nested _ components =>
      forEach (fun component => set_disabled component disabled) components
  end.

(** [_.unset(this.data, this.key)] *)
Definition unset (n : Node) : M unit :=
  fun w => (tt, {| data := alter (delete (key n)) (this_data n) (data w);
                   log := log w |}).

(** [resetValue()], lines 458-462. *)
Fixpoint resetValue (this : Component) : M unit :=
  match this with
  | Leaf n => ask n ResetValue
  | Nested n components =>
      forEach resetValue components ;;
      unset n ;;
      setPristine this (Bool true)
  end.

(** [getValue()], lines 454-456: the data object itself, not a copy. *)
Definition getValue (n : Node) : M value := ret (Ref (this_data n)).

(** The leaves of a tree: what [getAllComponents] returns. *)
Fixpoint leaves (c : Component) : list Node :=
  match c with
  | Leaf n => [n]
  | Nested _ components => flat_map leaves components
  end.

(** [a && b] on values. *)
Definition and (a b : value) : value := if truthy a then b else a.

(** [this.options.show && this.options.show[this.component.key]] *)
Definition forced (map : value) (n : Node) : value := and map (get map (key n)).

(** What [show] of a leaf or of the base class returns, the call being
    recorded. *)
Definition ask_show (n : Node) (show : value) : M bool :=
  fun w => let r := shows n show (log w) in
           let (_, w') := ask n (Show show) w in (r, w').

(** [component.error = '']: a write to the component, which the log
    keeps. *)
Definition set_error (n : Node) (message : string) : M unit :=
  fun w => (tt, {| data := data w;
                   log := log w ++ [{| target := id n; call := SetError message |}] |}).

(** [show(show)], lines 341-363. *)
Fixpoint show (this : Component) (v : value) : M bool :=
  match this with
  | Leaf n => ask_show n v
  | Nested n components =>
      let* shown := ask_show n v in
      let forceShow := forced (options_show n) n in
      let forceHide := forced (options_hide n) n in
      (if truthy (or forceShow forceHide) then
         forEach (fun component =>
                    if truthy forceShow then show component (Bool true) ;; ret tt
                    else if truthy forceHide then show component (Bool false) ;; ret tt
                    else ret tt)
           components
       else ret tt) ;;
      (if negb shown then
         forEach (fun component => set_error component "")
           (flat_map leaves components)
       else ret tt) ;;
      ret shown
  end.

(** *** Vocabulary of the statements *)

(** All the components of a tree, a parent before its children. *)
Fixpoint pre_order (c : Component) : list Component :=
  c :: match c with
       | Leaf _ => []
       | Nested _ components => flat_map pre_order components
       end.

(** The same call made on each of the given components, in order. *)
Definition run (c : Call) (l : list Node) : list Event :=
  List.map (fun n => {| target := id n; call := c |}) l.

Section InvokeAll.
Context {A R : Type} (m : A -> M R).

(** Call [m] on every element, in order, and collect the results. *)
Fixpoint invoke_all (l : list A) : M (list R) :=
  match l with
  | [] => ret []
  | x :: rest =>
      let* r := m x in
      let* rs := invoke_all rest in
      ret (r :: rs)
  end.

End InvokeAll.

(** What [show] forces on the children: [true] when the [show] map has
    a truthy entry for the container's key, [false] when only the [hide]
    map has one. *)
Definition forcing (n : Node) : option bool :=
  if truthy (forced (options_show n) n) then Some true
  else if truthy (forced (options_hide n) n) then Some false
  else None.

Definition is_reset (e : Event) : bool :=
  match call e with
  | ResetValue => true
  | _ => false
  end.

(** Making a component pristine does nothing to the data. *)
Definition pristine_keeps_data (c : Component) : Prop :=
  forall p, acts (node c) (SetPristine p) = fun d => d.

(** A form with a panel holding two fields, and a third field. *)
Definition plain (id : string) (data : loc) : Node :=
  {| id := id; key := id; this_data := data;
     options_show := Obj []; options_hide := Obj [];
     acts := fun c d =>
       match c with
       | ResetValue => alter (insert id Null) data d
       | _ => d
       end;
     shows := fun v _ => truthy v |}.

Definition sample : Component :=
  Nested (plain "form" 0)
    [Nested (plain "panel" 0) [Leaf (plain "a" 0); Leaf (plain "b" 0)];
     Leaf (plain "c" 0)].

Definition filled : World :=
  {| data := {[ 0 := {[ "form" := Num 1; "panel" := Num 2; "a" := Num 3 ]} ]};
     log := [] |}.

End Lifecycle.

(** ** Collapsing

    [setCollapsed] and [toggleCollapse], lines 502-522, over the element
    of the container: its attributes and its [style.visibility]. *)

Module Collapse.

Import Js.

Record Node := {
  attributes : gmap string string;
  visibility : string;
}.

(** The elements there are, by handle. *)
Abbreviation Dom := (gmap nat Node).

(** What the two methods read and write of the container:
    [component.collapsible], [collapsed] and what [getContainer()]
    returns. *)
Record Panel := {
  collapsible : value;
  collapsed : bool;
  container : option nat;
}.

(** [element.setAttribute(name, value)]: the value is kept as a
    string. *)
Definition setAttribute (name value : string) (n : Node) : Node :=
  {| attributes := <[name := value]> (attributes n); visibility := visibility n |}.

Definition removeAttribute (name : string) (n : Node) : Node :=
  {| attributes := delete name (attributes n); visibility := visibility n |}.

Definition set_visibility (v : string) (n : Node) : Node :=
  {| attributes := attributes n; visibility := v |}.

(** [setCollapsed(element)], lines 502-517; [None] when it throws, on a
    container that is [undefined] or is not an element. *)
Definition setCollapsed (this : Panel) (element : option nat) (dom : Dom) : option Dom :=
  if negb (truthy (collapsible this)) then Some dom
  else
    match (match element with Some e => Some e | None => container this end) with
    | None => None
    | Some e =>
        match dom !! e with
        | None => None
        | Some n =>
            if collapsed this then
              Some (<[e := set_visibility "hidden" (setAttribute "hidden" "true" n)]> dom)
            else
              Some (<[e := set_visibility "visible" (removeAttribute "hidden" n)]> dom)
        end
    end.

(** [toggleCollapse()], lines 519-522. *)
Definition toggleCollapse (this : Panel) (dom : Dom) : option (Panel * Dom) :=
  let this := {| collapsible := collapsible this; collapsed := negb (collapsed this);
                 container := container this |} in
  match setCollapsed this None dom with
  | Some dom' => Some (this, dom')
  | None => None
  end.

(** *** Vocabulary of the statements *)

(** The element shows the state of the panel: hidden, with the
    [hidden] attribute, exactly when the panel is collapsed. *)
Definition in_step (this : Panel) (dom : Dom) : Prop :=
  exists e n,
    container this = Some e /\ dom !! e = Some n /\
    (if collapsed this
     then attributes n !! "hidden" = Some "true" /\ visibility n = "hidden"
     else attributes n !! "hidden" = None /\ visibility n = "visible").

(** A panel that can be collapsed, open, with its element. *)
Definition open_panel : Panel :=
  {| collapsible := Bool true; collapsed := false; container := Some 5 |}.

Definition body : Node :=
  {| attributes := {[ "class" := "panel" ]}; visibility := "visible" |}.

Definition page : Dom := {[ 5 := body ]}.

End Collapse.

(** * Facts about the tree model *)

Section TreeFacts.
Context {lodash : Tree.Lodash}.
Import Js Tree.

(** Induction over the component tree, children included. *)
Lemma Component_ind' (P : Component -> Prop) :
  (forall i, P (Leaf i)) ->
  (forall i components, Forall P components -> P (Nested i components)) ->
  forall c, P c.
Proof.
  intros HL HN.
  fix IH 1. intros [i | i components].
  - apply HL.
  - apply HN. induction components as [| c cs IHcs]; constructor; auto.
Qed.

Lemma bind_eq {A B} (m : M A) (k : A -> M B) w a w' :
  m w = (a, w') -> bind m k w = k a w'.
Proof. unfold bind. intros ->. reflexivity. Qed.

(** [reduce] with an accumulating [&&] calls every element and returns
    the conjunction. *)
Lemma reduce_and {A} (m : A -> M bool) (l : list A) (init : bool) (w : World) :
  reduce (fun acc x => let* r := m x in ret (r && acc)) l init w =
  let (rs, w') := invoke_all m l w in (forallb Datatypes.id rs && init, w').
Proof.
  revert init w. induction l as [| x rest IH]; intros init w; simpl.
  - reflexivity.
  - unfold bind at 1. unfold bind at 1. unfold bind at 2.
    destruct (m x w) as [r w1]. unfold ret at 1. rewrite IH.
    unfold bind. destruct (invoke_all m rest w1) as [rs w2]. simpl.
    f_equal. destruct r, init, (forallb Datatypes.id rs); reflexivity.
Qed.

Lemma invoke_all_length {A R} (m : A -> M R) (l : list A) (w : World) :
  length (fst (invoke_all m l w)) = length l.
Proof.
  revert w. induction l as [| x rest IH]; intros w; simpl; [reflexivity |].
  unfold bind. destruct (m x w) as [r w1]. specialize (IH w1).
  destruct (invoke_all m rest w1) as [rs w2]. simpl in *. congruence.
Qed.


(** *** The log only grows *)

Lemma appends_ret {A} (a : A) : appends (ret a).
Proof. intros w. exists []. simpl. by rewrite app_nil_r. Qed.

Lemma appends_bind {A B} (m : M A) (k : A -> M B) :
  appends m -> (forall a, appends (k a)) -> appends (bind m k).
Proof.
  intros Hm Hk w. unfold bind. destruct (Hm w) as [evs1 H1].
  destruct (m w) as [a w1]. simpl in H1.
  destruct (Hk a w1) as [evs2 H2]. exists (evs1 ++ evs2).
  by rewrite H2, H1, app_assoc.
Qed.

Lemma appends_ask i c : appends (ask i c).
Proof. intros w. eexists. reflexivity. Qed.

Lemma appends_write l name v : appends (write l name v).
Proof. intros w. exists []. simpl. by rewrite app_nil_r. Qed.

Lemma appends_read flags : appends (read flags).
Proof. intros w. exists []. simpl. by rewrite app_nil_r. Qed.

Lemma appends_reduce {A B} (f : B -> A -> M B) (l : list A) :
  Forall (fun x => forall acc, appends (f acc x)) l ->
  forall init, appends (reduce f l init).
Proof.
  induction 1 as [| x rest Hx _ IH]; intros init; simpl.
  - apply appends_ret.
  - apply appends_bind; auto.
Qed.

Lemma appends_forEach {A} (f : A -> M unit) (l : list A) :
  Forall (fun x => appends (f x)) l -> appends (forEach f l).
Proof.
  induction 1 as [| x rest Hx _ IH]; simpl.
  - apply appends_ret.
  - apply appends_bind; auto.
Qed.

Lemma appends_invoke_all {A R} (m : A -> M R) (l : list A) :
  Forall (fun x => appends (m x)) l -> appends (invoke_all m l).
Proof.
  induction 1 as [| x rest Hx _ IH]; simpl.
  - apply appends_ret.
  - apply appends_bind; [done |]. intros r.
    apply appends_bind; [done |]. intros rs. apply appends_ret.
Qed.

Ltac appends_step :=
  repeat first
    [ apply appends_ret | apply appends_ask | apply appends_write
    | apply appends_read
    | apply appends_bind; [| intros ?] ].

Lemma appends_isValid c data dirty : appends (isValid c data dirty).
Proof.
  induction c as [i | i components IH] using Component_ind'; simpl.
  - apply appends_ask.
  - apply appends_bind; [apply appends_ask | intros init].
    apply appends_reduce. eapply Forall_impl; [exact IH |].
    intros comp Hcomp acc. simpl. appends_step. exact Hcomp.
Qed.

Lemma appends_checkValidity c data dirty : appends (checkValidity c data dirty).
Proof.
  induction c as [i | i components IH] using Component_ind'; simpl.
  - apply appends_ask.
  - apply appends_bind; [apply appends_ask | intros applies].
    destruct applies; simpl.
    + apply appends_bind; [apply appends_ask | intros init].
      apply appends_reduce. eapply Forall_impl; [exact IH |].
      intros comp Hcomp acc. simpl. appends_step. exact Hcomp.
    + appends_step.
Qed.

Lemma appends_updateValue c flags : appends (updateValue c flags).
Proof.
  induction c as [i | i components IH] using Component_ind'; simpl.
  - apply appends_ask.
  - apply appends_reduce. eapply Forall_impl; [exact IH |].
    intros comp Hcomp acc. simpl. appends_step. exact Hcomp.
Qed.

Lemma appends_calculateValue c data flags : appends (calculateValue c data flags).
Proof.
  induction c as [i | i components IH] using Component_ind'; simpl.
  - apply appends_ask.
  - apply appends_bind; [apply appends_ask | intros init].
    apply appends_reduce. eapply Forall_impl; [exact IH |].
    intros comp Hcomp acc. simpl. appends_step. exact Hcomp.
Qed.

Lemma appends_checkConditions c data : appends (checkConditions c data).
Proof.
  induction c as [i | i components IH] using Component_ind'; simpl.
  - apply appends_ask.
  - apply appends_bind; [| intros _; apply appends_ask].
    apply appends_forEach. eapply Forall_impl; [exact IH |].
    intros comp Hcomp. simpl. appends_step. exact Hcomp.
Qed.

(** *** A call on a component is seen in the log *)

Lemma announces_ask_bind {A} c i call (k : bool -> M A) :
  id i = id (info c) -> (forall b, appends (k b)) ->
  announces c (bind (ask i call) k).
Proof.
  intros Hid Hk w. unfold bind, ask. simpl.
  match goal with |- context [k ?b ?w1] => destruct (Hk b w1) as [evs Hevs] end.
  rewrite Hevs. simpl. rewrite <- app_assoc, drop_app_length. simpl.
  eexists _, _. split; [reflexivity | exact Hid].
Qed.

Lemma announces_ask c i call :
  id i = id (info c) -> announces c (ask i call).
Proof.
  intros Hid w. unfold ask. simpl. rewrite drop_app_length.
  eexists _, _. split; [reflexivity | exact Hid].
Qed.

Lemma announces_isValid c data dirty : announces c (isValid c data dirty).
Proof.
  destruct c as [i | i components]; simpl.
  - by apply announces_ask.
  - apply announces_ask_bind; [done |]. intros init.
    apply appends_reduce, Forall_forall. intros comp _ acc.
    appends_step. apply appends_isValid.
Qed.

Lemma announces_checkValidity c data dirty : announces c (checkValidity c data dirty).
Proof.
  destruct c as [i | i components]; simpl.
  - by apply announces_ask.
  - apply announces_ask_bind; [done |]. intros [|]; simpl.
    + apply appends_bind; [apply appends_ask | intros init].
      apply appends_reduce, Forall_forall. intros comp _ acc.
      appends_step. apply appends_checkValidity.
    + appends_step.
Qed.

(** Every element of an [invoke_all] leaves its own run of events. *)
Lemma invoke_all_runs {R} (m : Component -> M R) (l : list Component) :
  (forall c, appends (m c)) -> (forall c, announces c (m c)) ->
  forall w, one_run_each l (drop (length (log w)) (log (snd (invoke_all m l w)))).
Proof.
  intros Happ Hann. induction l as [| c rest IH]; intros w; simpl.
  - rewrite drop_all. exists []. split; [reflexivity | constructor].
  - unfold bind. pose proof (Hann c w) as Hc. pose proof (Happ c w) as [evs Hevs].
    destruct (m c w) as [r w1]. simpl in *.
    specialize (IH w1).
    assert (Hrest : appends (invoke_all m rest))
      by (apply appends_invoke_all, Forall_forall; auto).
    destruct (Hrest w1) as [evs2 Hevs2].
    destruct (invoke_all m rest w1) as [rs w2]. simpl in *.
    rewrite Hevs2 in IH |- *. rewrite drop_app_length in IH.
    rewrite Hevs in Hc |- *. rewrite drop_app_length in Hc.
    rewrite <- app_assoc, drop_app_length.
    destruct IH as [blocks [-> HF]].
    exists (evs :: blocks). split; [reflexivity | by constructor].
Qed.


Lemma bind_ask {A} i c (k : bool -> M A) w :
  bind (ask i c) k w = k (behaviour i c (log w)) (snd (ask i c w)).
Proof. reflexivity. Qed.

Lemma isValid_Nested i components data dirty :
  isValid (Nested i components) data dirty =
  (let* init := ask i (SuperIsValid data dirty) in
   reduce (fun valid comp => let* r := isValid comp data dirty in ret (r && valid))
     components init).
Proof. reflexivity. Qed.

Lemma checkValidity_Nested i components data dirty :
  checkValidity (Nested i components) data dirty =
  (let* applies := ask i (CheckCondition data) in
   if negb applies then ask i (SetCustomValidity "") ;; ret true
   else
     let* init := ask i (SuperCheckValidity data dirty) in
     reduce (fun check comp => let* r := checkValidity comp data dirty in ret (r && check))
       components init).
Proof. reflexivity. Qed.

Lemma checkValidity_applies i components data dirty w :
  behaviour i (CheckCondition data) (log w) = true ->
  let w0 := snd (ask i (CheckCondition data) w) in
  let (base, w1) := ask i (SuperCheckValidity data dirty) w0 in
  let (rs, w2) := invoke_all (fun comp => checkValidity comp data dirty) components w1 in
  checkValidity (Nested i components) data dirty w = (base && forallb Datatypes.id rs, w2)
  /\ length rs = length components
  /\ one_run_each components (drop (length (log w1)) (log w2)).
Proof.
  intros Happlies w0.
  assert (Hstep : checkValidity (Nested i components) data dirty w =
            (let* init := ask i (SuperCheckValidity data dirty) in
             reduce (fun check comp =>
                       let* r := checkValidity comp data dirty in ret (r && check))
               components init) w0).
  { rewrite checkValidity_Nested, bind_ask, Happlies. reflexivity. }
  rewrite Hstep. clear Hstep. generalize w0. clear w0 Happlies. intros w0.
  unfold bind at 1.
  destruct (ask i (SuperCheckValidity data dirty) w0) as [base w1].
  rewrite reduce_and.
  pose proof (invoke_all_length (fun comp => checkValidity comp data dirty) components w1) as Hlen.
  pose proof (invoke_all_runs (fun comp => checkValidity comp data dirty) components
                (fun c => appends_checkValidity c data dirty)
                (fun c => announces_checkValidity c data dirty) w1) as Hruns.
  destruct (invoke_all _ components w1) as [rs w2]. simpl in *.
  split; [| split]; [| exact Hlen | exact Hruns].
  f_equal. apply andb_comm.
Qed.

(** C2.  When the container's own condition ([checkCondition]) says it
    does not apply, [checkValidity] clears the custom validity message
    and returns [true]: the only calls made are [checkCondition] and
    [setCustomValidity('')], both on the container, so no child's
    [checkValidity] runs.  When the condition applies, the result is the
    conjunction of the base class's validity and of the result of
    [checkValidity] on every child, all of them called in order. *)
Theorem checkValidity_condition (i : Info) (components : list Component)
    (data dirty : value) (w : World) :
  (behaviour i (CheckCondition data) (log w) = false ->
   let asked := {| target := id i; call := CheckCondition data; result := false |} in
   checkValidity (Nested i components) data dirty w =
     (true,
      {| flagsStore := flagsStore w;
         log := log w ++
           [asked;
            {| target := id i; call := SetCustomValidity "";
               result := behaviour i (SetCustomValidity "") (log w ++ [asked]) |}] |}))
  /\ (behaviour i (CheckCondition data) (log w) = true ->
      let w0 := snd (ask i (CheckCondition data) w) in
      let (base, w1) := ask i (SuperCheckValidity data dirty) w0 in
      let (rs, w2) := invoke_all (fun comp => checkValidity comp data dirty) components w1 in
      checkValidity (Nested i components) data dirty w =
        (base && forallb Datatypes.id rs, w2)).
Proof.
  split.
  - intros Hno. rewrite checkValidity_Nested. unfold bind, ask, ret.
    rewrite Hno. simpl. by rewrite <- app_assoc.
  - intros Happlies.
    pose proof (checkValidity_applies i components data dirty w Happlies) as H.
    cbv zeta in H |- *.
    destruct (ask i (SuperCheckValidity data dirty) _) as [base w1].
    destruct (invoke_all _ components w1) as [rs w2]. apply H.
Qed.

(** C4.  [isValid], and [checkValidity] when the container's condition
    applies, first ask the base class, then call the same method on every
    child in collection order, whatever the earlier results were: there
    is one result per child, every child leaves its own run of calls in
    the log, and the value returned is the conjunction of the base
    validity and of all the children's results. *)
Theorem validity_folds_never_short_circuit (i : Info) (components : list Component)
    (data dirty : value) (w : World) :
  (let (base, w1) := ask i (SuperIsValid data dirty) w in
   let (rs, w2) := invoke_all (fun comp => isValid comp data dirty) components w1 in
   isValid (Nested i components) data dirty w = (base && forallb Datatypes.id rs, w2)
   /\ length rs = length components
   /\ one_run_each components (drop (length (log w1)) (log w2)))
  /\ (behaviour i (CheckCondition data) (log w) = true ->
      let w0 := snd (ask i (CheckCondition data) w) in
      let (base, w1) := ask i (SuperCheckValidity data dirty) w0 in
      let (rs, w2) := invoke_all (fun comp => checkValidity comp data dirty) components w1 in
      checkValidity (Nested i components) data dirty w =
        (base && forallb Datatypes.id rs, w2)
      /\ length rs = length components
      /\ one_run_each components (drop (length (log w1)) (log w2))).
Proof.
  split; [| apply checkValidity_applies].
  rewrite isValid_Nested. unfold bind at 1.
  destruct (ask i (SuperIsValid data dirty) w) as [base w1] eqn:Hbase.
  rewrite reduce_and.
  pose proof (invoke_all_length (fun comp => isValid comp data dirty) components w1) as Hlen.
  pose proof (invoke_all_runs (fun comp => isValid comp data dirty) components
                (fun c => appends_isValid c data dirty)
                (fun c => announces_isValid c data dirty) w1) as Hruns.
  destruct (invoke_all _ components w1) as [rs w2]. simpl in *.
  split; [| split]; [| exact Hlen | exact Hruns].
  f_equal. apply andb_comm.
Qed.


(** *** The accumulators of [checkData] *)

Lemma bitor_Bool a r : bitor (Bool a) (Bool r) = bit (a || r).
Proof. by destruct a, r. Qed.

Lemma bitor_bit a r : bitor (bit a) (Bool r) = bit (a || r).
Proof. by destruct a, r. Qed.

Lemma bitand_Bool a r : bitand (Bool a) (Bool r) = bit (a && r).
Proof. by destruct a, r. Qed.

Lemma bitand_bit a r : bitand (bit a) (Bool r) = bit (a && r).
Proof. by destruct a, r. Qed.

Lemma truthy_bit b : truthy (bit b) = b.
Proof. by destruct b. Qed.

Lemma fold_or_bit steps c :
  fold_left or_step steps (bit c) = bit (c || existsb fst steps).
Proof.
  revert c. induction steps as [| s rest IH]; intros c; simpl.
  - by rewrite orb_false_r.
  - unfold or_step at 2. rewrite bitor_bit, IH. by rewrite orb_assoc.
Qed.

Lemma fold_or_truthy steps c :
  truthy (fold_left or_step steps (Bool c)) = c || existsb fst steps.
Proof.
  destruct steps as [| s rest]; simpl.
  - by rewrite orb_false_r.
  - unfold or_step at 2. rewrite bitor_Bool, fold_or_bit, truthy_bit.
    by rewrite orb_assoc.
Qed.

Lemma fold_and_bit steps c :
  fold_left and_step steps (bit c) = bit (c && forallb Datatypes.id (omap snd steps)).
Proof.
  revert c. induction steps as [| [r [v |]] rest IH]; intros c; simpl.
  - by rewrite andb_true_r.
  - unfold and_step at 2. simpl. rewrite bitand_bit, IH. by rewrite andb_assoc.
  - apply IH.
Qed.

Lemma fold_and_valid steps :
  fold_left and_step steps (Bool true) = accumulated_valid steps.
Proof.
  unfold accumulated_valid.
  induction steps as [| [r [v |]] rest IH]; simpl.
  - reflexivity.
  - unfold and_step at 2. simpl. rewrite bitand_Bool, fold_and_bit. reflexivity.
  - exact IH.
Qed.

Lemma checkData_step_eq data flags changed valid comp w :
  checkData_step data flags (changed, valid) comp w =
  let (step, w') := check_child data (truthy (prop flags "noValidate")) comp w in
  (or_step changed step, and_step valid step, w').
Proof.
  unfold checkData_step, check_child, bind, ret.
  destruct (calculateValue comp data _ w) as [r w1].
  destruct (checkConditions comp data w1) as [c w2].
  destruct (truthy (prop flags "noValidate")); cbn [negb]; [reflexivity |].
  destruct (checkValidity comp data Undefined w2) as [v w3]. reflexivity.
Qed.

Lemma reduce_checkData data flags components changed valid w :
  reduce (checkData_step data flags) components (changed, valid) w =
  let (steps, w') :=
    invoke_all (check_child data (truthy (prop flags "noValidate"))) components w in
  (fold_left or_step steps changed, fold_left and_step steps valid, w').
Proof.
  revert changed valid w.
  induction components as [| comp rest IH]; intros changed valid w.
  - reflexivity.
  - cbn [reduce invoke_all]. unfold bind at 1. rewrite checkData_step_eq.
    unfold bind at 1.
    destruct (check_child data _ comp w) as [step w1].
    rewrite IH. unfold bind.
    destruct (invoke_all _ rest w1) as [steps w2]. reflexivity.
Qed.

(** C7, as amended.  With [flags.noCheck] set, [checkData] returns
    [undefined] and does nothing.  Otherwise it runs [updateValue], then
    for each child [calculateValue], [checkConditions] and, unless
    [flags.noValidate] is set, [checkValidity]; it calls [triggerChange]
    exactly when [updateValue] or some child's [calculateValue] reported
    a change; and it returns what [&=] accumulated: the boolean [true]
    when no child was validated, otherwise the number [1] when every
    child was valid and [0] when one was not. *)
Theorem checkData_accumulates (i : Info) (components : list Component)
    (data : value) (flags : option Flags) (w : World) :
  let f := default ∅ flags in
  (truthy (prop f "noCheck") = true ->
   checkData i components data flags w = (Undefined, w))
  /\ (truthy (prop f "noCheck") = false ->
      let (changed0, w1) :=
        updateValue (Nested i components) {["noUpdateEvent" := Bool true]} w in
      let (steps, w2) :=
        invoke_all (check_child data (truthy (prop f "noValidate"))) components w1 in
      checkData i components data flags w =
        (accumulated_valid steps,
         if changed0 || existsb fst steps
         then snd (ask i (TriggerChange f) w2)
         else w2)).
Proof.
  intros f. unfold checkData. fold f. split; intros HnoCheck; rewrite HnoCheck.
  - reflexivity.
  - unfold bind at 1.
    destruct (updateValue (Nested i components) _ w) as [changed0 w1].
    unfold bind at 1. fold (checkData_step data f). rewrite reduce_checkData.
    destruct (invoke_all _ components w1) as [steps w2].
    rewrite fold_or_truthy, fold_and_valid.
    destruct (changed0 || existsb fst steps); reflexivity.
Qed.


(** *** [setValue] and the shared flags object *)

Lemma setValue_Nested getFlags i components v flags :
  setValue getFlags (Nested i components) v flags =
  (if negb (truthy v) then ret false
   else
     let* flags := getFlags v flags in
     reduce (fun changed component => setNestedValue getFlags component v flags changed)
       components false).
Proof. reflexivity. Qed.

Lemma reduce_app {A B} (f : B -> A -> M B) (l1 l2 : list A) init w :
  reduce f (l1 ++ l2) init w =
  let (acc, w1) := reduce f l1 init w in reduce f l2 acc w1.
Proof.
  revert init w. induction l1 as [| x rest IH]; intros init w; simpl.
  - reflexivity.
  - unfold bind. destruct (f init x w) as [acc w1]. apply IH.
Qed.

Lemma keeps_ret {A} l (a : A) : keeps l (ret a).
Proof.
  intros w Hw. split; [exact Hw |]. exists []. split; [| constructor].
  simpl. by rewrite app_nil_r.
Qed.

Lemma keeps_bind {A B} l (m : M A) (k : A -> M B) :
  keeps l m -> (forall a, keeps l (k a)) -> keeps l (bind m k).
Proof.
  intros Hm Hk w Hw. unfold bind. destruct (Hm w Hw) as [H1 [evs1 [E1 F1]]].
  destruct (m w) as [a w1]. simpl in *.
  destruct (Hk a w1 H1) as [H2 [evs2 [E2 F2]]].
  split; [exact H2 |]. exists (evs1 ++ evs2). split.
  - by rewrite E2, E1, app_assoc.
  - by apply Forall_app.
Qed.

Lemma keeps_reduce {A B} l (f : B -> A -> M B) (xs : list A) :
  Forall (fun x => forall acc, keeps l (f acc x)) xs ->
  forall init, keeps l (reduce f xs init).
Proof.
  induction 1 as [| x rest Hx _ IH]; intros init; simpl.
  - apply keeps_ret.
  - apply keeps_bind; auto.
Qed.

Lemma keeps_write l : keeps l (write l "noValidate" (Bool true)).
Proof.
  intros w Hw. split.
  - unfold noValidate_at, write. simpl. rewrite lookup_insert_eq. simpl.
    by rewrite lookup_insert_eq.
  - exists []. split; [| constructor]. simpl. by rewrite app_nil_r.
Qed.

Lemma write_sets l w : noValidate_at l (snd (write l "noValidate" (Bool true) w)).
Proof.
  unfold noValidate_at, write. simpl. rewrite lookup_insert_eq. simpl.
  by rewrite lookup_insert_eq.
Qed.

Lemma keeps_setValue_Leaf getFlags l i v : keeps l (setValue getFlags (Leaf i) v (Ref l)).
Proof.
  intros w Hw. simpl. unfold bind, read, ask. simpl. split; [exact Hw |].
  eexists. split; [reflexivity |]. constructor; [| constructor]. exact Hw.
Qed.

(** *** What [setValue] returns *)

(** A reducer whose steps only ever add to the accumulator returns the
    disjunction of what the steps report. *)
Lemma reduce_or {A} (m : A -> bool -> M bool) (l : list A) (init : bool) (w : World) :
  (forall x changed w, x ∈ l ->
     m x changed w = let (r, w') := m x false w in (r || changed, w')) ->
  reduce (fun changed x => m x changed) l init w =
  let (rs, w') := invoke_all (fun x => m x false) l w in
  (existsb Datatypes.id rs || init, w').
Proof.
  revert init w. induction l as [| x rest IH]; intros init w Hm; [reflexivity |].
  cbn [reduce invoke_all]. unfold bind at 1 2. rewrite Hm by (apply elem_of_cons; by left).
  destruct (m x false w) as [r w1].
  rewrite IH by (intros; apply Hm; apply elem_of_cons; by right).
  unfold bind. destruct (invoke_all _ rest w1) as [rs w2]. simpl.
  f_equal. destruct r, init, (existsb Datatypes.id rs); reflexivity.
Qed.

(** Line 470: a button is skipped, and the accumulator with it. *)
Lemma setNestedValue_button getFlags c v l changed w :
  type (info c) = "button" ->
  setNestedValue getFlags c v l changed w = (false, w).
Proof. intros Hb. unfold setNestedValue, setNestedValue_with. by rewrite Hb. Qed.

(** Lines 474, 477 and 481: every other child keeps the accumulator. *)
Lemma setNestedValue_accumulates getFlags c v l changed w :
  type (info c) <> "button" ->
  setNestedValue getFlags c v l changed w =
  let (r, w') := setNestedValue getFlags c v l false w in (r || changed, w').
Proof.
  intros Hb. unfold setNestedValue, setNestedValue_with.
  destruct (String.eqb_spec (type (info c)) "button") as [? | _]; [done |].
  destruct (String.eqb _ "components"); [| destruct (_ && _)];
    unfold bind, ret, write;
    destruct (setValue getFlags c _ (Ref l) _) as [r w']; by rewrite orb_false_r.
Qed.

Section PassThrough.
Context (getFlags : value -> value -> M loc).
Hypothesis getFlags_object : forall v l w, getFlags v (Ref l) w = (l, w).

Lemma keeps_getFlags l v (k : loc -> M bool) :
  keeps l (k l) -> keeps l (bind (getFlags v (Ref l)) k).
Proof. intros Hk w Hw. unfold bind. rewrite getFlags_object. by apply Hk. Qed.

Lemma keeps_setNestedValue l c v changed :
  (forall v', keeps l (setValue getFlags c v' (Ref l))) ->
  keeps l (setNestedValue getFlags c v l changed).
Proof.
  intros Hc. unfold setNestedValue, setNestedValue_with.
  repeat case_match; repeat first
    [ apply keeps_ret | apply keeps_write | apply Hc
    | apply keeps_bind; [| intros ?] ].
Qed.

Lemma setValue_Nested_object i components v l w :
  truthy v = true ->
  setValue getFlags (Nested i components) v (Ref l) w =
  reduce (fun changed component => setNestedValue getFlags component v l changed)
    components false w.
Proof.
  intros Hv. rewrite setValue_Nested, Hv. cbn [negb]. unfold bind.
  by rewrite getFlags_object.
Qed.

Lemma keeps_setValue l c : forall v, keeps l (setValue getFlags c v (Ref l)).
Proof.
  induction c as [i | i components IH] using Component_ind'; intros v.
  - apply keeps_setValue_Leaf.
  - rewrite setValue_Nested. case_match; [apply keeps_ret |].
    apply keeps_getFlags. apply keeps_reduce.
    eapply Forall_impl; [exact IH |]. intros c Hc acc.
    by apply keeps_setNestedValue.
Qed.

(** A leaf that is not a button gets exactly one [SetValue] call from
    [setNestedValue], with the flags object as it is by then. *)
Lemma setNestedValue_Leaf_call l j v changed w :
  type j <> "button" -> noValidate_at l w ->
  exists e v' f,
    log (snd (setNestedValue getFlags (Leaf j) v l changed w)) = log w ++ [e] /\
    target e = id j /\ call e = SetValue v' f /\
    f !! "noValidate" = Some (Bool true).
Proof.
  intros Hbutton Hw. unfold setNestedValue, setNestedValue_with. cbn [info].
  destruct (String.eqb_spec (type j) "button") as [? | _]; [done |].
  repeat case_match; unfold bind, write, read, ask, ret; simpl;
    eexists _, _, _; (split; [reflexivity |]); (split; [reflexivity |]);
    (split; [reflexivity |]); try exact Hw.
  rewrite lookup_insert_eq. simpl. by rewrite lookup_insert_eq.
Qed.

Lemma reduce_calls_leaf l v (post : list Component) j :
  Leaf j ∈ post -> type j <> "button" ->
  forall changed w, noValidate_at l w ->
  exists evs e v' f,
    log (snd (reduce (fun changed component =>
                        setNestedValue getFlags component v l changed)
                post changed w)) = log w ++ evs /\
    e ∈ evs /\ target e = id j /\ call e = SetValue v' f /\
    f !! "noValidate" = Some (Bool true).
Proof.
  intros Hin Hbutton.
  induction post as [| c rest IH]; intros changed w Hw; [by apply elem_of_nil in Hin |].
  cbn [reduce]. unfold bind.
  apply elem_of_cons in Hin as [<- | Hin].
  - destruct (setNestedValue_Leaf_call l j v changed w Hbutton Hw)
      as (e & v' & f & He & Ht & Hc & Hf).
    pose proof (keeps_setNestedValue l (Leaf j) v changed
                  (fun v' => keeps_setValue l (Leaf j) v') w Hw) as [Hw1 _].
    destruct (setNestedValue getFlags (Leaf j) v l changed w) as [acc w1].
    simpl in *.
    assert (Hrest : keeps l (reduce (fun changed component =>
                       setNestedValue getFlags component v l changed) rest acc)).
    { apply keeps_reduce, Forall_forall. intros c _ a.
      apply keeps_setNestedValue. intros v''. apply keeps_setValue. }
    destruct (Hrest w1 Hw1) as [_ [evs [Hevs _]]].
    exists ([e] ++ evs), e, v', f. rewrite Hevs, He, <- app_assoc.
    repeat split; auto. set_solver.
  - pose proof (keeps_setNestedValue l c v changed
                  (fun v' => keeps_setValue l c v') w Hw) as [Hw1 [evs1 [Hevs1 _]]].
    destruct (setNestedValue getFlags c v l changed w) as [acc w1]. simpl in *.
    destruct (IH Hin acc w1 Hw1) as (evs & e & v' & f & He & Hine & Ht & Hc & Hf).
    exists (evs1 ++ evs), e, v', f. rewrite He, Hevs1, <- app_assoc.
    repeat split; auto. set_solver.
Qed.

(** Without buttons, the result is the disjunction of what the children
    return, every child being called. *)
Lemma setValue_or (i : Info) (components : list Component) (v : value) (l : loc) (w : World) :
  truthy v = true ->
  Forall (fun c => type (info c) <> "button") components ->
  setValue getFlags (Nested i components) v (Ref l) w =
  let (rs, w') :=
    invoke_all (fun c => setNestedValue getFlags c v l false) components w in
  (existsb Datatypes.id rs, w').
Proof.
  intros Hv Hnone. rewrite setValue_Nested_object by done.
  rewrite (reduce_or (fun c changed => setNestedValue getFlags c v l changed)).
  - destruct (invoke_all _ components w) as [rs w']. by rewrite orb_false_r.
  - intros c changed w0 Hc. apply setNestedValue_accumulates.
    rewrite Forall_forall in Hnone. by apply Hnone.
Qed.

(** A button forgets what the children before it returned: the result is
    that of the children after it alone. *)
Lemma setValue_after_button (i : Info) (before after : list Component) (b : Component)
    (v : value) (l : loc) (w : World) :
  truthy v = true ->
  type (info b) = "button" ->
  setValue getFlags (Nested i (before ++ b :: after)) v (Ref l) w =
  let (_, w1) := setValue getFlags (Nested i before) v (Ref l) w in
  setValue getFlags (Nested i after) v (Ref l) w1.
Proof.
  intros Hv Hb. rewrite !setValue_Nested_object by done.
  rewrite reduce_app.
  destruct (reduce _ before false w) as [acc w1].
  cbn [reduce]. unfold bind at 1.
  fold (setNestedValue getFlags b v l acc w1).
  rewrite setNestedValue_button by done.
  by rewrite setValue_Nested_object by done.
Qed.

End PassThrough.

(** C10.  Let [getFlags] hand an object argument back as it is.  When
    a child [d] of the container goes through the last branch of
    [setNestedValue] (no entry for it in the value), then after [setValue]
    returns the caller's flags object has [noValidate] set to [true], and
    from [d] on every [setValue] call on a leaf, in [d] and in all the
    siblings after it and their descendants, is made with flags that have
    [noValidate] set; every leaf sibling after [d] that is not a button
    does get such a call, whether the value has an entry for it or
    not. *)
Theorem setValue_defaulting_marks_shared_flags
    (getFlags : value -> value -> M loc) (i : Info)
    (pre post : list Component) (d : Component) (v : value) (l : loc) (w : World) :
  (forall v l w, getFlags v (Ref l) w = (l, w)) ->
  truthy v = true ->
  defaulted d v ->
  let w1 := snd (setValue getFlags (Nested i pre) v (Ref l) w) in
  let w' := snd (setValue getFlags (Nested i (pre ++ d :: post)) v (Ref l) w) in
  prop (default ∅ (flagsStore w' !! l)) "noValidate" = Bool true
  /\ exists evs,
       log w' = log w1 ++ evs
       /\ Forall noValidate_set evs
       /\ forall j, Leaf j ∈ post -> type j <> "button" ->
            exists e v' f, e ∈ evs /\ target e = id j /\ call e = SetValue v' f
                           /\ f !! "noValidate" = Some (Bool true).
Proof.
  intros Hpass Hv (Hbutton & Hcomponents & HhasValue) w1 w'.
  subst w1 w'. rewrite !(setValue_Nested_object getFlags Hpass) by done.
  rewrite reduce_app.
  set (step := fun changed component => setNestedValue getFlags component v l changed).
  destruct (reduce step pre false w) as [acc w1]. cbn [snd].
  cbn [reduce]. unfold bind.
  (* the defaulting child *)
  assert (Hd : step acc d w1 =
            (let* r := setValue getFlags d (defaultValue (info d)) (Ref l) in
             ret (r || acc)) (snd (write l "noValidate" (Bool true) w1))).
  { unfold step, setNestedValue, setNestedValue_with.
    destruct (String.eqb_spec (type (info d)) "button") as [? | _]; [done |].
    destruct (String.eqb_spec (type (info d)) "components") as [? | _]; [done |].
    rewrite HhasValue. reflexivity. }
  rewrite Hd. clear Hd.
  pose proof (write_sets l w1) as Hw2.
  assert (Hlog2 : log (snd (write l "noValidate" (Bool true) w1)) = log w1) by reflexivity.
  revert Hw2 Hlog2. generalize (snd (write l "noValidate" (Bool true) w1)). intros w2 Hw2 Hlog2.
  assert (Hkd : keeps l (let* r := setValue getFlags d (defaultValue (info d)) (Ref l) in
                         ret (r || acc))).
  { apply keeps_bind; [by apply keeps_setValue | intros r; apply keeps_ret]. }
  destruct (Hkd w2 Hw2) as [Hw3 [evs3 [Hlog3 Hall3]]].
  destruct ((let* r := setValue getFlags d (defaultValue (info d)) (Ref l) in
             ret (r || acc)) w2) as [acc3 w3]. cbn [snd] in *.
  assert (Hkpost : keeps l (reduce step post acc3)).
  { apply keeps_reduce, Forall_forall. intros c _ a.
    apply keeps_setNestedValue. intros v''. by apply keeps_setValue. }
  destruct (Hkpost w3 Hw3) as [Hw4 [evs4 [Hlog4 Hall4]]].
  split.
  - unfold noValidate_at in Hw4. unfold prop. by rewrite Hw4.
  - exists (evs3 ++ evs4). split; [| split].
    + by rewrite Hlog4, Hlog3, Hlog2, app_assoc.
    + by apply Forall_app.
    + intros j Hin Hj.
      pose proof (reduce_calls_leaf getFlags Hpass l v post j Hin Hj acc3 w3 Hw3) as H.
      fold step in H. destruct H as (evs & e & v' & f & He & Hine & Ht & Hc & Hf).
      rewrite Hlog4 in He. apply app_inv_head in He. subst evs.
      exists e, v', f. repeat split; auto. set_solver.
Qed.

End TreeFacts.

Section TreeExamples.
Import Js Tree.

(** C1, on the input where it fails.  The form has the text field [a],
    which reports a change, followed by a button: [setValue] calls the
    field (the log has the call and its result [true]) and still returns
    [false], because the button's turn returns [false] instead of the
    accumulated [changed]. *)
Theorem setValue_button_forgets_changed :
  setValue (lodash := Fixture.lodash) Fixture.getFlags
    (Nested Fixture.form [Fixture.text "a" true; Fixture.button "submit"])
    (Obj [("a", Num 1)]) (Ref 0) Fixture.start =
  (false,
   {| flagsStore := flagsStore Fixture.start;
      log := [{| target := "a"; call := SetValue (Num 1) ∅; result := true |}] |}).
Proof. vm_compute. reflexivity. Qed.

(** C2 on a panel whose condition does not apply: the failing field in
    it is never asked. *)
Lemma checkValidity_condition_witness :
  checkValidity (Nested (Fixture.absent "panel") [Fixture.text "a" false])
    Undefined Undefined Fixture.start =
  (true,
   {| flagsStore := flagsStore Fixture.start;
      log := [{| target := "panel"; call := CheckCondition Undefined; result := false |};
              {| target := "panel"; call := SetCustomValidity ""; result := true |}] |}).
Proof.
  exact (proj1 (checkValidity_condition (Fixture.absent "panel") [Fixture.text "a" false]
                  Undefined Undefined Fixture.start) eq_refl).
Defined.

(** C4 on three fields of which the first is invalid: all three are
    asked, after the form itself, and the result is [false]. *)
Lemma validity_folds_witness :
  fst (checkValidity
         (Nested Fixture.form
            [Fixture.text "a" false; Fixture.text "b" true; Fixture.text "c" true])
         Undefined Undefined Fixture.start) = false
  /\ List.map target
       (log (snd (checkValidity
                    (Nested Fixture.form
                       [Fixture.text "a" false; Fixture.text "b" true; Fixture.text "c" true])
                    Undefined Undefined Fixture.start))) =
     ["form"; "form"; "a"; "b"; "c"].
Proof.
  pose proof (proj2 (validity_folds_never_short_circuit Fixture.form
                [Fixture.text "a" false; Fixture.text "b" true; Fixture.text "c" true]
                Undefined Undefined Fixture.start) eq_refl) as [H _].
  rewrite H. split; reflexivity.
Defined.

(** C7 as stated fails: with one valid field, [checkData] returns the
    number [1], which is not a boolean. *)
Lemma checkData_returns_number :
  fst (checkData Fixture.form [Fixture.text "a" true] Undefined None Fixture.start) = Num 1
  /\ forall b,
       fst (checkData Fixture.form [Fixture.text "a" true] Undefined None Fixture.start)
       <> Bool b.
Proof. split; [reflexivity | intros b; discriminate]. Qed.

(** C7 as amended, with [noCheck] set and with one invalid field. *)
Lemma checkData_accumulates_witness :
  checkData Fixture.form [Fixture.text "a" true; Fixture.text "b" false] Undefined
    (Some {["noCheck" := Bool true]}) Fixture.start = (Undefined, Fixture.start)
  /\ fst (checkData Fixture.form [Fixture.text "a" true; Fixture.text "b" false] Undefined
            None Fixture.start) = Num 0.
Proof.
  split.
  - apply (checkData_accumulates Fixture.form
             [Fixture.text "a" true; Fixture.text "b" false] Undefined
             (Some {["noCheck" := Bool true]}) Fixture.start).
    vm_compute. reflexivity.
  - assert (HnoCheck : truthy (prop (default ∅ (None : option Flags)) "noCheck") = false)
      by (vm_compute; reflexivity).
    pose proof (proj2 (checkData_accumulates Fixture.form
                         [Fixture.text "a" true; Fixture.text "b" false] Undefined
                         None Fixture.start) HnoCheck) as H.
    vm_compute in H. vm_compute. exact (f_equal fst H).
Defined.

(** C10 on a form with the field [b], that the value does not mention,
    before the field [a], that it does. *)
Lemma setValue_defaulting_witness :
  prop (default ∅ (flagsStore
          (snd (setValue (lodash := Fixture.lodash) Fixture.getFlags
                  (Nested Fixture.form [Fixture.text "b" false; Fixture.text "a" true])
                  (Obj [("a", Num 1)]) (Ref 0) Fixture.start)) !! 0))
    "noValidate" = Bool true.
Proof.
  assert (Hd : defaulted (Fixture.text "b" false) (Obj [("a", Num 1)])).
  { split; [| split]; [intros E; vm_compute in E; discriminate ..
                      | vm_compute; reflexivity]. }
  pose proof (setValue_defaulting_marks_shared_flags (lodash := Fixture.lodash) Fixture.getFlags Fixture.form
                [] [Fixture.text "a" true] (Fixture.text "b" false)
                (Obj [("a", Num 1)]) 0 Fixture.start
                (fun _ _ _ => eq_refl) eq_refl Hd) as H.
  cbv zeta in H. destruct H as [H _]. exact H.
Defined.

End TreeExamples.

(** * Facts about the store model *)

Section StoreFacts.
Import Js Store.

Lemma bind_Returns {A B} (m : M A) (k : A -> M B) w a w' :
  m w = Returns a w' -> bind m k w = k a w'.
Proof. unfold bind. intros ->. reflexivity. Qed.

Lemma bind_Throws {A B} (m : M A) (k : A -> M B) w :
  m w = Throws -> bind m k w = Throws.
Proof. unfold bind. intros ->. reflexivity. Qed.

Lemma bind_Timeout {A B} (m : M A) (k : A -> M B) w :
  m w = Timeout -> bind m k w = Timeout.
Proof. unfold bind. intros ->. reflexivity. Qed.

Lemma bind_bind {A B C} (m : M A) (k : A -> M B) (k' : B -> M C) w :
  bind (bind m k) k' w = bind m (fun a => bind (k a) k') w.
Proof. unfold bind. by destruct (m w). Qed.

Lemma represents_instance w t :
  represents w t = true ->
  exists o, objects w !! at_loc t = Some o /\
    components o = match t with LeafAt _ => None | NestedAt _ a _ => Some a end.
Proof.
  destruct t as [c | c a kids]; simpl; intros H.
  - destruct (objects w !! c) as [o |]; [| done].
    apply bool_decide_eq_true in H. eauto.
  - apply andb_true_iff in H as [H _]. apply andb_true_iff in H as [H _].
    destruct (objects w !! c) as [o |]; [| done].
    apply bool_decide_eq_true in H. eauto.
Qed.

Lemma represents_NestedAt w c a kids :
  represents w (NestedAt c a kids) = true ->
  arrays w !! a = Some (List.map at_loc kids) /\
  Forall (fun t => represents w t = true) kids.
Proof.
  simpl. intros H. apply andb_true_iff in H as [H Hkids].
  apply andb_true_iff in H as [_ Harr]. apply bool_decide_eq_true in Harr.
  split; [exact Harr |]. apply Forall_forall. intros t Ht.
  rewrite forallb_forall in Hkids. apply Hkids. by apply list_elem_of_In.
Qed.

Lemma depth_kid c a kids t n :
  t ∈ kids -> depth (NestedAt c a kids) < S n -> depth t < n.
Proof.
  simpl. intros Hin Hd.
  assert (depth t <= list_max (List.map depth kids)).
  { clear Hd. induction kids as [| k rest IH]; [by apply elem_of_nil in Hin |].
    apply elem_of_cons in Hin as [-> | Hin]; simpl; [lia |].
    specialize (IH Hin). lia. }
  lia.
Qed.

Lemma at_loc_in_locs t : at_loc t ∈ locs t.
Proof. destruct t; simpl; apply elem_of_cons; by left. Qed.

Lemma getComponents_represents w c a kids :
  represents w (NestedAt c a kids) = true -> getComponents c w = Returns a w.
Proof.
  intros H. destruct (represents_instance _ _ H) as [o [Ho Hc]]. simpl in *.
  unfold getComponents, bind, instance. rewrite Ho, Hc. reflexivity.
Qed.

Lemma has_everyComponent_represents w t :
  represents w t = true ->
  has_everyComponent (Ref (at_loc t)) w =
  Returns (match t with LeafAt _ => false | NestedAt _ _ _ => true end) w.
Proof.
  intros H. destruct (represents_instance _ _ H) as [o [Ho Hc]].
  unfold has_everyComponent, instance_of, bind, instance, ret. rewrite Ho, Hc.
  by destruct t.
Qed.

Lemma arrayEach_each {V} (fn : value -> nat -> V -> M (value * V)) a l :
  keeps_array a l fn ->
  forall rest prefix s w, l = prefix ++ rest -> arrays w !! a = Some l ->
    arrayEach (each_iteratee fn) a (length prefix) (length rest) s w =
    each_until_false fn rest (length prefix) s w.
Proof.
  intros Hkeeps. induction rest as [| c rest IH]; intros prefix s w Hl Ha.
  - reflexivity.
  - cbn [length arrayEach each_until_false].
    rewrite (bind_Returns _ _ w l w) by (unfold array; by rewrite Ha).
    assert (Hc : l !! length prefix = Some c).
    { rewrite Hl. by rewrite list_lookup_middle. }
    rewrite Hc. cbv beta zeta iota. unfold each_iteratee at 1. rewrite bind_bind.
    unfold bind at 1 3.
    destruct (fn (Ref c) (length prefix) s w) as [[r s1] w1 | |] eqn:Hfn; [| done | done].
    destruct (is_false r) eqn:Hr; unfold bind, ret; cbn [is_false]; [reflexivity |].
    specialize (IH (prefix ++ [c]) s1 w1). rewrite length_app in IH. simpl in IH.
    replace (length prefix + 1) with (S (length prefix)) in IH by lia.
    apply IH; [rewrite Hl, <- app_assoc; reflexivity |].
    eapply Hkeeps; eauto.
Qed.

Lemma eachComponent_each {V} (fn : value -> nat -> V -> M (value * V)) w this o a l s :
  objects w !! this = Some o -> components o = Some a -> arrays w !! a = Some l ->
  keeps_array a l fn ->
  eachComponent this fn s w =
  (let* s' := each_until_false fn l 0 s in ret (Undefined, s')) w.
Proof.
  intros Ho Hc Ha Hkeeps. unfold eachComponent.
  rewrite (bind_Returns _ _ w a w)
    by (unfold getComponents, bind, instance; by rewrite Ho, Hc).
  unfold each. fold (each_iteratee fn). rewrite bind_bind.
  rewrite (bind_Returns _ _ w l w) by (unfold array; by rewrite Ha).
  pose proof (arrayEach_each fn a l Hkeeps l [] s w eq_refl Ha) as Hrun.
  cbn [length] in Hrun. unfold bind at 1 2. by rewrite Hrun.
Qed.

Lemma everyComponent_S {V} n this (fn : Visitor V) s :
  everyComponent (S n) this fn s =
  (let* components := getComponents this in
   let* s' := each components (every_iteratee n components fn) s in
   ret (Undefined, s')).
Proof. reflexivity. Qed.

Lemma every_below_NestedAt {V} (fn : Visitor V) c a kids s :
  every_below fn (NestedAt c a kids) s = every_level fn (every_below fn) a kids 0 s.
Proof. reflexivity. Qed.

Section Invariant.
Context {V : Type} (inv : World -> Prop) (fn : Visitor V).

Lemma every_level_keeps (below : Shape -> V -> M V) a kids :
  (forall t, t ∈ kids -> forall a' index s w out w',
     inv w -> fn (Ref (at_loc t)) (Ref a') index s w = Returns out w' -> inv w') ->
  (forall t, t ∈ kids -> forall s w s' w',
     inv w -> below t s w = Returns s' w' -> inv w') ->
  forall index s w s' w',
    inv w -> every_level fn below a kids index s w = Returns s' w' -> inv w'.
Proof.
  induction kids as [| t rest IH]; intros Hvisit Hbelow index s w s' w' Hw Hrun.
  - by injection Hrun as <- <-.
  - assert (Hhead : t ∈ t :: rest) by (apply elem_of_cons; by left).
    assert (Htail : forall t', t' ∈ rest -> t' ∈ t :: rest)
      by (intros t' Ht'; apply elem_of_cons; by right).
    cbn [every_level] in Hrun. unfold bind in Hrun.
    destruct (fn (Ref (at_loc t)) (Ref a) index s w) as [[r s1] w1 | |] eqn:Hfn;
      [| done | done].
    pose proof (Hvisit t Hhead _ _ _ _ _ _ Hw Hfn) as Hw1.
    destruct (is_false r); [by injection Hrun as <- <- |].
    destruct (below t s1 w1) as [s2 w2 | |] eqn:Hb; [| done | done].
    pose proof (Hbelow t Hhead _ _ _ _ Hw1 Hb) as Hw2.
    apply (IH (fun t' Ht' => Hvisit t' (Htail t' Ht'))
              (fun t' Ht' => Hbelow t' (Htail t' Ht')) _ s2 w2 s' w' Hw2 Hrun).
Qed.

(** The traversal of a shape keeps what the visitor keeps. *)
Lemma every_below_keeps :
  forall n t,
    depth t < n ->
    keeps_on inv (locs t) fn ->
    forall s w s' w', inv w -> every_below fn t s w = Returns s' w' -> inv w'.
Proof.
  induction n as [| n IHn]; intros t Hdepth Hkeeps s w s' w' Hw Hrun; [lia |].
  destruct t as [c | c a kids]; [by injection Hrun as <- <- |].
  rewrite every_below_NestedAt in Hrun.
  assert (Hsub : forall t c0, t ∈ kids -> c0 ∈ locs t -> c0 ∈ locs (NestedAt c a kids)).
  { intros t c0 Ht Hc0. simpl. right. apply list_elem_of_In, in_flat_map. exists t.
    split; by apply list_elem_of_In. }
  eapply (every_level_keeps (every_below fn) a kids); [| | exact Hw | exact Hrun].
  - intros t Ht a' index s0 w0 out w0' Hw0 Hfn.
    eapply Hkeeps; [| exact Hw0 | exact Hfn]. apply (Hsub t); [done |].
    apply at_loc_in_locs.
  - intros t Ht s0 w0 s0' w0' Hw0 Hb.
    eapply (IHn t); [by eapply depth_kid | | exact Hw0 | exact Hb].
    intros c0 Hc0. apply Hkeeps. by apply (Hsub t).
Qed.

(** [everyComponent] is the traversal of the shape. *)
Lemma everyComponent_shape :
  forall fuel c a kids,
    depth (NestedAt c a kids) < fuel ->
    (forall w, inv w -> represents w (NestedAt c a kids) = true) ->
    keeps_on inv (flat_map locs kids) fn ->
    forall s w, inv w ->
      everyComponent fuel c fn s w =
      (let* s' := every_below fn (NestedAt c a kids) s in ret (Undefined, s')) w.
Proof.
  induction fuel as [| n IHfuel]; intros c a kids Hdepth Hrep Hkeeps s w Hw; [lia |].
  rewrite everyComponent_S, every_below_NestedAt.
  rewrite (bind_Returns _ _ w a w) by (eapply getComponents_represents; eauto).
  enough (Hgen : forall rest prefix s w, kids = prefix ++ rest -> inv w ->
    arrayEach (every_iteratee n a fn) a (length prefix) (length rest) s w =
    every_level fn (every_below fn) a rest (length prefix) s w).
  { pose proof (Hgen kids [] s w eq_refl Hw) as Hrun. cbn [length] in Hrun.
    destruct (represents_NestedAt _ _ _ _ (Hrep w Hw)) as [Harr _].
    unfold each. rewrite !bind_bind.
    rewrite (bind_Returns _ _ w (List.map at_loc kids) w) by (unfold array; by rewrite Harr).
    rewrite length_map. unfold bind at 1 2. by rewrite Hrun. }
  clear s w Hw. induction rest as [| t rest IH]; intros prefix s w Hsplit Hw; [reflexivity |].
  cbn [length arrayEach every_level].
  destruct (represents_NestedAt _ _ _ _ (Hrep w Hw)) as [Harr _].
  rewrite (bind_Returns _ _ w (List.map at_loc kids) w) by (unfold array; by rewrite Harr).
  assert (Hin : t ∈ kids) by (rewrite Hsplit; set_solver).
  assert (Ht : List.map at_loc kids !! length prefix = Some (at_loc t)).
  { rewrite Hsplit, List.map_app. simpl.
    rewrite <- (length_map at_loc prefix). by rewrite list_lookup_middle. }
  rewrite Ht. cbv beta zeta iota.
  assert (Hregion : forall c0, c0 ∈ locs t -> c0 ∈ flat_map locs kids).
  { intros c0 Hc0. apply list_elem_of_In, in_flat_map. exists t.
    split; by apply list_elem_of_In. }
  assert (Hnext : forall s2 w2, inv w2 ->
    arrayEach (every_iteratee n a fn) a (S (length prefix)) (length rest) s2 w2 =
    every_level fn (every_below fn) a rest (S (length prefix)) s2 w2).
  { intros s2 w2 Hw2. specialize (IH (prefix ++ [t]) s2 w2).
    rewrite length_app in IH. simpl in IH.
    replace (length prefix + 1) with (S (length prefix)) in IH by lia.
    apply IH; [rewrite Hsplit, <- app_assoc; reflexivity | exact Hw2]. }
  unfold every_iteratee at 1. unfold bind.
  destruct (fn (Ref (at_loc t)) (Ref a) (length prefix) s w) as [[r s1] w1 | |] eqn:Hfn;
    [| done | done].
  assert (Hw1 : inv w1).
  { eapply Hkeeps; [apply Hregion, at_loc_in_locs | exact Hw | exact Hfn]. }
  destruct (is_false r) eqn:Hr; [reflexivity |].
  assert (Hrept : forall w2, inv w2 -> represents w2 t = true).
  { intros w2 Hw2. destruct (represents_NestedAt _ _ _ _ (Hrep w2 Hw2)) as [_ Hkids].
    rewrite Forall_forall in Hkids. by apply Hkids. }
  rewrite (has_everyComponent_represents w1 t (Hrept w1 Hw1)).
  destruct t as [c' | c' a' kids'].
  - unfold ret at 1 2. cbn [is_false]. apply Hnext. exact Hw1.
  - cbn [at_loc] in *.
    rewrite (IHfuel c' a' kids') by
      (first [ by eapply depth_kid | exact Hrept | exact Hw1
             | intros c0 Hc0; apply Hkeeps, Hregion; simpl; right; exact Hc0 ]).
    unfold bind.
    destruct (every_below fn (NestedAt c' a' kids') s1 w1) as [s2 w2 | |] eqn:Hbelow;
      [| done | done].
    unfold ret. cbn [is_false]. apply Hnext.
    eapply (every_below_keeps n (NestedAt c' a' kids')); [| | exact Hw1 | exact Hbelow].
    + by eapply depth_kid.
    + intros c0 Hc0. apply Hkeeps, Hregion. exact Hc0.
Qed.

End Invariant.

(** C6.  For a visitor that does not change the collection it is
    taken through: [eachComponent] visits the direct children in
    collection order, each with its index, and stops right after the
    first visit that returns [false] (any other value, [undefined]
    included, lets it go on); [everyComponent], given fuel for the depth
    of the tree, visits depth first and parent first, goes below a
    NestedComponent child only when its visit did not return [false],
    and a [false] returned below a child ends the loop over that child's
    level only, the loop over the enclosing level going on with the next
    sibling.  Both return [undefined]. *)
Theorem traversals_stop_on_false :
  (forall (V : Type) (fn : value -> nat -> V -> M (value * V)) this o a l s w,
     objects w !! this = Some o -> components o = Some a -> arrays w !! a = Some l ->
     keeps_array a l fn ->
     eachComponent this fn s w =
     (let* s' := each_until_false fn l 0 s in ret (Undefined, s')) w)
  /\ (forall (V : Type) (fn : Visitor V) fuel c a kids s w,
        represents w (NestedAt c a kids) = true ->
        depth (NestedAt c a kids) < fuel ->
        keeps_on (fun w => represents w (NestedAt c a kids) = true) (flat_map locs kids) fn ->
        everyComponent fuel c fn s w =
        (let* s' := every_below fn (NestedAt c a kids) s in ret (Undefined, s')) w).
Proof.
  split.
  - intros V fn this o a l s w. apply eachComponent_each.
  - intros V fn fuel c a kids s w Hrep Hdepth Hkeeps.
    by apply (everyComponent_shape (fun w => represents w (NestedAt c a kids) = true)).
Qed.

(** Visitors that leave the store alone keep everything. *)
Lemma pure_each_keeps_array {V} (fn : value -> nat -> V -> value * V) a l :
  keeps_array a l (pure_each fn).
Proof. intros component index s w out w' Ha [= _ <-]. exact Ha. Qed.

Lemma pure_every_keeps_on {V} (fn : value -> value -> nat -> V -> value * V) inv region :
  keeps_on inv region (pure_every fn).
Proof. intros c _ a index s w out w' Hw [= _ <-]. exact Hw. Qed.

(** *** Lookup *)

Lemma every_below_idle {V} (fn : Visitor V) w :
  forall n t, depth t < n ->
  idle_on w (match t with LeafAt _ => [] | NestedAt _ _ kids => flat_map locs kids end) fn ->
  forall s, every_below fn t s w = Returns s w.
Proof.
  induction n as [| n IHn]; intros t Hdepth Hidle s; [lia |].
  destruct t as [c | c a kids]; [reflexivity |].
  rewrite every_below_NestedAt. generalize 0.
  assert (Hkids : Forall (fun t => depth t < n /\ idle_on w (locs t) fn) kids).
  { apply Forall_forall. intros t Ht. split; [by eapply depth_kid |].
    intros c0 Hc0. apply Hidle.
    apply list_elem_of_In, in_flat_map. exists t. split; by apply list_elem_of_In. }
  clear Hdepth Hidle. revert s.
  induction Hkids as [| t rest [Hd Hi] _ IH]; intros s index; [reflexivity |].
  cbn [every_level].
  rewrite (bind_Returns _ _ w _ w (Hi (at_loc t) (at_loc_in_locs t) a index s)).
  cbn [is_false].
  rewrite (bind_Returns _ _ w s w); [apply IH |].
  apply (IHn t Hd). intros c0 Hc0. apply Hi.
  destruct t as [c' | c' a' kids']; [by apply elem_of_nil in Hc0 |].
  simpl. apply elem_of_cons. by right.
Qed.

Section Miss.
Context `{External} (w : World) (this a : loc) (kids : list Shape) (fuel : nat).
Hypothesis shape : represents w (NestedAt this a kids) = true.
Hypothesis enough : depth (NestedAt this a kids) < fuel.

Lemma everyComponent_idle {V} (fn : Visitor V) s :
  idle_on w (flat_map locs kids) fn ->
  everyComponent fuel this fn s w = Returns (Undefined, s) w.
Proof.
  intros Hidle.
  rewrite (everyComponent_shape (fun w' => w' = w) fn fuel this a kids);
    [| exact enough | by intros ? -> | | reflexivity].
  - rewrite (bind_Returns _ _ w s w); [reflexivity |].
    by apply (every_below_idle fn w (S (depth (NestedAt this a kids)))); [lia |].
  - intros c Hc a' index s' w1 out w2 -> Hrun. rewrite (Hidle c Hc) in Hrun.
    by injection Hrun.
Qed.

(** What the visitor of a lookup does on a component that does not
    match. *)
Lemma lookup_idle (matches : Instance -> bool) (fn : option Callback) :
  Forall (fun c => exists o, objects w !! c = Some o /\ matches o = false)
    (flat_map locs kids) ->
  idle_on w (flat_map locs kids)
    (fun component components _ comp =>
       let* o := deref component in
       if matches o then
         call fn component components ;;
         ret (Bool false, component)
       else ret (Undefined, comp)).
Proof.
  intros Hmiss c Hc a' index comp. rewrite Forall_forall in Hmiss.
  destruct (Hmiss c Hc) as (o & Ho & Hno).
  rewrite (bind_Returns _ _ w o w) by (unfold deref, instance; by rewrite Ho).
  by rewrite Hno.
Qed.

(** A lookup that misses returns [null], and the callback is not
    called. *)
Lemma getComponent_miss key fn :
  Forall (fun c => exists o, objects w !! c = Some o /\
                     String.eqb (Schema.key (component o)) key = false)
    (flat_map locs kids) ->
  getComponent fuel this key fn w = Returns Null w.
Proof.
  intros Hmiss. unfold getComponent.
  rewrite (bind_Returns _ _ w (Undefined, Null) w); [reflexivity |].
  apply everyComponent_idle.
  apply (lookup_idle (fun o => String.eqb (Schema.key (component o)) key) fn Hmiss).
Qed.

Lemma getComponentById_miss i fn :
  Forall (fun c => exists o, objects w !! c = Some o /\ String.eqb (id o) i = false)
    (flat_map locs kids) ->
  getComponentById fuel this i fn w = Returns Null w.
Proof.
  intros Hmiss. unfold getComponentById.
  rewrite (bind_Returns _ _ w (Undefined, Null) w); [reflexivity |].
  apply everyComponent_idle.
  apply (lookup_idle (fun o => String.eqb (id o) i) fn Hmiss).
Qed.

(** Removal on a miss: nothing is removed, the callback is called with
    [null] alone, and [null] is returned. *)
Lemma removeComponentByKey_miss key fn :
  Forall (fun c => exists o, objects w !! c = Some o /\
                     String.eqb (Schema.key (component o)) key = false)
    (flat_map locs kids) ->
  removeComponentByKey fuel this key fn w = (call_n fn [Null] ;; ret Null) w.
Proof.
  intros Hmiss. unfold removeComponentByKey.
  by rewrite (bind_Returns _ _ w Null w) by (by apply getComponent_miss).
Qed.

Lemma removeComponentById_miss i fn :
  Forall (fun c => exists o, objects w !! c = Some o /\ String.eqb (id o) i = false)
    (flat_map locs kids) ->
  removeComponentById fuel this i fn w = (call_n fn [Null] ;; ret Null) w.
Proof.
  intros Hmiss. unfold removeComponentById.
  by rewrite (bind_Returns _ _ w Null w) by (by apply getComponentById_miss).
Qed.

End Miss.

(** Removal on a hit: whenever the lookup finds a component, the value
    returned is [undefined]. *)
Lemma removeComponentByKey_hit `{External} fuel this key fn w c w' :
  getComponent fuel this key (Some (fun component components =>
      match component with
      | Ref c =>
          removeComponent fuel this c components ;;
          call_n fn [component; components]
      | _ => throw
      end)) w = Returns (Ref c) w' ->
  removeComponentByKey fuel this key fn w = Returns Undefined w'.
Proof. intros Hfound. unfold removeComponentByKey. by rewrite (bind_Returns _ _ _ _ _ Hfound). Qed.

(** *** [createComponent] *)

Lemma findIndex_found {A} (p : A -> bool) l1 e l2 :
  Forall (fun x => p x = false) l1 -> p e = true ->
  findIndex p (l1 ++ e :: l2) = Some (length l1).
Proof.
  induction 1 as [| x l1 Hx _ IH]; intros He; simpl.
  - by rewrite He.
  - rewrite Hx, IH by done. reflexivity.
Qed.

Lemma findIndex_none {A} (p : A -> bool) l :
  Forall (fun x => p x = false) l -> findIndex p l = None.
Proof.
  induction 1 as [| x l Hx _ IH]; simpl; [done |]. by rewrite Hx, IH.
Qed.

Lemma splice_at {A} (l1 l2 : list A) x :
  splice (length l1) x (l1 ++ l2) = l1 ++ x :: l2.
Proof. unfold splice. by rewrite take_app_length, drop_app_length. Qed.

Lemma write_array_Returns w a l l' :
  arrays w !! a = Some l -> write_array a l' w = Returns tt (with_arrays <[a := l']> w).
Proof. intros Ha. unfold write_array, bind, array. by rewrite Ha. Qed.

(** C8.  Once the child is made and built, and provided that left the
    container's collection as it was, [createComponent] returns the child
    and: when [schema.internal] is set, changes nothing more, so the
    collection is unchanged; otherwise writes the collection with the
    new child added once, immediately before the first entry whose [id]
    is [before.id] when there is one, at the end when there is none or
    when no [before] is given. *)
Theorem createComponent_collection `{External} (this : loc) (component : Schema.t)
    (options data : value) (before : option BeforeRef)
    (w w1 : World) (comp : loc) (o : Instance) (a : loc) (l : list loc) :
  instantiate this component options data w = Returns comp w1 ->
  objects w1 !! this = Some o -> components o = Some a ->
  arrays w !! a = Some l -> arrays w1 !! a = Some l ->
  (Schema.internal component = true ->
     createComponent this component options data before w = Returns comp w1
     /\ arrays w1 !! a = arrays w !! a)
  /\ (Schema.internal component = false ->
      exists l',
        createComponent this component options data before w =
          Returns comp (with_arrays <[a := l']> w1)
        /\ match before with
           | None => l' = l ++ [comp]
           | Some b =>
               (forall l1 e l2,
                  l = l1 ++ e :: l2 ->
                  is_Some (before_id b) -> id_of w1 e = before_id b ->
                  Forall (fun x => id_of w1 x <> before_id b) l1 ->
                  l' = l1 ++ comp :: e :: l2)
               /\ (before_id b = None \/ Forall (fun x => id_of w1 x <> before_id b) l ->
                   l' = l ++ [comp])
           end).
Proof.
  intros Hmade Ho Hc Hbefore Hafter. unfold createComponent.
  rewrite (bind_Returns _ _ _ _ _ Hmade). split; intros Hinternal; rewrite Hinternal.
  - split; [reflexivity | congruence].
  - exists (match before with
            | Some b =>
                match findIndex_by_id w1 (before_id b) l with
                | Some index => splice index comp l
                | None => push comp l
                end
            | None => push comp l
            end).
    split.
    { rewrite (bind_Returns _ _ w1 a w1)
        by (unfold getComponents, bind, instance; by rewrite Ho, Hc).
      rewrite (bind_Returns _ _ w1 l w1) by (unfold array; by rewrite Hafter).
      destruct before as [b |]; unfold bind, gets; cbv beta iota.
      - destruct (findIndex_by_id w1 (before_id b) l);
          by rewrite (write_array_Returns _ _ _ _ Hafter).
      - by rewrite (write_array_Returns _ _ _ _ Hafter). }
    destruct before as [b |]; [| reflexivity].
    unfold findIndex_by_id. split.
    + intros l1 e l2 Hl Hsome Hid Hl1. subst l.
      rewrite findIndex_found; [apply splice_at | |].
      * eapply Forall_impl; [exact Hl1 |]. intros x Hx. simpl in Hx.
        apply bool_decide_eq_false. tauto.
      * apply bool_decide_eq_true. auto.
    + intros Hnone. rewrite findIndex_none; [reflexivity |].
      destruct Hnone as [Hnone | Hnone].
      * apply Forall_forall. intros x _. apply bool_decide_eq_false.
        rewrite Hnone. intros [[? ?] _]. done.
      * eapply Forall_impl; [exact Hnone |]. intros x Hx. simpl in Hx.
        apply bool_decide_eq_false. tauto.
Qed.


(** *** [addComponent] *)

(** C3, as amended.  [addComponent] applies [setHidden] to the new
    child only when the child is attached: with [noAdd] set it returns
    what [createComponent] returns, and when the child has no element it
    logs a warning and returns the child, in both cases without calling
    [setHidden]; when [noAdd] is not set and the child has an element, the
    element is inserted before [before] or appended, and [setHidden] is
    applied to the child last. *)
Theorem addComponent_setHidden_when_attached `{External} (fuel : nat) (this : loc)
    (component : Schema.t) (element : option Element) (data : value)
    (before : option BeforeHandle) (noAdd : value) (w : World) (t : Instance) :
  objects w !! this = Some t ->
  let created :=
    createComponent this component (Store.options t) (Js.or data (Store.data t))
      (match before with Some b => before_component b | None => None end) in
  (truthy noAdd = true ->
     addComponent fuel this component element data before noAdd w = created w)
  /\ (truthy noAdd = false ->
      forall comp w1 container w2 c,
        created w = Returns comp w1 ->
        hook_addComponent
          (match element with Some e => Some e | None => Store.element t end)
          comp this w1 = Returns container w2 ->
        objects w2 !! comp = Some c ->
        (Store.element c = None ->
           addComponent fuel this component element data before noAdd w =
           Returns comp (with_effect (Warn (Schema.key component)) w2))
        /\ (forall compElement e,
              Store.element c = Some compElement -> container = Some e ->
              addComponent fuel this component element data before noAdd w =
              (match before with
               | Some b => insertBefore e compElement (node b)
               | None => appendChild e compElement
               end ;;
               setHidden fuel this comp ;;
               ret comp) w2)).
Proof.
  intros Ht created. unfold addComponent.
  rewrite (bind_Returns _ _ w t w) by (unfold instance; by rewrite Ht).
  fold created. split.
  - intros HnoAdd. unfold bind. destruct (created w) as [comp w1 | |]; [| done | done].
    by rewrite HnoAdd.
  - intros HnoAdd comp w1 container w2 c Hcreated Hhook Hc.
    rewrite (bind_Returns _ _ _ _ _ Hcreated), HnoAdd.
    rewrite (bind_Returns _ _ _ _ _ Hhook).
    rewrite (bind_Returns _ _ w2 c w2) by (unfold instance; by rewrite Hc).
    split.
    + intros ->. reflexivity.
    + intros compElement e -> ->. reflexivity.
Qed.

(** *** [setHidden] *)

(** C9.  [setHidden] takes the first rule that matches: (1) a child
    with a non-empty [components] array gets [hideComponents] with the
    container's [hidden] list, and nothing else is done to it; (2)
    otherwise a child whose schema says [hidden] is forced invisible:
    [visible = false] is assigned to it; (3) otherwise a child whose key
    is in the container's [hidden] list is forced invisible in the same
    way; (4) otherwise a child whose [conditionallyVisible()] returns
    [false] is; (5) otherwise nothing is assigned, and the child is left
    as [conditionallyVisible()] left it.  The assignment runs the setter
    of the base class, which is not part of this class: that call, with
    [false], is all [setHidden] does in rules 2 to 4. *)
Theorem setHidden_first_match `{External} (n : nat) (this component : loc)
    (w : World) (c t : Instance) :
  objects w !! component = Some c ->
  objects w !! this = Some t ->
  (forall a k ks,
     components c = Some a -> arrays w !! a = Some (k :: ks) ->
     setHidden (S n) this component w = hideComponents n component (hidden t) w)
  /\ (components c = None \/
      (exists a, components c = Some a /\ arrays w !! a = Some []) ->
      (Schema.hidden (Store.component c) = true ->
         setHidden (S n) this component w = assign_visible component false w)
      /\ (Schema.hidden (Store.component c) = false ->
          (includes_key (hidden t) (Schema.key (Store.component c)) = true ->
             setHidden (S n) this component w = assign_visible component false w)
          /\ (includes_key (hidden t) (Schema.key (Store.component c)) = false ->
              forall shown w1,
                conditionallyVisible component w = Returns shown w1 ->
                setHidden (S n) this component w =
                if shown then Returns tt w1
                else assign_visible component false w1))).
Proof.
  intros Hc Ht. split.
  - intros a k ks Ha Harr. cbn [setHidden].
    rewrite (bind_Returns _ _ w c w) by (unfold instance; by rewrite Hc).
    rewrite (bind_Returns _ _ w true w)
      by (unfold has_children, bind, array; by rewrite Ha, Harr).
    rewrite (bind_Returns _ _ w t w) by (unfold instance; by rewrite Ht).
    reflexivity.
  - intros Hleaf.
    assert (Hno : has_children c w = Returns false w).
    { unfold has_children. destruct Hleaf as [-> | [a [-> Harr]]]; [reflexivity |].
      unfold bind, array. by rewrite Harr. }
    assert (Hstep : setHidden (S n) this component w =
              (if Schema.hidden (Store.component c) then assign_visible component false
               else
                 let* t := instance this in
                 if includes_key (hidden t) (Schema.key (Store.component c)) then
                   assign_visible component false
                 else
                   let* shown := conditionallyVisible component in
                   if negb shown then assign_visible component false
                   else ret tt) w).
    { cbn [setHidden].
      rewrite (bind_Returns _ _ w c w) by (unfold instance; by rewrite Hc).
      by rewrite (bind_Returns _ _ w false w Hno). }
    rewrite Hstep. clear Hstep.
    split; [by intros -> |]. intros ->.
    rewrite (bind_Returns _ _ w t w) by (unfold instance; by rewrite Ht).
    split; [by intros -> |]. intros -> shown w1 Hshown.
    rewrite (bind_Returns _ _ _ _ _ Hshown). by destruct shown.
Qed.

End StoreFacts.

Section StoreExamples.
Import Js Store.

(** C5, on the input where it fails.  In the form with the fields a, b
    and c, [removeComponentByKey("b", record)] and
    [removeComponentById("f2", record)] find the field, destroy it,
    detach it, drop it from the collection and call the callback with the
    field and the collection, and then return [undefined], not
    [null]. *)
Theorem removeComponentByKey_found_returns_undefined :
  let by_key :=
    removeComponentByKey (H := Fixture.collaborators []) 2 0 "b"
      (Some Fixture.record) Fixture.flat in
  let by_id :=
    removeComponentById (H := Fixture.collaborators []) 2 0 "f2"
      (Some Fixture.record) Fixture.flat in
  returned by_key = Some Undefined
  /\ array_after by_key 10 = Some [1; 3]
  /\ effects_after by_key = [Destroy 2; RemoveChildFrom 2 100; Called [Ref 2; Ref 10]]
  /\ returned by_id = Some Undefined
  /\ array_after by_id 10 = Some [1; 3]
  /\ effects_after by_id = [Destroy 2; RemoveChildFrom 2 100; Called [Ref 2; Ref 10]].
Proof. vm_compute. repeat split; reflexivity. Qed.

(** C6 on the flat form (stop at b; never stop) and on the deep form
    (a [false] on the field inside the panel does not keep the field
    after the panel from being visited; a [false] on the panel itself
    ends the loop). *)
Lemma traversals_witness :
  eachComponent 0 (pure_each (fun c _ seen => Fixture.listing [2] c seen)) [] Fixture.flat =
    Returns (Undefined, [Ref 1; Ref 2]) Fixture.flat
  /\ eachComponent 0 (pure_each (fun c _ seen => Fixture.listing [] c seen)) [] Fixture.flat =
    Returns (Undefined, [Ref 1; Ref 2; Ref 3]) Fixture.flat
  /\ everyComponent 3 0 (pure_every (fun c _ _ seen => Fixture.listing [3] c seen)) []
       Fixture.deep =
    Returns (Undefined, [Ref 1; Ref 3; Ref 2]) Fixture.deep
  /\ everyComponent 3 0 (pure_every (fun c _ _ seen => Fixture.listing [1] c seen)) []
       Fixture.deep =
    Returns (Undefined, [Ref 1]) Fixture.deep.
Proof.
  destruct traversals_stop_on_false as [Heach Hevery].
  split; [| split; [| split]].
  - rewrite (Heach _ _ 0 (Fixture.container "form" "form" 10 ["b"]) 10 [1; 2; 3]);
      [| vm_compute; reflexivity .. | apply pure_each_keeps_array].
    vm_compute. reflexivity.
  - rewrite (Heach _ _ 0 (Fixture.container "form" "form" 10 ["b"]) 10 [1; 2; 3]);
      [| vm_compute; reflexivity .. | apply pure_each_keeps_array].
    vm_compute. reflexivity.
  - rewrite (Hevery _ _ 3 0 10 [NestedAt 1 11 [LeafAt 3]; LeafAt 2]);
      [| vm_compute; reflexivity | vm_compute; lia | apply pure_every_keeps_on].
    vm_compute. reflexivity.
  - rewrite (Hevery _ _ 3 0 10 [NestedAt 1 11 [LeafAt 3]; LeafAt 2]);
      [| vm_compute; reflexivity | vm_compute; lia | apply pure_every_keeps_on].
    vm_compute. reflexivity.
Defined.

(** C8 on the flat form: before the field f2, with a [before] that is
    not in the collection, and with an internal schema. *)
Lemma createComponent_collection_witness :
  array_after
    (createComponent (H := Fixture.collaborators []) 0 (Fixture.schema "n" false false)
       Undefined Undefined (Some {| before_id := Some "f2" |}) Fixture.flat) 10 =
    Some [1; 4; 2; 3]
  /\ array_after
    (createComponent (H := Fixture.collaborators []) 0 (Fixture.schema "n" false false)
       Undefined Undefined (Some {| before_id := Some "gone" |}) Fixture.flat) 10 =
    Some [1; 2; 3; 4]
  /\ array_after
    (createComponent (H := Fixture.collaborators []) 0 (Fixture.schema "n" false true)
       Undefined Undefined None Fixture.flat) 10 =
    Some [1; 2; 3].
Proof.
  pose (ext := Fixture.collaborators []).
  pose (form := Fixture.container "form" "form" 10 ["b"]).
  split; [| split].
  - destruct (instantiate (H := ext) 0 (Fixture.schema "n" false false)
                Undefined Undefined Fixture.flat) as [comp w1 | |] eqn:Hmade;
      vm_compute in Hmade; try discriminate.
    injection Hmade as Hcomp Hw1.
    pose proof (createComponent_collection (H := ext) 0 (Fixture.schema "n" false false)
                  Undefined Undefined (Some {| before_id := Some "f2" |})
                  Fixture.flat w1 comp form 10 [1; 2; 3]) as H.
    destruct H as [_ H].
    + subst comp w1. vm_compute. reflexivity.
    + subst w1. vm_compute. reflexivity.
    + reflexivity.
    + vm_compute. reflexivity.
    + subst w1. vm_compute. reflexivity.
    + destruct (H eq_refl) as (l' & Hrun & Hfound & _).
      fold ext. rewrite Hrun. cbn [array_after with_arrays arrays].
      rewrite lookup_insert_eq. f_equal. subst comp.
      apply (Hfound [1] 2 [3] eq_refl).
      * eexists; reflexivity.
      * subst w1. vm_compute. reflexivity.
      * subst w1. repeat constructor. intros E. vm_compute in E. discriminate.
  - destruct (instantiate (H := ext) 0 (Fixture.schema "n" false false)
                Undefined Undefined Fixture.flat) as [comp w1 | |] eqn:Hmade;
      vm_compute in Hmade; try discriminate.
    injection Hmade as Hcomp Hw1.
    pose proof (createComponent_collection (H := ext) 0 (Fixture.schema "n" false false)
                  Undefined Undefined (Some {| before_id := Some "gone" |})
                  Fixture.flat w1 comp form 10 [1; 2; 3]) as H.
    destruct H as [_ H].
    + subst comp w1. vm_compute. reflexivity.
    + subst w1. vm_compute. reflexivity.
    + reflexivity.
    + vm_compute. reflexivity.
    + subst w1. vm_compute. reflexivity.
    + destruct (H eq_refl) as (l' & Hrun & _ & Hmissing).
      fold ext. rewrite Hrun. cbn [array_after with_arrays arrays].
      rewrite lookup_insert_eq. f_equal. subst comp.
      apply Hmissing. right. subst w1.
      repeat constructor; intros E; vm_compute in E; discriminate.
  - destruct (instantiate (H := ext) 0 (Fixture.schema "n" false true)
                Undefined Undefined Fixture.flat) as [comp w1 | |] eqn:Hmade;
      vm_compute in Hmade; try discriminate.
    injection Hmade as Hcomp Hw1.
    pose proof (createComponent_collection (H := ext) 0 (Fixture.schema "n" false true)
                  Undefined Undefined None
                  Fixture.flat w1 comp form 10 [1; 2; 3]) as H.
    destruct H as [H _].
    + subst comp w1. vm_compute. reflexivity.
    + subst w1. vm_compute. reflexivity.
    + reflexivity.
    + vm_compute. reflexivity.
    + subst w1. vm_compute. reflexivity.
    + destruct (H eq_refl) as [Hrun Hsame].
      fold ext. rewrite Hrun. cbn [array_after]. rewrite Hsame.
      vm_compute. reflexivity.
Defined.

(** C3 as stated fails: a child whose schema says [hidden] is still
    visible when [addComponent] returns with [noAdd] set, and when the
    child has no element; [setHidden] would have assigned
    [visible = false] to it, which the setter of the fixtures keeps. *)
Lemma addComponent_noAdd_skips_setHidden :
  let skipped :=
    addComponent (H := Fixture.collaborators []) 2 0 (Fixture.schema "secret" true false)
      None Undefined None (Bool true) Fixture.flat in
  let bare :=
    addComponent (H := Fixture.collaborators []) 2 0 (Fixture.schema "bare" true false)
      None Undefined None Undefined Fixture.flat in
  returned skipped = Some 4
  /\ visible_after skipped 4 = Some true
  /\ visible_after
       (bind (fun _ => skipped)
          (fun comp => setHidden (H := Fixture.collaborators []) 2 0 comp) Fixture.flat) 4 =
     Some false
  /\ returned bare = Some 4
  /\ visible_after bare 4 = Some true
  /\ effects_after bare = [Warn "bare"].
Proof. vm_compute. repeat split; reflexivity. Qed.

(** C3 as amended: attached, the hidden child is invisible on return;
    with [noAdd], [addComponent] is [createComponent]. *)
Lemma addComponent_attached_witness :
  visible_after
    (addComponent (H := Fixture.collaborators []) 2 0 (Fixture.schema "secret" true false)
       None Undefined None Undefined Fixture.flat) 4 = Some false
  /\ addComponent (H := Fixture.collaborators []) 2 0 (Fixture.schema "secret" true false)
       None Undefined None (Bool true) Fixture.flat =
     createComponent (H := Fixture.collaborators []) 0 (Fixture.schema "secret" true false)
       Undefined Undefined None Fixture.flat.
Proof.
  pose (ext := Fixture.collaborators []).
  pose proof (addComponent_setHidden_when_attached (H := ext) 2 0
                (Fixture.schema "secret" true false) None Undefined None) as H.
  split.
  - destruct (H Undefined Fixture.flat (Fixture.container "form" "form" 10 ["b"]) eq_refl)
      as [_ Hattach].
    assert (Hcreated : exists w1 c,
              createComponent (H := ext) 0 (Fixture.schema "secret" true false)
                Undefined Undefined None Fixture.flat = Returns 4 w1
              /\ objects w1 !! 4 = Some c /\ element c = Some 7).
    { eexists _, _. split; [vm_compute; reflexivity |].
      split; vm_compute; reflexivity. }
    destruct Hcreated as (w1 & c & Hw1 & Hc & He).
    destruct (Hattach eq_refl 4 w1 (Some 100) w1 c Hw1 eq_refl Hc) as [_ Hdone].
    fold ext. rewrite (Hdone 7 100 He eq_refl).
    clear -Hw1. vm_compute in Hw1. injection Hw1 as <-. vm_compute. reflexivity.
  - destruct (H (Bool true) Fixture.flat (Fixture.container "form" "form" 10 ["b"]) eq_refl)
      as [Hskip _].
    exact (Hskip eq_refl).
Defined.

(** C9 on the flat form, whose [hidden] list is [b]: b is assigned
    [visible = false] (rule 3), a is left alone (rule 5), c is assigned
    [visible = false] when its own condition fails (rule 4); on the deep
    form the panel is handed to [hideComponents] (rule 1). *)
Lemma setHidden_first_match_witness :
  setHidden (H := Fixture.collaborators []) 1 0 2 Fixture.flat =
    assign_visible (External := Fixture.collaborators []) 2 false Fixture.flat
  /\ setHidden (H := Fixture.collaborators []) 1 0 1 Fixture.flat = Returns tt Fixture.flat
  /\ setHidden (H := Fixture.collaborators [3]) 1 0 3 Fixture.flat =
     assign_visible (External := Fixture.collaborators [3]) 3 false Fixture.flat
  /\ setHidden (H := Fixture.collaborators []) 2 0 1 Fixture.deep =
     hideComponents (H := Fixture.collaborators []) 1 1 (Some []) Fixture.deep.
Proof.
  split; [| split; [| split]].
  - destruct (setHidden_first_match (H := Fixture.collaborators []) 0 0 2 Fixture.flat
                (Fixture.field "f2" "b" (Some 2))
                (Fixture.container "form" "form" 10 ["b"]) eq_refl eq_refl)
      as [_ Hleaf].
    destruct (Hleaf (or_introl eq_refl)) as [_ Hshown].
    destruct (Hshown eq_refl) as [Hlisted _].
    exact (Hlisted ltac:(vm_compute; reflexivity)).
  - destruct (setHidden_first_match (H := Fixture.collaborators []) 0 0 1 Fixture.flat
                (Fixture.field "f1" "a" (Some 1))
                (Fixture.container "form" "form" 10 ["b"]) eq_refl eq_refl)
      as [_ Hleaf].
    destruct (Hleaf (or_introl eq_refl)) as [_ Hshown].
    destruct (Hshown eq_refl) as [_ Hfree].
    exact (Hfree ltac:(vm_compute; reflexivity) true Fixture.flat eq_refl).
  - destruct (setHidden_first_match (H := Fixture.collaborators [3]) 0 0 3 Fixture.flat
                (Fixture.field "f3" "c" (Some 3))
                (Fixture.container "form" "form" 10 ["b"]) eq_refl eq_refl)
      as [_ Hleaf].
    destruct (Hleaf (or_introl eq_refl)) as [_ Hshown].
    destruct (Hshown eq_refl) as [_ Hfree].
    exact (Hfree ltac:(vm_compute; reflexivity) false Fixture.flat
             ltac:(vm_compute; reflexivity)).
  - destruct (setHidden_first_match (H := Fixture.collaborators []) 1 0 1 Fixture.deep
                (Fixture.container "p1" "panel" 11 [])
                (Fixture.container "form" "form" 10 []) eq_refl eq_refl)
      as [Hnested _].
    exact (Hnested 11 3 [] eq_refl eq_refl).
Defined.

End StoreExamples.

(** * Further facts about the tree model *)

Section WholeTree.
Import Js Tree.
Context {lodash : Lodash}.

(** [reduce] with an accumulating [||] calls every element and returns
    the disjunction. *)
Lemma reduce_or_all {A} (m : A -> M bool) (l : list A) (init : bool) (w : World) :
  reduce (fun acc x => let* r := m x in ret (r || acc)) l init w =
  let (rs, w') := invoke_all m l w in (existsb Datatypes.id rs || init, w').
Proof.
  revert init w. induction l as [| x rest IH]; intros init w; [reflexivity |].
  cbn [reduce invoke_all]. unfold bind.
  destruct (m x w) as [r w1]. unfold ret at 1. rewrite IH.
  destruct (invoke_all m rest w1) as [rs w2]. simpl.
  f_equal. destruct r, init, (existsb Datatypes.id rs); reflexivity.
Qed.

Lemma forEach_all {A R} (m : A -> M R) (l : list A) (w : World) :
  forEach (fun x => m x ;; ret tt) l w = (tt, snd (invoke_all m l w)).
Proof.
  revert w. induction l as [| x rest IH]; intros w; [reflexivity |].
  cbn [forEach invoke_all]. unfold bind.
  destruct (m x w) as [r w1]. unfold ret at 1. rewrite IH.
  by destruct (invoke_all m rest w1).
Qed.

Lemma walks_ask {X} (rel : X -> Event -> Prop) (answer : bool -> list Event -> Prop)
    (x : X) (i : Info) (c : Call) :
  (forall e, target e = id i -> call e = c -> rel x e) ->
  (forall e, answer (result e) [e]) ->
  walks rel answer [x] (ask i c).
Proof.
  intros Hrel Hans w. split; [reflexivity |]. eexists. split; [reflexivity |].
  split; [| exact (Hans {| target := id i; call := c; result := behaviour i c (log w) |})].
  constructor; [| constructor]. by apply Hrel.
Qed.

(** Calling [m] on every element of a list walks the elements one after
    the other. *)
Lemma invoke_all_walks {A X R} (rel : X -> Event -> Prop)
    (answer : R -> list Event -> Prop) (nodes : A -> list X) (m : A -> M R) (l : list A) :
  Forall (fun a => walks rel answer (nodes a) (m a)) l ->
  forall w,
    flagsStore (snd (invoke_all m l w)) = flagsStore w /\
    exists evss,
      log (snd (invoke_all m l w)) = log w ++ concat evss /\
      Forall2 (fun a evs => Forall2 rel (nodes a) evs) l evss /\
      Forall2 answer (fst (invoke_all m l w)) evss.
Proof.
  induction 1 as [| c rest Hc _ IH]; intros w.
  - split; [reflexivity |]. exists []. simpl. rewrite app_nil_r. repeat split; constructor.
  - cbn [invoke_all]. unfold bind.
    destruct (Hc w) as (Hf1 & evs & Hlog1 & Hmade & Hans).
    destruct (m c w) as [r w1]. cbn [fst snd] in *.
    destruct (IH w1) as (Hf2 & evss & Hlog2 & Hall & Hanss).
    destruct (invoke_all m rest w1) as [rs w2]. cbn [fst snd ret] in *.
    split; [congruence |]. exists (evs :: evss). simpl.
    rewrite Hlog2, Hlog1, <- app_assoc. repeat split; by constructor.
Qed.

Lemma Forall2_flat_map {A B C} (P : B -> C -> Prop) (f : A -> list B) l (zss : list (list C)) :
  Forall2 (fun x zs => Forall2 P (f x) zs) l zss ->
  Forall2 P (flat_map f l) (concat zss).
Proof.
  induction 1 as [| x zs l zss Hx _ IH]; simpl; [constructor |]. by apply Forall2_app.
Qed.

Lemma any_result_concat (rs : list bool) (evss : list (list Event)) :
  Forall2 any_result rs evss ->
  existsb Datatypes.id rs = existsb result (concat evss).
Proof.
  induction 1 as [| r xs rs xss -> _ IH]; simpl; [reflexivity |].
  by rewrite existsb_app, IH.
Qed.

Lemma all_results_concat (rs : list bool) (evss : list (list Event)) :
  Forall2 all_results rs evss ->
  forallb Datatypes.id rs = forallb result (concat evss).
Proof.
  induction 1 as [| r xs rs xss -> _ IH]; simpl; [reflexivity |].
  by rewrite forallb_app, IH.
Qed.

Lemma calculateValue_Nested_eq i components data flags w :
  calculateValue (Nested i components) data flags w =
  let (init, w0) := ask i (SuperCalculateValue data flags) w in
  let (rs, w') := invoke_all (fun comp => calculateValue comp data flags) components w0 in
  (existsb Datatypes.id rs || init, w').
Proof.
  cbn [calculateValue]. unfold bind at 1.
  destruct (ask i (SuperCalculateValue data flags) w) as [init w0]. apply reduce_or_all.
Qed.

Lemma isValid_Nested_eq i components data dirty w :
  isValid (Nested i components) data dirty w =
  let (init, w0) := ask i (SuperIsValid data dirty) w in
  let (rs, w') := invoke_all (fun comp => isValid comp data dirty) components w0 in
  (forallb Datatypes.id rs && init, w').
Proof.
  cbn [isValid]. unfold bind at 1.
  destruct (ask i (SuperIsValid data dirty) w) as [init w0]. apply reduce_and.
Qed.

Lemma checkConditions_Nested_eq i components data w :
  checkConditions (Nested i components) data w =
  let (_, w') := invoke_all (fun comp => checkConditions comp data) components w in
  ask i (SuperCheckConditions data) w'.
Proof.
  cbn [checkConditions]. unfold bind at 1.
  rewrite (forEach_all (fun comp => checkConditions comp data)).
  by destruct (invoke_all _ components w).
Qed.

(** X1.  [updateValue] on a tree asks the leaves of the tree, and only
    them, each once and in collection order, with the flags it was given;
    it returns the disjunction of their answers (so [false], without a
    call, for a tree that has no leaf), and writes to no flags
    object. *)
Theorem updateValue_asks_every_leaf (c : Component) (flags : Flags) :
  walks (fun i e => target e = id i /\ call e = UpdateValue flags) any_result
    (leaves c) (updateValue c flags).
Proof.
  induction c as [i | i components IH] using Component_ind'.
  - apply walks_ask; [done |]. intros e. unfold any_result. simpl. by rewrite orb_false_r.
  - intros w. cbn [updateValue leaves]. rewrite reduce_or_all.
    destruct (invoke_all_walks _ _ leaves (fun comp => updateValue comp flags) components IH w)
      as (Hf & evss & Hlog & Hall & Hanss).
    destruct (invoke_all _ components w) as [rs w']. cbn [fst snd] in *.
    split; [exact Hf |]. exists (concat evss). split; [exact Hlog |].
    split; [by apply Forall2_flat_map |].
    unfold any_result. rewrite orb_false_r. by apply any_result_concat.
Qed.

(** X2.  [calculateValue] on a tree asks every component of the tree,
    each once, a parent (through the base class) before its children and
    the children in collection order; it returns the disjunction of all
    the answers. *)
Theorem calculateValue_asks_every_component (c : Component) (data : value) (flags : Flags) :
  walks (made (CalculateValue data flags) (SuperCalculateValue data flags)) any_result
    (pre_order c) (calculateValue c data flags).
Proof.
  induction c as [i | i components IH] using Component_ind'.
  - apply walks_ask; [done |]. intros e. unfold any_result. simpl. by rewrite orb_false_r.
  - intros w. rewrite calculateValue_Nested_eq. cbn [pre_order].
    destruct (ask i (SuperCalculateValue data flags) w) as [init w0] eqn:Hask.
    destruct (invoke_all_walks _ _ pre_order (fun comp => calculateValue comp data flags)
                components IH w0) as (Hf & evss & Hlog & Hall & Hanss).
    destruct (invoke_all _ components w0) as [rs w']. cbn [fst snd] in *.
    injection Hask as <- <-. cbn [flagsStore log] in *.
    split; [exact Hf |]. eexists (_ :: concat evss).
    split; [by rewrite Hlog, <- app_assoc |].
    split; [constructor; [done | by apply Forall2_flat_map] |].
    unfold any_result. cbn [existsb result]. rewrite orb_comm. f_equal.
    by apply any_result_concat.
Qed.

(** X3.  [isValid] on a tree asks every component of the tree, each
    once, a parent (through the base class) before its children and the
    children in collection order, whatever the earlier answers were; it
    returns the conjunction of all the answers. *)
Theorem isValid_asks_every_component (c : Component) (data dirty : value) :
  walks (made (IsValid data dirty) (SuperIsValid data dirty)) all_results
    (pre_order c) (isValid c data dirty).
Proof.
  induction c as [i | i components IH] using Component_ind'.
  - apply walks_ask; [done |]. intros e. unfold all_results. simpl. by rewrite andb_true_r.
  - intros w. rewrite isValid_Nested_eq. cbn [pre_order].
    destruct (ask i (SuperIsValid data dirty) w) as [init w0] eqn:Hask.
    destruct (invoke_all_walks _ _ pre_order (fun comp => isValid comp data dirty)
                components IH w0) as (Hf & evss & Hlog & Hall & Hanss).
    destruct (invoke_all _ components w0) as [rs w']. cbn [fst snd] in *.
    injection Hask as <- <-. cbn [flagsStore log] in *.
    split; [exact Hf |]. eexists (_ :: concat evss). split; [by rewrite Hlog, <- app_assoc |].
    split; [constructor; [done | by apply Forall2_flat_map] |].
    unfold all_results. cbn [forallb result]. rewrite andb_comm. f_equal.
    by apply all_results_concat.
Qed.

(** X4.  [checkConditions] on a tree checks every component of the
    tree, each once, the children in collection order and a parent
    (through the base class) after all of its children; what it returns
    is the answer of the last of these calls, the one made on the
    component itself. *)
Theorem checkConditions_children_first (c : Component) (data : value) :
  walks (made (CheckConditions data) (SuperCheckConditions data)) last_result
    (post_order c) (checkConditions c data).
Proof.
  induction c as [i | i components IH] using Component_ind'.
  - by apply walks_ask.
  - intros w. rewrite checkConditions_Nested_eq. cbn [post_order].
    destruct (invoke_all_walks _ _ post_order (fun comp => checkConditions comp data)
                components IH w) as (Hf & evss & Hlog & Hall & _).
    destruct (invoke_all _ components w) as [rs w']. cbn [fst snd ask flagsStore log] in *.
    split; [exact Hf |].
    exists (concat evss ++ [{| target := id i; call := SuperCheckConditions data;
                               result := behaviour i (SuperCheckConditions data) (log w') |}]).
    split; [by rewrite app_assoc, <- Hlog |].
    split; [apply Forall2_app; [by apply Forall2_flat_map | by repeat constructor] |].
    unfold last_result. rewrite last_snoc. reflexivity.
Qed.

(** *** [setValue] *)

Lemma reduce_keeps_flags {A B} (f : B -> A -> M B) (l : list A) :
  Forall (fun x => forall acc w, flagsStore (snd (f acc x w)) = flagsStore w) l ->
  forall init w, flagsStore (snd (reduce f l init w)) = flagsStore w.
Proof.
  induction 1 as [| x rest Hx _ IH]; intros init w; [reflexivity |].
  cbn [reduce]. unfold bind. specialize (Hx init w).
  destruct (f init x w) as [acc w1]. cbn [snd] in Hx. by rewrite IH.
Qed.

(** X5.  Let [getFlags] hand an object argument back as it is.  On a
    truthy value and a container none of whose children is a button,
    [setValue] takes every child through [setNestedValue], in collection
    order and whatever the earlier children returned, and returns the
    disjunction of what the children returned. *)
Theorem setValue_is_or_without_buttons (getFlags : value -> value -> M loc) (i : Info)
    (components : list Component) (v : value) (l : loc) (w : World) :
  (forall v l w, getFlags v (Ref l) w = (l, w)) ->
  truthy v = true ->
  Forall (fun c => type (info c) <> "button") components ->
  setValue getFlags (Nested i components) v (Ref l) w =
  let (rs, w') :=
    invoke_all (fun c => setNestedValue getFlags c v l false) components w in
  (existsb Datatypes.id rs, w').
Proof. intros Hpass. by apply setValue_or. Qed.

(** X6.  Let [getFlags] hand an object argument back as it is.  A
    button among the children resets what [setValue] has accumulated:
    the children before the button are still processed, but the value
    returned is that of the children after the button alone. *)
Theorem setValue_restarts_after_button (getFlags : value -> value -> M loc) (i : Info)
    (before after : list Component) (b : Component) (v : value) (l : loc) (w : World) :
  (forall v l w, getFlags v (Ref l) w = (l, w)) ->
  truthy v = true ->
  type (info b) = "button" ->
  setValue getFlags (Nested i (before ++ b :: after)) v (Ref l) w =
  let (_, w1) := setValue getFlags (Nested i before) v (Ref l) w in
  setValue getFlags (Nested i after) v (Ref l) w1.
Proof. intros Hpass. by apply setValue_after_button. Qed.

(** X7.  Let [getFlags] hand an object argument back as it is.  When
    no component of the tree comes to the last branch of
    [setNestedValue] (every child met is a button, a [components]
    container, or has an entry in the value it is handed), [setValue]
    writes to no flags object: the caller's flags are as they were. *)
Theorem setValue_supplied_keeps_flags (getFlags : value -> value -> M loc)
    (c : Component) (v : value) (l : loc) (w : World) :
  (forall v l w, getFlags v (Ref l) w = (l, w)) ->
  supplied c v = true ->
  flagsStore (snd (setValue getFlags c v (Ref l) w)) = flagsStore w.
Proof.
  intros Hpass. revert v w.
  induction c as [i | i components IH] using Component_ind'; intros v w Hsup.
  - reflexivity.
  - rewrite setValue_Nested. cbn [supplied] in Hsup.
    destruct (truthy v) eqn:Hv; cbn [negb orb] in *; [| reflexivity].
    unfold bind. rewrite Hpass. apply reduce_keeps_flags.
    rewrite Forall_forall in IH |- *. intros child Hchild acc w0.
    rewrite forallb_forall in Hsup.
    specialize (Hsup child (proj1 (list_elem_of_In _ _) Hchild)).
    specialize (IH child Hchild).
    unfold setNestedValue, setNestedValue_with.
    destruct (String.eqb (type (info child)) "button"); [reflexivity |].
    destruct (String.eqb (type (info child)) "components").
    { unfold bind. specialize (IH v w0 Hsup).
      by destruct (setValue getFlags child v (Ref l) w0). }
    rewrite Hv. cbn [andb] in Hsup |- *.
    destruct (hasValue (info child) v); [| discriminate].
    unfold bind. specialize (IH _ w0 Hsup).
    by destruct (setValue getFlags child _ (Ref l) w0).
Qed.

End WholeTree.

Section WholeTreeExamples.
Import Js Tree.

(** X5 on a form with two fields, of which the second reports a
    change. *)
Lemma setValue_is_or_witness :
  fst (setValue (lodash := Fixture.lodash) Fixture.getFlags
         (Nested Fixture.form [Fixture.text "a" false; Fixture.text "b" true])
         (Obj [("a", Num 1); ("b", Num 2)]) (Ref 0) Fixture.start) = true.
Proof.
  rewrite (setValue_is_or_without_buttons (lodash := Fixture.lodash) Fixture.getFlags Fixture.form
             [Fixture.text "a" false; Fixture.text "b" true]
             (Obj [("a", Num 1); ("b", Num 2)]) 0 Fixture.start
             (fun _ _ _ => eq_refl) eq_refl).
  - vm_compute. reflexivity.
  - repeat constructor; intros E; vm_compute in E; discriminate.
Defined.

(** X6 on a form where the field that reports a change comes before
    the button and a field that reports none comes after it. *)
Lemma setValue_restarts_witness :
  fst (setValue (lodash := Fixture.lodash) Fixture.getFlags
         (Nested Fixture.form
            [Fixture.text "a" true; Fixture.button "submit"; Fixture.text "b" false])
         (Obj [("a", Num 1); ("b", Num 2)]) (Ref 0) Fixture.start) = false.
Proof.
  pose proof (setValue_restarts_after_button (lodash := Fixture.lodash) Fixture.getFlags Fixture.form
                [Fixture.text "a" true] [Fixture.text "b" false] (Fixture.button "submit")
                (Obj [("a", Num 1); ("b", Num 2)]) 0 Fixture.start
                (fun _ _ _ => eq_refl) eq_refl eq_refl) as H.
  cbn [app] in H. rewrite H. vm_compute. reflexivity.
Defined.

(** X7 on the survey, with a value that has an entry for each of its
    fields. *)
Lemma setValue_supplied_witness :
  flagsStore (snd (setValue (lodash := Fixture.lodash) Fixture.getFlags (Fixture.survey true)
                     (Obj [("a", Num 1); ("b", Num 2); ("c", Num 3)]) (Ref 0)
                     Fixture.start)) =
  flagsStore Fixture.start.
Proof.
  apply (setValue_supplied_keeps_flags (lodash := Fixture.lodash) Fixture.getFlags (Fixture.survey true)
           (Obj [("a", Num 1); ("b", Num 2); ("c", Num 3)]) 0 Fixture.start
           (fun _ _ _ => eq_refl)).
  vm_compute. reflexivity.
Defined.

End WholeTreeExamples.

(** * Further facts about the store model *)

Section Lookups.
Import Js Store.

(** Induction over a shape, children included. *)
Lemma Shape_ind' (P : Shape -> Prop) :
  (forall c, P (LeafAt c)) ->
  (forall c a kids, Forall P kids -> P (NestedAt c a kids)) ->
  forall t, P t.
Proof.
  intros HL HN.
  fix IH 1. intros [c | c a kids].
  - apply HL.
  - apply HN. induction kids as [| t ts IHts]; constructor; auto.
Qed.

Lemma represents_objects w t :
  represents w t = true -> forall c, c ∈ locs t -> is_Some (objects w !! c).
Proof.
  induction t as [c0 | c0 a kids IH] using Shape_ind'; intros Hrep c Hc.
  - apply list_elem_of_singleton in Hc as ->.
    destruct (represents_instance _ _ Hrep) as [o [Ho _]]. by exists o.
  - cbn [locs at_loc] in Hc. apply elem_of_cons in Hc as [-> | Hc].
    + destruct (represents_instance _ _ Hrep) as [o [Ho _]]. by exists o.
    + destruct (represents_NestedAt _ _ _ _ Hrep) as [_ Hkids].
      apply list_elem_of_In, in_flat_map in Hc as (t & Ht & Hc).
      apply list_elem_of_In in Ht, Hc.
      rewrite Forall_forall in IH, Hkids. by apply (IH t Ht (Hkids t Ht)).
Qed.

Lemma in_below (kids : list Shape) t c0 :
  t ∈ kids -> c0 ∈ locs t -> c0 ∈ flat_map locs kids.
Proof.
  intros Ht Hc0. apply list_elem_of_In, in_flat_map. exists t.
  split; by apply list_elem_of_In.
Qed.

Lemma satisfies_miss matches w l :
  (forall c, c ∈ l -> is_Some (objects w !! c)) ->
  existsb (satisfies matches w) l = false ->
  Forall (fun c => exists o, objects w !! c = Some o /\ matches o = false) l.
Proof.
  intros Hobj Hnone. apply Forall_forall. intros c Hc.
  destruct (Hobj c Hc) as [o Ho]. exists o. split; [done |].
  destruct (matches o) eqn:Hm; [| done].
  assert (existsb (satisfies matches w) l = true) as Hsome; [| congruence].
  apply existsb_exists. exists c. split; [by apply list_elem_of_In |].
  unfold satisfies. by rewrite Ho.
Qed.

Lemma getComponent_lookup fuel this key fn :
  getComponent fuel this key fn =
  (let* (_, comp) := everyComponent fuel this (lookup_visitor (key_is key) fn) Null in
   ret comp).
Proof. reflexivity. Qed.

Lemma getComponentById_lookup fuel this i fn :
  getComponentById fuel this i fn =
  (let* (_, comp) := everyComponent fuel this (lookup_visitor (id_is i) fn) Null in
   ret comp).
Proof. reflexivity. Qed.

Lemma removeComponentByKey_lookup `{External} fuel this key fn :
  removeComponentByKey fuel this key fn =
  (let* comp := getComponent fuel this key (Some (removal fuel this fn)) in
   if negb (truthy comp) then call_n fn [Null] ;; ret Null else ret Undefined).
Proof. reflexivity. Qed.

Lemma removeComponentById_lookup `{External} fuel this i fn :
  removeComponentById fuel this i fn =
  (let* comp := getComponentById fuel this i (Some (removal fuel this fn)) in
   if negb (truthy comp) then call_n fn [Null] ;; ret Null else ret Undefined).
Proof. reflexivity. Qed.

(** The visit of a lookup at a component, without a callback. *)
Lemma lookup_visit matches w c o a index s :
  objects w !! c = Some o ->
  lookup_visitor matches None (Ref c) (Ref a) index s w =
  Returns (if matches o then (Bool false, Ref c) else (Undefined, s)) w.
Proof.
  intros Ho. unfold lookup_visitor.
  rewrite (bind_Returns _ _ w o w) by (unfold deref, instance; by rewrite Ho).
  by destruct (matches o).
Qed.

(** What a lookup without a callback has in hand after one level, and
    after everything below a component. *)
Lemma lookup_below matches w :
  forall n t, depth t < n -> represents w t = true ->
  forall s, exists s',
    every_below (lookup_visitor matches None) t s w = Returns s' w /\
    (existsb (satisfies matches w) (below t) = false -> s' = s) /\
    (existsb (satisfies matches w) (below t) = true ->
     exists c, c ∈ below t /\ satisfies matches w c = true /\ s' = Ref c).
Proof.
  induction n as [| n IHn]; intros t Hdepth Hrep s; [lia |].
  destruct t as [c0 | c0 a kids].
  { exists s. split; [reflexivity |]. split; [done | simpl; discriminate]. }
  rewrite every_below_NestedAt. cbn [below].
  destruct (represents_NestedAt _ _ _ _ Hrep) as [_ Hkids].
  assert (Hd : Forall (fun t => depth t < n) kids).
  { apply Forall_forall. intros t Ht. by eapply depth_kid. }
  clear Hdepth Hrep. generalize 0. revert s.
  induction kids as [| t rest IH]; intros s index.
  { exists s. split; [reflexivity |]. split; [done | simpl; discriminate]. }
  apply Forall_cons in Hkids as [Ht Hrest]. apply Forall_cons in Hd as [Hdt Hdrest].
  specialize (IH Hrest Hdrest).
  destruct (represents_instance _ _ Ht) as [o [Ho _]].
  cbn [every_level flat_map]. rewrite (bind_Returns _ _ _ _ _ (lookup_visit matches w _ o a index s Ho)).
  assert (Hhere : satisfies matches w (at_loc t) = matches o)
    by (unfold satisfies; by rewrite Ho).
  assert (Hlocs : locs t = at_loc t :: below t) by (by destruct t).
  rewrite Hlocs. cbn [app existsb]. rewrite Hhere, existsb_app.
  destruct (matches o) eqn:Hm; cbn [is_false orb].
  - exists (Ref (at_loc t)). split; [reflexivity |]. split; [discriminate |].
    intros _. exists (at_loc t). repeat split; [| by rewrite Hhere].
    apply elem_of_cons. by left.
  - destruct (IHn t Hdt Ht s) as (s1 & Hrun1 & Hnone1 & Hsome1).
    rewrite (bind_Returns _ _ _ _ _ Hrun1).
    destruct (IH s1 (S index)) as (s2 & Hrun2 & Hnone2 & Hsome2).
    exists s2. split; [exact Hrun2 |].
    destruct (existsb (satisfies matches w) (flat_map locs rest)) eqn:Hrest'.
    + rewrite orb_true_r. split; [discriminate |]. intros _.
      destruct (Hsome2 eq_refl) as (c & Hc & Hsat & ->).
      exists c. repeat split; [| done]. apply elem_of_cons. right.
      apply elem_of_app. by right.
    + rewrite orb_false_r. rewrite (Hnone2 eq_refl). split; [exact Hnone1 |].
      intros Hbelow. destruct (Hsome1 Hbelow) as (c & Hc & Hsat & ->).
      exists c. repeat split; [| done]. apply elem_of_cons. right.
      apply elem_of_app. by left.
Qed.

Lemma lookup_deep matches w this a kids fuel :
  represents w (NestedAt this a kids) = true ->
  depth (NestedAt this a kids) < fuel ->
  exists r,
    everyComponent fuel this (lookup_visitor matches None) Null w =
      Returns (Undefined, r) w /\
    (r = Null <-> existsb (satisfies matches w) (flat_map locs kids) = false) /\
    (existsb (satisfies matches w) (flat_map locs kids) = true ->
     exists c, r = Ref c /\ c ∈ flat_map locs kids /\ satisfies matches w c = true).
Proof.
  intros Hrep Hdepth.
  destruct (lookup_below matches w (S (depth (NestedAt this a kids))) (NestedAt this a kids)
              ltac:(lia) Hrep Null) as (r & Hrun & Hnone & Hsome).
  exists r. split.
  - rewrite (everyComponent_shape (fun w' => w' = w) _ fuel this a kids);
      [| exact Hdepth | by intros ? -> | | reflexivity].
    + by rewrite (bind_Returns _ _ _ _ _ Hrun).
    + intros c Hc a' index s w1 out w2 -> Hvisit.
      destruct (represents_objects w (NestedAt this a kids) Hrep c) as [o Ho].
      { cbn [locs]. apply elem_of_cons. by right. }
      rewrite (lookup_visit matches w c o a' index s Ho) in Hvisit. by injection Hvisit.
  - cbn [below] in *.
    destruct (existsb (satisfies matches w) (flat_map locs kids)) eqn:Hany.
    + destruct (Hsome eq_refl) as (c & Hc & Hsat & ->).
      split; [split; discriminate |]. intros _. by exists c.
    + rewrite (Hnone eq_refl). split; [done |]. discriminate.
Qed.

(** X8.  A lookup without a callback leaves the store as it is and
    returns [null] exactly when no component below the container has the
    key (the id) looked for; otherwise it returns a component, which is
    below the container and has the key (the id). *)
Theorem lookup_finds_iff_present (w : World) (this a : loc) (kids : list Shape)
    (fuel : nat) (wanted : string) :
  represents w (NestedAt this a kids) = true ->
  depth (NestedAt this a kids) < fuel ->
  (exists r,
     getComponent fuel this wanted None w = Returns r w /\
     (r = Null <-> existsb (satisfies (key_is wanted) w) (flat_map locs kids) = false) /\
     (existsb (satisfies (key_is wanted) w) (flat_map locs kids) = true ->
      exists c, r = Ref c /\
                c ∈ flat_map locs kids /\ satisfies (key_is wanted) w c = true))
  /\ (exists r,
        getComponentById fuel this wanted None w = Returns r w /\
        (r = Null <-> existsb (satisfies (id_is wanted) w) (flat_map locs kids) = false) /\
        (existsb (satisfies (id_is wanted) w) (flat_map locs kids) = true ->
         exists c, r = Ref c /\
                   c ∈ flat_map locs kids /\ satisfies (id_is wanted) w c = true)).
Proof.
  intros Hrep Hdepth. split.
  - destruct (lookup_deep (key_is wanted) w this a kids fuel Hrep Hdepth) as (r & Hrun & H).
    exists r. split; [| exact H]. rewrite getComponent_lookup.
    by rewrite (bind_Returns _ _ _ _ _ Hrun).
  - destruct (lookup_deep (id_is wanted) w this a kids fuel Hrep Hdepth) as (r & Hrun & H).
    exists r. split; [| exact H]. rewrite getComponentById_lookup.
    by rewrite (bind_Returns _ _ _ _ _ Hrun).
Qed.

Lemma below_misses matches w this a kids :
  represents w (NestedAt this a kids) = true ->
  existsb (satisfies matches w) (flat_map locs kids) = false ->
  Forall (fun c => exists o, objects w !! c = Some o /\ matches o = false)
    (flat_map locs kids).
Proof.
  intros Hrep. apply satisfies_miss. intros c Hc.
  apply (represents_objects w _ Hrep). cbn [locs]. apply elem_of_cons. by right.
Qed.

(** X9.  A lookup that finds no component with the key (the id) looked
    for returns [null], does not call the callback it was given, and
    leaves the store as it is. *)
Theorem lookup_miss_returns_null (w : World) (this a : loc) (kids : list Shape)
    (fuel : nat) (wanted : string) (fn : option Callback) :
  represents w (NestedAt this a kids) = true ->
  depth (NestedAt this a kids) < fuel ->
  (existsb (satisfies (key_is wanted) w) (flat_map locs kids) = false ->
   getComponent fuel this wanted fn w = Returns Null w)
  /\ (existsb (satisfies (id_is wanted) w) (flat_map locs kids) = false ->
      getComponentById fuel this wanted fn w = Returns Null w).
Proof.
  intros Hrep Hdepth. split; intros Hnone.
  - apply (getComponent_miss w this a kids fuel Hrep Hdepth).
    by apply (below_misses (key_is wanted) w this a).
  - apply (getComponentById_miss w this a kids fuel Hrep Hdepth).
    by apply (below_misses (id_is wanted) w this a).
Qed.

(** X10.  A removal by key (by id) that finds no such component removes
    nothing, calls the callback (when there is one) with [null] alone,
    and returns [null]. *)
Theorem removal_miss_calls_back_with_null `{External} (w : World) (this a : loc)
    (kids : list Shape) (fuel : nat) (wanted : string) (fn : option Callback_n) :
  represents w (NestedAt this a kids) = true ->
  depth (NestedAt this a kids) < fuel ->
  (existsb (satisfies (key_is wanted) w) (flat_map locs kids) = false ->
   removeComponentByKey fuel this wanted fn w = (call_n fn [Null] ;; ret Null) w)
  /\ (existsb (satisfies (id_is wanted) w) (flat_map locs kids) = false ->
      removeComponentById fuel this wanted fn w = (call_n fn [Null] ;; ret Null) w).
Proof.
  intros Hrep Hdepth. split; intros Hnone.
  - apply (removeComponentByKey_miss w this a kids fuel Hrep Hdepth).
    by apply (below_misses (key_is wanted) w this a).
  - apply (removeComponentById_miss w this a kids fuel Hrep Hdepth).
    by apply (below_misses (id_is wanted) w this a).
Qed.

(** A lookup whose first match is a direct child, nothing matching in
    or below the children before it: the callback is called once, with
    the child and the collection, and the traversal ends there. *)
Lemma lookup_hit_direct matches fn w this a prefix t rest fuel :
  represents w (NestedAt this a (prefix ++ t :: rest)) = true ->
  depth (NestedAt this a (prefix ++ t :: rest)) < fuel ->
  existsb (satisfies matches w) (flat_map locs prefix) = false ->
  satisfies matches w (at_loc t) = true ->
  everyComponent fuel this (lookup_visitor matches fn) Null w =
  (call fn (Ref (at_loc t)) (Ref a) ;; ret (Undefined, Ref (at_loc t))) w.
Proof.
  intros Hrep Hdepth Hnone Hhit. destruct fuel as [| n]; [lia |].
  rewrite everyComponent_S.
  rewrite (bind_Returns _ _ w a w) by (eapply getComponents_represents; eauto).
  destruct (represents_NestedAt _ _ _ _ Hrep) as [Harr Hkids].
  unfold each. rewrite !bind_bind.
  rewrite (bind_Returns _ _ w (List.map at_loc (prefix ++ t :: rest)) w) by (unfold array; by rewrite Harr).
  rewrite length_map.
  enough (Hgen : forall pre done, prefix = done ++ pre ->
    arrayEach (every_iteratee n a (lookup_visitor matches fn)) a
      (length done) (length (pre ++ t :: rest)) Null w =
    (call fn (Ref (at_loc t)) (Ref a) ;; ret (Ref (at_loc t))) w).
  { pose proof (Hgen prefix [] eq_refl) as Hrun. cbn [length] in Hrun.
    unfold bind at 1. rewrite Hrun.
    unfold bind. by destruct (call fn (Ref (at_loc t)) (Ref a) w). }
  assert (Hread : array a w = Returns (List.map at_loc (prefix ++ t :: rest)) w)
    by (unfold array; by rewrite Harr).
  induction pre as [| t' pre IH]; intros done Hsplit.
  - cbn [app length arrayEach]. rewrite (bind_Returns _ _ _ _ _ Hread).
    assert (Hat : List.map at_loc (prefix ++ t :: rest) !! length done = Some (at_loc t)).
    { rewrite Hsplit, app_nil_r, List.map_app. simpl.
      rewrite <- (length_map at_loc done). by rewrite list_lookup_middle. }
    rewrite Hat. cbv beta zeta iota.
    unfold satisfies in Hhit.
    destruct (objects w !! at_loc t) as [o |] eqn:Ho; [| discriminate].
    unfold every_iteratee, lookup_visitor. rewrite !bind_bind.
    rewrite (bind_Returns _ _ w o w) by (unfold deref, instance; by rewrite Ho).
    rewrite Hhit. rewrite !bind_bind. unfold bind.
    by destruct (call fn (Ref (at_loc t)) (Ref a) w).
  - cbn [app length arrayEach]. rewrite (bind_Returns _ _ _ _ _ Hread).
    assert (Hin : t' ∈ prefix ++ t :: rest) by (rewrite Hsplit; set_solver).
    assert (Hat : List.map at_loc (prefix ++ t :: rest) !! length done = Some (at_loc t')).
    { rewrite Hsplit, <- app_assoc, List.map_app. simpl.
      rewrite <- (length_map at_loc done). by rewrite list_lookup_middle. }
    rewrite Hat. cbv beta zeta iota.
    assert (Hrept : represents w t' = true).
    { rewrite Forall_forall in Hkids. by apply Hkids. }
    assert (Hmiss : existsb (satisfies matches w) (locs t') = false).
    { destruct (existsb (satisfies matches w) (locs t')) eqn:E; [| done].
      apply existsb_exists in E as (c & Hc & Hsat).
      assert (existsb (satisfies matches w) (flat_map locs prefix) = true) as E';
        [| congruence].
      apply existsb_exists. exists c. split; [| done].
      apply in_flat_map. exists t'. split; [| done].
      rewrite Hsplit. apply in_or_app. right. by left. }
    assert (Hlocs : locs t' = at_loc t' :: below t') by (by destruct t').
    rewrite Hlocs in Hmiss. cbn [existsb] in Hmiss.
    apply orb_false_iff in Hmiss as [Hhere Hbelow].
    destruct (represents_instance _ _ Hrept) as [o [Ho Hc]].
    assert (Hno : matches o = false) by (unfold satisfies in Hhere; by rewrite Ho in Hhere).
    unfold every_iteratee at 1. unfold lookup_visitor at 1. rewrite !bind_bind.
    rewrite (bind_Returns _ _ w o w) by (unfold deref, instance; by rewrite Ho).
    rewrite Hno. rewrite (bind_Returns _ _ w (Undefined, Null) w) by reflexivity.
    cbn [is_false].
    rewrite bind_bind, (bind_Returns _ _ _ _ _ (has_everyComponent_represents w t' Hrept)).
    assert (Hnext : arrayEach (every_iteratee n a (lookup_visitor matches fn)) a
              (S (length done)) (length (pre ++ t :: rest)) Null w =
            (call fn (Ref (at_loc t)) (Ref a) ;; ret (Ref (at_loc t))) w).
    { specialize (IH (done ++ [t'])). rewrite length_app in IH. simpl in IH.
      replace (length done + 1) with (S (length done)) in IH by lia.
      apply IH. by rewrite Hsplit, <- app_assoc. }
    destruct t' as [c' | c' a' kids'].
    + rewrite (bind_Returns _ _ w (Undefined, Null) w) by reflexivity.
      cbn [is_false]. exact Hnext.
    + cbn [at_loc below] in *. rewrite bind_bind.
      rewrite (bind_Returns _ _ w (Undefined, Null) w).
      * rewrite (bind_Returns _ _ w (Undefined, Null) w) by reflexivity.
        cbn [is_false]. exact Hnext.
      * apply (everyComponent_idle w c' a' kids' n Hrept); [by eapply depth_kid |].
        apply (lookup_idle w kids' matches fn).
        by apply (below_misses matches w c' a').
Qed.

(** X11.  When the first component with the key (the id) looked for is
    a direct child of the container, nothing matching in or below the
    children before it, the lookup calls the callback once, with that
    child and the container's collection, and returns the child; the
    children after it are not visited. *)
Theorem lookup_hit_among_children (w : World) (this a : loc)
    (prefix rest : list Shape) (t : Shape) (fuel : nat) (wanted : string)
    (fn : option Callback) :
  represents w (NestedAt this a (prefix ++ t :: rest)) = true ->
  depth (NestedAt this a (prefix ++ t :: rest)) < fuel ->
  (existsb (satisfies (key_is wanted) w) (flat_map locs prefix) = false ->
   satisfies (key_is wanted) w (at_loc t) = true ->
   getComponent fuel this wanted fn w =
   (call fn (Ref (at_loc t)) (Ref a) ;; ret (Ref (at_loc t))) w)
  /\ (existsb (satisfies (id_is wanted) w) (flat_map locs prefix) = false ->
      satisfies (id_is wanted) w (at_loc t) = true ->
      getComponentById fuel this wanted fn w =
      (call fn (Ref (at_loc t)) (Ref a) ;; ret (Ref (at_loc t))) w).
Proof.
  intros Hrep Hdepth. split; intros Hnone Hhit.
  - rewrite getComponent_lookup. unfold bind at 1.
    rewrite (lookup_hit_direct (key_is wanted) fn w this a prefix t rest fuel) by done.
    unfold bind. by destruct (call fn (Ref (at_loc t)) (Ref a) w).
  - rewrite getComponentById_lookup. unfold bind at 1.
    rewrite (lookup_hit_direct (id_is wanted) fn w this a prefix t rest fuel) by done.
    unfold bind. by destruct (call fn (Ref (at_loc t)) (Ref a) w).
Qed.

(** X12.  When the first component with the key (the id) is a direct
    child of the container, a removal by key (by id) is
    [removeComponent] of that child from the container's collection,
    followed by the callback with the child and the collection; the
    value returned is then [undefined]. *)
Theorem removal_hit_among_children `{External} (w : World) (this a : loc)
    (prefix rest : list Shape) (t : Shape) (fuel : nat) (wanted : string)
    (fn : option Callback_n) :
  represents w (NestedAt this a (prefix ++ t :: rest)) = true ->
  depth (NestedAt this a (prefix ++ t :: rest)) < fuel ->
  (existsb (satisfies (key_is wanted) w) (flat_map locs prefix) = false ->
   satisfies (key_is wanted) w (at_loc t) = true ->
   removeComponentByKey fuel this wanted fn w =
   (removeComponent fuel this (at_loc t) (Ref a) ;;
    call_n fn [Ref (at_loc t); Ref a] ;;
    ret Undefined) w)
  /\ (existsb (satisfies (id_is wanted) w) (flat_map locs prefix) = false ->
      satisfies (id_is wanted) w (at_loc t) = true ->
      removeComponentById fuel this wanted fn w =
      (removeComponent fuel this (at_loc t) (Ref a) ;;
       call_n fn [Ref (at_loc t); Ref a] ;;
       ret Undefined) w).
Proof.
  intros Hrep Hdepth. split; intros Hnone Hhit.
  - rewrite removeComponentByKey_lookup, getComponent_lookup.
    rewrite bind_bind. unfold bind at 1.
    rewrite (lookup_hit_direct (key_is wanted) _ w this a prefix t rest fuel) by done.
    unfold call, removal, bind.
    destruct (removeComponent fuel this (at_loc t) (Ref a) w) as [[] w1 | |]; [| done..].
    by destruct (call_n fn [Ref (at_loc t); Ref a] w1).
  - rewrite removeComponentById_lookup, getComponentById_lookup.
    rewrite bind_bind. unfold bind at 1.
    rewrite (lookup_hit_direct (id_is wanted) _ w this a prefix t rest fuel) by done.
    unfold call, removal, bind.
    destruct (removeComponent fuel this (at_loc t) (Ref a) w) as [[] w1 | |]; [| done..].
    by destruct (call_n fn [Ref (at_loc t); Ref a] w1).
Qed.

End Lookups.

Section WholeTraversal.
Import Js Store.

Lemma every_below_visits {V} (f : value -> value -> nat -> V -> value * V) w :
  (forall component components index s,
     is_false (fst (f component components index s)) = false) ->
  forall n t, depth t < n ->
  forall s, every_below (pure_every f) t s w = Returns (after_visits f (visits t) s) w.
Proof.
  intros Hon. induction n as [| n IHn]; intros t Hdepth s; [lia |].
  destruct t as [c | c a kids]; [reflexivity |].
  rewrite every_below_NestedAt. cbn [visits].
  assert (Hd : Forall (fun t => depth t < n) kids).
  { apply Forall_forall. intros t Ht. by eapply depth_kid. }
  clear Hdepth. generalize 0. revert s.
  induction Hd as [| t rest Ht _ IH]; intros s index; [reflexivity |].
  cbn [every_level visits_level]. unfold pure_every at 1.
  rewrite (bind_Returns _ _ w (f (Ref (at_loc t)) (Ref a) index s) w) by reflexivity.
  specialize (Hon (Ref (at_loc t)) (Ref a) index s).
  destruct (f (Ref (at_loc t)) (Ref a) index s) as [r s1] eqn:Hf. cbn [fst] in Hon.
  rewrite Hon. rewrite (bind_Returns _ _ _ _ _ (IHn t Ht s1)). rewrite IH.
  unfold after_visits. cbn [fold_left]. rewrite Hf, fold_left_app. reflexivity.
Qed.

(** X13.  With a visitor that leaves the store alone and never returns
    [false], [everyComponent] (given fuel for the depth of the tree)
    calls the visitor once for every component below the container, a
    parent before its children and the children in collection order,
    each time with the component, the collection it is in and its index
    there; it returns [undefined]. *)
Theorem everyComponent_visits_in_pre_order {V : Type}
    (f : value -> value -> nat -> V -> value * V)
    (fuel : nat) (c a : loc) (kids : list Shape) (s : V) (w : World) :
  represents w (NestedAt c a kids) = true ->
  depth (NestedAt c a kids) < fuel ->
  (forall component components index s,
     is_false (fst (f component components index s)) = false) ->
  everyComponent fuel c (pure_every f) s w =
  Returns (Undefined, after_visits f (visits (NestedAt c a kids)) s) w.
Proof.
  intros Hrep Hdepth Hon.
  rewrite (everyComponent_shape (fun w' => w' = w) _ fuel c a kids);
    [| exact Hdepth | by intros ? -> | apply pure_every_keeps_on | reflexivity].
  by rewrite (bind_Returns _ _ _ _ _
                (every_below_visits f w Hon (S (depth (NestedAt c a kids))) (NestedAt c a kids)
                   (Nat.lt_succ_diag_r _) s)).
Qed.

End WholeTraversal.

Section Handshake.
Import Js Store.
Context `{External}.

Lemma update_Returns w c o f :
  objects w !! c = Some o -> update c f w = Returns tt (with_objects <[c := f o]> w).
Proof. intros Ho. unfold update, bind, instance. by rewrite Ho. Qed.

Lemma update_inv w c f u w' :
  update c f w = Returns u w' ->
  exists o, objects w !! c = Some o /\ w' = with_objects <[c := f o]> w.
Proof.
  unfold update, bind, instance, modify. destruct (objects w !! c) as [o |]; [| done].
  intros [= _ <-]. by exists o.
Qed.

Lemma write_array_objects w a l u w' :
  write_array a l w = Returns u w' -> objects w' = objects w.
Proof.
  unfold write_array, bind, array, modify. destruct (arrays w !! a); [| done].
  by intros [= _ <-].
Qed.

Lemma getComponents_inv w this a w' :
  getComponents this w = Returns a w' ->
  exists o, objects w !! this = Some o /\ components o = Some a /\ w' = w.
Proof.
  unfold getComponents, bind, instance. destruct (objects w !! this) as [o |]; [| done].
  destruct (components o) as [a' |] eqn:Ha; [| done]. intros [= <- <-]. eauto.
Qed.

Lemma array_inv w a l w' :
  array a w = Returns l w' -> arrays w !! a = Some l /\ w' = w.
Proof.
  unfold array. destruct (arrays w !! a) as [l' |]; [| done]. by intros [= <- <-].
Qed.

Lemma instantiate_isBuilt this component options data w comp w' :
  instantiate this component options data w = Returns comp w' ->
  exists o, objects w' !! comp = Some o /\ isBuilt o = true.
Proof.
  unfold instantiate. unfold bind at 1.
  destruct (instance this w) as [t w0 | |]; [| done..].
  unfold bind at 1. destruct (Components_create _ _ _ w0) as [c w1 | |]; [| done..].
  unfold bind at 1. destruct (update c _ w1) as [[] w2 | |]; [| done..].
  unfold bind at 1. destruct (instance this w2) as [t' w2' | |]; [| done..].
  unfold bind at 1. destruct (update c _ w2') as [[] w3 | |]; [| done..].
  unfold bind at 1. destruct (build c w3) as [[] w4 | |]; [| done..].
  unfold bind at 1. destruct (update c (set_isBuilt true) w4) as [[] w5 | |] eqn:Hup; [| done..].
  intros [= <- <-]. apply update_inv in Hup as (o & Ho & ->).
  eexists. split; [apply lookup_insert_eq | reflexivity].
Qed.

(** X14.  The handshake of [createComponent].  The child the factory
    returns gets the container as its [parent] and the container's
    [root], or the container itself when it has none, as its [root], and
    only then is [build] called on it; and whenever [createComponent]
    returns, the child it returns is marked [isBuilt]. *)
Theorem createComponent_handshake (this : loc) (component : Schema.t)
    (options data : value) (before : option BeforeRef)
    (w w1 : World) (t t1 c : Instance) (comp : loc) :
  objects w !! this = Some t ->
  Components_create component (Js.or options (Store.options t))
    (Js.or data (Store.data t)) w = Returns comp w1 ->
  objects w1 !! comp = Some c ->
  objects w1 !! this = Some t1 ->
  comp <> this ->
  instantiate this component options data w =
    (build comp ;; update comp (set_isBuilt true) ;; ret comp)
      (with_objects
         <[comp := set_root (Some (default this (root t1))) (set_parent (Some this) c)]> w1)
  /\ forall made w',
       createComponent this component options data before w = Returns made w' ->
       exists o, objects w' !! made = Some o /\ isBuilt o = true.
Proof.
  intros Ht Hcreate Hc Ht1 Hne. split.
  - unfold instantiate.
    rewrite (bind_Returns _ _ w t w) by (unfold instance; by rewrite Ht).
    rewrite (bind_Returns _ _ _ _ _ Hcreate).
    rewrite (bind_Returns _ _ _ _ _ (update_Returns w1 comp c _ Hc)).
    rewrite (bind_Returns _ _ _ t1 _)
      by (unfold instance; cbn [with_objects objects];
          by rewrite lookup_insert_ne, Ht1 by done).
    assert (Hc2 : objects (with_objects <[comp := set_parent (Some this) c]> w1) !! comp =
                  Some (set_parent (Some this) c))
      by (cbn [with_objects objects]; apply lookup_insert_eq).
    rewrite (bind_Returns _ _ _ _ _ (update_Returns _ comp _ _ Hc2)).
    unfold with_objects. cbn [objects arrays parentNode effects].
    by rewrite insert_insert_eq.
  - intros made w'. unfold createComponent. unfold bind at 1.
    destruct (instantiate this component options data w) as [comp' w2 | |] eqn:Hmade;
      [| done..].
    apply instantiate_isBuilt in Hmade as (o & Ho & Hbuilt).
    destruct (Schema.internal component).
    { intros [= <- <-]. eauto. }
    unfold bind at 1. destruct (getComponents this w2) as [a w3 | |] eqn:Ha; [| done..].
    apply getComponents_inv in Ha as (o2 & Ho2 & Ha2 & ->).
    unfold bind at 1. destruct (array a w2) as [l w3 | |] eqn:Hl; [| done..].
    apply array_inv in Hl as [Hl ->].
    unfold bind at 1.
    destruct before as [b |].
    + unfold bind at 1, gets.
      destruct (findIndex_by_id w2 (before_id b) l);
        (destruct (write_array a _ w2) as [[] w4 | |] eqn:Hw; [| done..]);
        intros [= <- <-]; rewrite (write_array_objects _ _ _ _ _ Hw); eauto.
    + destruct (write_array a _ w2) as [[] w4 | |] eqn:Hw; [| done..].
      intros [= <- <-]. rewrite (write_array_objects _ _ _ _ _ Hw). eauto.
Qed.

End Handshake.

Section LookupExamples.
Import Js Store.

(** X8 on the deep form, where two fields have the key [k]: the lookup
    returns a component that has the key. *)
Lemma lookup_finds_witness :
  exists c,
    getComponent 3 0 "k" None Fixture.deep = Returns (Ref c) Fixture.deep /\
    satisfies (key_is "k") Fixture.deep c = true.
Proof.
  destruct (lookup_finds_iff_present Fixture.deep 0 10
              [NestedAt 1 11 [LeafAt 3]; LeafAt 2] 3 "k"
              ltac:(vm_compute; reflexivity) ltac:(vm_compute; lia))
    as [(r & Hrun & _ & Hfound) _].
  destruct (Hfound ltac:(vm_compute; reflexivity)) as (c & -> & _ & Hkey).
  exists c. by split.
Defined.

(** X9 on the flat form: no field has the key [zz], and the callback
    leaves no trace. *)
Lemma lookup_miss_witness :
  getComponent 2 0 "zz" (Some Fixture.notice) Fixture.flat = Returns Null Fixture.flat.
Proof.
  apply (proj1 (lookup_miss_returns_null Fixture.flat 0 10
                  [LeafAt 1; LeafAt 2; LeafAt 3] 2 "zz" (Some Fixture.notice)
                  ltac:(vm_compute; reflexivity) ltac:(vm_compute; lia))).
  vm_compute. reflexivity.
Defined.

(** X10 on the flat form: the callback gets [null], the collection is
    as it was. *)
Lemma removal_miss_witness :
  let missed :=
    removeComponentByKey (H := Fixture.collaborators []) 2 0 "zz"
      (Some Fixture.record) Fixture.flat in
  returned missed = Some Null
  /\ array_after missed 10 = Some [1; 2; 3]
  /\ effects_after missed = [Called [Null]].
Proof.
  cbv zeta.
  rewrite (proj1 (removal_miss_calls_back_with_null (H := Fixture.collaborators [])
                    Fixture.flat 0 10 [LeafAt 1; LeafAt 2; LeafAt 3] 2 "zz"
                    (Some Fixture.record)
                    ltac:(vm_compute; reflexivity) ltac:(vm_compute; lia))
             ltac:(vm_compute; reflexivity)).
  vm_compute. repeat split; reflexivity.
Defined.

(** X11 on the flat form: the field [b] is found, the callback is
    called. *)
Lemma lookup_hit_witness :
  let found := getComponent 2 0 "b" (Some Fixture.notice) Fixture.flat in
  returned found = Some (Ref 2) /\ effects_after found = [Warn "found"].
Proof.
  cbv zeta.
  rewrite (proj1 (lookup_hit_among_children Fixture.flat 0 10
                    [LeafAt 1] [LeafAt 3] (LeafAt 2) 2 "b" (Some Fixture.notice)
                    ltac:(vm_compute; reflexivity) ltac:(vm_compute; lia))
             ltac:(vm_compute; reflexivity) ltac:(vm_compute; reflexivity)).
  vm_compute. split; reflexivity.
Defined.

(** X12 on the flat form: removing by id the field [f2]. *)
Lemma removal_hit_witness :
  removeComponentById (H := Fixture.collaborators []) 2 0 "f2"
    (Some Fixture.record) Fixture.flat =
  (removeComponent (H := Fixture.collaborators []) 2 0 2 (Ref 10) ;;
   call_n (Some Fixture.record) [Ref 2; Ref 10] ;;
   ret Undefined) Fixture.flat.
Proof.
  apply (proj2 (removal_hit_among_children (H := Fixture.collaborators [])
                  Fixture.flat 0 10 [LeafAt 1] [LeafAt 3] (LeafAt 2) 2 "f2"
                  (Some Fixture.record)
                  ltac:(vm_compute; reflexivity) ltac:(vm_compute; lia)));
    vm_compute; reflexivity.
Defined.

(** X13 on the deep form: the panel, the field in it, the field after
    it. *)
Lemma everyComponent_visits_witness :
  everyComponent 3 0 (pure_every Fixture.collecting) [] Fixture.deep =
  Returns (Undefined, [(Ref 1, Ref 10, 0); (Ref 3, Ref 11, 0); (Ref 2, Ref 10, 1)])
    Fixture.deep.
Proof.
  rewrite (everyComponent_visits_in_pre_order Fixture.collecting 3 0 10
             [NestedAt 1 11 [LeafAt 3]; LeafAt 2] [] Fixture.deep
             ltac:(vm_compute; reflexivity) ltac:(vm_compute; lia)
             (fun _ _ _ _ => eq_refl)).
  vm_compute. reflexivity.
Defined.

(** X14 on the flat form: the new field is built, and its parent and
    root are the form. *)
Lemma createComponent_handshake_witness :
  match createComponent (H := Fixture.collaborators []) 0 (Fixture.schema "n" false false)
          Undefined Undefined None Fixture.flat with
  | Returns made w' =>
      exists o, objects w' !! made = Some o /\ isBuilt o = true /\
                parent o = Some 0 /\ root o = Some 0
  | _ => False
  end.
Proof.
  pose (ext := Fixture.collaborators []).
  destruct (Components_create (External := ext) (Fixture.schema "n" false false)
              Undefined Undefined Fixture.flat) as [comp w1 | |] eqn:Hmade;
    vm_compute in Hmade; try discriminate.
  injection Hmade as Hcomp Hw1.
  destruct (objects w1 !! comp) as [c |] eqn:Hc;
    [| subst comp w1; vm_compute in Hc; discriminate].
  pose proof (createComponent_handshake (H := ext) 0 (Fixture.schema "n" false false)
                Undefined Undefined None Fixture.flat w1
                (Fixture.container "form" "form" 10 ["b"])
                (Fixture.container "form" "form" 10 ["b"]) c comp) as Hshake.
  destruct Hshake as [Hready Hbuilt].
  - reflexivity.
  - subst comp w1. vm_compute. reflexivity.
  - exact Hc.
  - subst w1. vm_compute. reflexivity.
  - subst comp. discriminate.
  - fold ext.
    destruct (createComponent (H := ext) 0 (Fixture.schema "n" false false)
                Undefined Undefined None Fixture.flat) as [made w' | |] eqn:Hrun.
    + destruct (Hbuilt made w' eq_refl) as (o & Ho & HisBuilt).
      exists o. split; [exact Ho |]. split; [exact HisBuilt |].
      clear -Hrun Ho. vm_compute in Hrun. injection Hrun as <- <-.
      vm_compute in Ho. injection Ho as <-. split; reflexivity.
    + vm_compute in Hrun. discriminate.
    + vm_compute in Hrun. discriminate.
Defined.

End LookupExamples.

Section Flatten.
Import Js Store.

Lemma leaf_locs_are_leaves w t :
  represents w t = true ->
  Forall (fun c => exists o, objects w !! c = Some o /\ components o = None) (leaf_locs t).
Proof.
  induction t as [c | c a kids IH] using Shape_ind'; intros Hrep.
  - destruct (represents_instance _ _ Hrep) as [o [Ho Hc]]. repeat constructor. eauto.
  - destruct (represents_NestedAt _ _ _ _ Hrep) as [_ Hkids]. cbn [leaf_locs]. clear Hrep.
    induction kids as [| t rest IHrest]; [constructor |].
    apply Forall_cons in IH as [IHt IHr]. apply Forall_cons in Hkids as [Ht Hr].
    cbn [flat_map]. apply Forall_app. split; [by apply IHt | by apply IHrest].
Qed.

Lemma getAllComponents_leaves_eq (w : World) (this a : loc) (kids : list Shape) (fuel : nat) :
  represents w (NestedAt this a kids) = true ->
  depth (NestedAt this a kids) < fuel ->
  getAllComponents fuel this w =
    Returns (List.map Ref (leaf_locs (NestedAt this a kids))) w.
Proof.
  revert this a kids.
  induction fuel as [| n IHn]; intros this a kids Hrep Hdepth; [lia |].
  cbn [getAllComponents leaf_locs].
  rewrite (bind_Returns _ _ w a w) by (eapply getComponents_represents; eauto).
  destruct (represents_NestedAt _ _ _ _ Hrep) as [Harr Hkids].
  rewrite (bind_Returns _ _ w (List.map at_loc kids) w) by (unfold array; by rewrite Harr).
  assert (Hd : Forall (fun t => depth t < n) kids).
  { apply Forall_forall. intros t Ht. by eapply depth_kid. }
  clear Hrep Hdepth Harr.
  enough (Hgen : forall acc,
    reduce (fun components component =>
              let* o := instance component in
              if bool_decide (is_Some (Store.components o)) then
                let* result := getAllComponents n component in
                ret (components ++ result)
              else ret (components ++ [Ref component]))
      (List.map at_loc kids) acc w =
    Returns (acc ++ List.map Ref (flat_map leaf_locs kids)) w) by apply (Hgen []).
  induction kids as [| t rest IH]; intros acc.
  { cbn. by rewrite app_nil_r. }
  apply Forall_cons in Hkids as [Ht Hrest]. apply Forall_cons in Hd as [Hdt Hdrest].
  cbn [List.map reduce flat_map].
  destruct (represents_instance _ _ Ht) as [o [Ho Hc]].
  rewrite bind_bind.
  rewrite (bind_Returns _ _ w o w) by (unfold instance; by rewrite Ho).
  rewrite List.map_app, app_assoc.
  destruct t as [c | c a' kids'].
  - rewrite Hc. rewrite bool_decide_eq_false_2 by (by intros [? ?]).
    rewrite (bind_Returns _ _ w (acc ++ [Ref c]) w) by reflexivity.
    by apply IH.
  - rewrite Hc. rewrite bool_decide_eq_true_2 by eauto.
    cbn [at_loc]. rewrite bind_bind.
    rewrite (bind_Returns _ _ _ _ _ (IHn c a' kids' Ht Hdt)).
    rewrite (bind_Returns _ _ w (acc ++ List.map Ref (leaf_locs (NestedAt c a' kids'))) w)
      by reflexivity.
    by apply IH.
Qed.

(** X15.  [getAllComponents] (given fuel for the depth of the tree)
    returns the leaves of the tree below the container, in collection
    order, and leaves the store as it is: every NestedComponent, at any
    depth, is replaced by what is below it, so that none appears in the
    result and one without children contributes nothing. *)
Theorem getAllComponents_returns_the_leaves (w : World) (this a : loc)
    (kids : list Shape) (fuel : nat) :
  represents w (NestedAt this a kids) = true ->
  depth (NestedAt this a kids) < fuel ->
  getAllComponents fuel this w =
    Returns (List.map Ref (leaf_locs (NestedAt this a kids))) w
  /\ Forall (fun c => exists o, objects w !! c = Some o /\ components o = None)
       (leaf_locs (NestedAt this a kids)).
Proof.
  intros Hrep Hdepth. split; [| by apply leaf_locs_are_leaves].
  by apply (getAllComponents_leaves_eq w this a kids fuel).
Qed.

Lemma reduce_leaf_errors `{Reports} w n (found : loc -> option (list value)) (l : list loc) :
  Forall (fun c => (exists o, objects w !! c = Some o /\ components o = None) /\
                   leaf_errors c w = Returns (found c) w) l ->
  forall acc,
    reduce (fun collected comp =>
              let* o := deref comp in
              let* found :=
                (if bool_decide (is_Some (Store.components o)) then
                   match comp with
                   | Ref c => let* es := errors n c in ret (Some es)
                   | _ => throw
                   end
                 else
                   match comp with
                   | Ref c => leaf_errors c
                   | _ => throw
                   end) in
              ret (collected ++ default [] found))
      (List.map Ref l) acc w =
    Returns (acc ++ flat_map (fun c => default [] (found c)) l) w.
Proof.
  induction 1 as [| c rest [(o & Ho & Hc) Hfound] _ IH]; intros acc.
  - cbn. by rewrite app_nil_r.
  - cbn [List.map reduce flat_map]. rewrite !bind_bind.
    rewrite (bind_Returns _ _ w o w) by (unfold deref, instance; by rewrite Ho).
    rewrite Hc. rewrite bool_decide_eq_false_2 by (by intros [? ?]).
    rewrite bind_bind, (bind_Returns _ _ _ _ _ Hfound).
    rewrite (bind_Returns _ _ w (acc ++ default [] (found c)) w) by reflexivity.
    rewrite IH. by rewrite app_assoc.
Qed.

(** X16.  The [errors] getter (given fuel for the depth of the tree)
    returns the errors of the leaves below the container, concatenated
    in the order of [getAllComponents], a leaf whose own [errors] is
    falsy contributing none; this for leaves whose getter reads without
    writing. *)
Theorem errors_concatenates_the_leaves `{Reports} (w : World) (this a : loc)
    (kids : list Shape) (fuel : nat) (found : loc -> option (list value)) :
  represents w (NestedAt this a kids) = true ->
  depth (NestedAt this a kids) < fuel ->
  Forall (fun c => leaf_errors c w = Returns (found c) w)
    (leaf_locs (NestedAt this a kids)) ->
  errors fuel this w =
  Returns (flat_map (fun c => default [] (found c)) (leaf_locs (NestedAt this a kids))) w.
Proof.
  intros Hrep Hdepth Hfound. destruct fuel as [| n]; [lia |].
  cbn [errors].
  rewrite (bind_Returns _ _ _ _ _
             (getAllComponents_leaves_eq w this a kids (S n) Hrep Hdepth)).
  apply (reduce_leaf_errors w n found). apply Forall_and.
  split; [by apply leaf_locs_are_leaves | exact Hfound].
Qed.

End Flatten.

Section Teardown.
Import Js Store.

Lemma well_ranked_ranked rank w : well_ranked rank w = true -> ranked rank w.
Proof.
  intros Hwell c o a Ho Ha. unfold well_ranked in Hwell.
  rewrite forallb_forall in Hwell.
  specialize (Hwell (c, o)). cbv beta iota in Hwell. rewrite Ha in Hwell.
  assert (Hin : In (c, o) (map_to_list (objects w)))
    by (by apply list_elem_of_In, elem_of_map_to_list).
  specialize (Hwell Hin).
  destruct (arrays w !! a) as [l |]; [| discriminate].
  exists l. split; [reflexivity |]. intros x Hx.
  rewrite forallb_forall in Hwell.
  specialize (Hwell x (proj1 (list_elem_of_In _ _) Hx)).
  apply andb_true_iff in Hwell as [Hobj Hrank].
  split; [by apply bool_decide_eq_true in Hobj | by apply Nat.ltb_lt].
Qed.

Lemma persists_refl w : persists w w.
Proof.
  split.
  - intros c o Ho. exists o. by repeat split.
  - intros a l Ha. exists l. by split.
Qed.

Lemma persists_trans w1 w2 w3 : persists w1 w2 -> persists w2 w3 -> persists w1 w3.
Proof.
  intros [Ho12 Ha12] [Ho23 Ha23]. split.
  - intros c o Ho. destruct (Ho12 c o Ho) as (o2 & Ho2 & Hid2 & He2 & Hs2 & Hc2).
    destruct (Ho23 c o2 Ho2) as (o3 & Ho3 & Hid3 & He3 & Hs3 & Hc3).
    exists o3. repeat split; try congruence; tauto.
  - intros a l Ha. destruct (Ha12 a l Ha) as (l2 & Hl2 & Hsub2).
    destruct (Ha23 a l2 Hl2) as (l3 & Hl3 & Hsub3).
    exists l3. split; [done |]. auto.
Qed.

Lemma persists_same w w' :
  objects w' = objects w -> arrays w' = arrays w -> persists w w'.
Proof.
  intros Hobj Harr. split.
  - intros c o Ho. exists o. rewrite Hobj. by repeat split.
  - intros a l Ha. exists l. rewrite Harr. by split.
Qed.

Lemma ranked_same rank w w' :
  objects w' = objects w -> arrays w' = arrays w -> ranked rank w -> ranked rank w'.
Proof.
  intros Hobj Harr Hr c o a Ho Ha. rewrite Hobj in Ho.
  destruct (Hr c o a Ho Ha) as (l & Hl & Hall). exists l. rewrite Harr. split; [done |].
  intros x Hx. rewrite Hobj. by apply Hall.
Qed.

(** Writing a part of what it held into an array. *)
Lemma ranked_shrink rank w a l l' :
  ranked rank w -> arrays w !! a = Some l -> (forall x, x ∈ l' -> x ∈ l) ->
  ranked rank (with_arrays <[a := l']> w).
Proof.
  intros Hr Hl Hsub c o a0 Ho Ha0. cbn [with_arrays objects arrays] in *.
  destruct (Hr c o a0 Ho Ha0) as (l0 & Hl0 & Hall).
  destruct (decide (a0 = a)) as [-> | Hne].
  - exists l'. rewrite lookup_insert_eq. split; [done |]. intros x Hx.
    apply Hall. rewrite Hl in Hl0. injection Hl0 as <-. by apply Hsub.
  - exists l0. rewrite lookup_insert_ne by done. by split.
Qed.

Lemma persists_shrink w a l l' :
  arrays w !! a = Some l -> (forall x, x ∈ l' -> x ∈ l) ->
  persists w (with_arrays <[a := l']> w).
Proof.
  intros Hl Hsub. split.
  - intros c o Ho. exists o. by repeat split.
  - intros a0 l0 Ha0. cbn [with_arrays arrays].
    destruct (decide (a0 = a)) as [-> | Hne].
    + exists l'. rewrite lookup_insert_eq. split; [done |].
      rewrite Hl in Ha0. by injection Ha0 as <-.
    + exists l0. rewrite lookup_insert_ne by done. by split.
Qed.

Section Recursion.
Context `{External} (rank : loc -> nat).
Hypothesis quiet : teardown_keeps_store.

(** Detaching the element of a component, when it has one that is
    attached. *)
Lemma detach_total (o : Instance) w :
  exists w',
    (match element o with
     | Some element =>
         let* p := gets (fun w => parentNode w !! element) in
         match p with
         | Some container => removeChildFrom element container
         | None => ret tt
         end
     | None => ret tt
     end) w = Returns tt w' /\
    objects w' = objects w /\ arrays w' = arrays w /\
    forall e, element o = Some e -> parentNode w' !! e = None.
Proof.
  destruct (element o) as [e |]; [| by exists w].
  unfold bind, gets. destruct (parentNode w !! e) as [container |] eqn:Hp.
  - eexists. split; [reflexivity |]. cbn. repeat split.
    intros e' [= <-]. apply lookup_delete_eq.
  - exists w. repeat split. by intros e' [= <-].
Qed.

Lemma removeComponent_with_total d bound this x a w l :
  tears_down rank d bound ->
  ranked rank w -> is_Some (objects w !! x) -> rank x < bound ->
  arrays w !! a = Some l ->
  exists w' ox l',
    removeComponent_with d this x (Ref a) w = Returns tt w' /\
    ranked rank w' /\ persists w w' /\
    objects w' !! x = Some ox /\ arrays w' !! a = Some l' /\
    (forall y, y ∈ l' -> y ∈ l /\ id_of w' y <> Some (id ox)) /\
    (forall e, element ox = Some e -> parentNode w' !! e = None) /\
    spares rank x w w'.
Proof.
  intros Hd Hr [o Ho] Hrank Hl. unfold removeComponent_with.
  rewrite (bind_Returns _ _ w (Ref a) w) by reflexivity.
  destruct (Hd x w Hr (ex_intro _ o Ho) Hrank) as (w1 & Hrun & Hr1 & Hp1 & Hs1).
  rewrite (bind_Returns _ _ _ _ _ Hrun).
  destruct (proj1 Hp1 x o Ho) as (ox & Hox & _).
  destruct (proj2 Hp1 a l Hl) as (l1 & Hl1 & Hsub1).
  rewrite (bind_Returns _ _ w1 ox w1) by (unfold instance; by rewrite Hox).
  destruct (detach_total ox w1) as (w2 & Hdetach & Hobj2 & Harr2 & Hgone).
  rewrite (bind_Returns _ _ _ _ _ Hdetach).
  rewrite (bind_Returns _ _ w2 ox w2) by (unfold instance; by rewrite Hobj2, Hox).
  unfold remove_by_id.
  rewrite (bind_Returns _ _ w2 l1 w2) by (unfold array; by rewrite Harr2, Hl1).
  rewrite (bind_Returns _ _ w2 w2 w2) by reflexivity.
  set (l' := List.filter (fun c => negb (bool_decide (id_of w2 c = Some (id ox)))) l1).
  assert (Hsub : forall y, y ∈ l' -> y ∈ l1).
  { intros y Hy. apply list_elem_of_In in Hy. apply filter_In in Hy as [Hy _].
    by apply list_elem_of_In. }
  rewrite (write_array_Returns w2 a l1 l') by (by rewrite Harr2).
  exists (with_arrays <[a := l']> w2), ox, l'. split; [reflexivity |].
  assert (Hr2 : ranked rank w2) by (by apply (ranked_same rank w1)).
  split; [apply (ranked_shrink rank w2 a l1); [done | by rewrite Harr2 | done] |].
  split.
  { eapply persists_trans; [exact Hp1 |].
    eapply persists_trans; [by apply (persists_same w1 w2) |].
    apply (persists_shrink w2 a l1); [by rewrite Harr2 | done]. }
  cbn [with_arrays objects arrays parentNode]. rewrite lookup_insert_eq.
  split; [by rewrite Hobj2 |]. split; [reflexivity |].
  split; [| split; [exact Hgone |]].
  - intros y Hy. split; [by apply Hsub1, Hsub |].
    apply list_elem_of_In, filter_In in Hy as [_ Hy].
    apply negb_true_iff, bool_decide_eq_false in Hy. exact Hy.
  - intros c Hc. rewrite <- (Hs1 c Hc). unfold collection_of.
    cbn [with_arrays objects]. by rewrite Hobj2.
Qed.

Lemma spares_trans x y w1 w2 w3 c :
  spares rank x w1 w2 -> spares rank y w2 w3 -> rank x < rank c -> rank y < rank c ->
  collection_of w3 c = collection_of w1 c.
Proof. intros H12 H23 Hx Hy. by rewrite (H23 c Hy), (H12 c Hx). Qed.

(** The loop of [destroyComponents] over a snapshot [comps] of the
    collection: when what the collection [a] still holds is in the
    snapshot, nothing is left in it. *)
Lemma removal_loop d bound this a (comps : list loc) :
  tears_down rank d bound ->
  forall w l,
    ranked rank w ->
    collection_of w this = Some a -> arrays w !! a = Some l ->
    (forall y, y ∈ l -> y ∈ comps) ->
    (forall x, x ∈ comps -> is_Some (objects w !! x) /\ rank x < bound /\ rank x < rank this) ->
    exists w',
      forEach (fun comp =>
                 let* a := getComponents this in
                 removeComponent_with d this comp (Ref a)) comps w = Returns tt w' /\
      ranked rank w' /\ persists w w' /\
      collection_of w' this = Some a /\ arrays w' !! a = Some [] /\
      (forall c, rank this <= rank c -> collection_of w' c = collection_of w c).
Proof.
  intros Hd. induction comps as [| x rest IH]; intros w l Hr Hthis Hl Hsnap Hall.
  { exists w. split; [reflexivity |]. split; [done |]. split; [apply persists_refl |].
    split; [done |]. split; [| done]. destruct l as [| y l]; [done |].
    destruct (not_elem_of_nil y). apply Hsnap. by left. }
  cbn [forEach].
  rewrite bind_bind.
  assert (Hget : forall w a, collection_of w this = Some a ->
                   getComponents this w = Returns a w).
  { intros w0 a0. unfold collection_of, getComponents, bind, instance.
    destruct (objects w0 !! this) as [o |]; [| done]. cbn. by intros ->. }
  rewrite (bind_Returns _ _ w a w) by (by apply Hget).
  destruct (Hall x ltac:(apply elem_of_cons; by left)) as (Hx & Hbound & Hrank).
  destruct (removeComponent_with_total d bound this x a w l Hd Hr Hx Hbound Hl)
    as (w1 & ox & l' & Hrun & Hr1 & Hp1 & Hox & Hl' & Hids & _ & Hs1).
  rewrite (bind_Returns _ _ _ _ _ Hrun).
  destruct (IH w1 l' Hr1) as (w2 & Hrun2 & Hr2 & Hp2 & Hthis2 & Hempty & Hs2).
  - by rewrite (Hs1 this Hrank).
  - exact Hl'.
  - intros y Hy. destruct (Hids y Hy) as [Hyl Hid].
    apply Hsnap, elem_of_cons in Hyl as [-> | Hrest]; [| done].
    destruct Hid. unfold id_of. by rewrite Hox.
  - intros y Hy.
    destruct (Hall y ltac:(apply elem_of_cons; by right)) as ([oy Hoy] & Hby & Hry).
    split; [| done]. destruct (proj1 Hp1 y oy Hoy) as (oy1 & Hoy1 & _). eauto.
  - exists w2. split; [exact Hrun2 |]. split; [done |].
    split; [by eapply persists_trans |]. split; [done |]. split; [done |].
    intros c Hc. rewrite (Hs2 c Hc). apply Hs1. lia.
Qed.

Lemma fresh_array w : arrays w !! fresh (dom (arrays w)) = None.
Proof. apply not_elem_of_dom, is_fresh. Qed.

(** Giving the container a new, empty collection and an empty [hidden]
    list. *)
Lemma reset_total this w o :
  ranked rank w -> objects w !! this = Some o -> is_Some (components o) ->
  exists w',
    (let* a := new_array in
     update this (set_components (Some a)) ;;
     update this (set_hidden (Some []))) w = Returns tt w' /\
    ranked rank w' /\ persists w w' /\ emptied w this w' /\
    (forall a l, arrays w !! a = Some l -> arrays w' !! a = Some l) /\
    (forall c, c <> this -> collection_of w' c = collection_of w c).
Proof.
  intros Hr Ho Hnested.
  set (a' := fresh (dom (arrays w))).
  assert (Hfresh : arrays w !! a' = None) by apply fresh_array.
  set (o' := set_hidden (Some []) (set_components (Some a') o)).
  exists (with_objects <[this := o']> (with_arrays <[a' := []]> w)).
  split.
  { unfold new_array. fold a'.
    rewrite (bind_Returns _ _ w a' (with_arrays <[a' := []]> w)) by reflexivity.
    rewrite (bind_Returns _ _ _ tt
               (with_objects <[this := set_components (Some a') o]>
                  (with_arrays <[a' := []]> w)))
      by (by apply update_Returns).
    rewrite (update_Returns _ this (set_components (Some a') o))
      by (cbn [with_objects with_arrays objects]; apply lookup_insert_eq).
    unfold with_objects, with_arrays. cbn [objects arrays parentNode effects].
    by rewrite insert_insert_eq. }
  cbn [with_objects with_arrays objects arrays].
  assert (Hemptied : emptied w this (with_objects <[this := o']> (with_arrays <[a' := []]> w))).
  { exists o', a'. cbn [with_objects with_arrays objects arrays].
    rewrite !lookup_insert_eq. by repeat split. }
  split; [| split; [| split; [exact Hemptied | split]]].
  3: { intros a l Ha. rewrite lookup_insert_ne; [done | congruence]. }
  3: { intros c Hne. unfold collection_of. cbn [with_objects with_arrays objects].
       by rewrite lookup_insert_ne. }
  - intros c oc a Hoc Ha. cbn [with_objects with_arrays objects arrays] in *.
    destruct (decide (c = this)) as [-> | Hne].
    + rewrite lookup_insert_eq in Hoc. injection Hoc as <-. cbn in Ha. injection Ha as <-.
      exists []. rewrite lookup_insert_eq. split; [done |]. intros x Hx.
      by apply elem_of_nil in Hx.
    + rewrite lookup_insert_ne in Hoc by done.
      destruct (Hr c oc a Hoc Ha) as (l & Hl & Hall).
      exists l. rewrite lookup_insert_ne by congruence. split; [done |].
      intros x Hx. destruct (Hall x Hx) as [Hsome Hrank]. split; [| done].
      destruct (decide (x = this)) as [-> | Hnx];
        [rewrite lookup_insert_eq | rewrite lookup_insert_ne by done]; eauto.
  - split.
    + intros c oc Hoc. cbn [with_objects with_arrays objects arrays].
      destruct (decide (c = this)) as [-> | Hne].
      * exists o'. rewrite lookup_insert_eq. rewrite Ho in Hoc. injection Hoc as <-.
        repeat split; eauto.
      * exists oc. rewrite lookup_insert_ne by done. by repeat split.
    + intros a l Ha. cbn [with_objects with_arrays objects arrays].
      exists l. rewrite lookup_insert_ne by congruence. by split.
Qed.

Lemma emptied_since w0 w1 this w' :
  persists w0 w1 -> emptied w1 this w' -> emptied w0 this w'.
Proof.
  intros Hp (o & a & Ho & Ha & Hempty & Hfresh & Hhidden).
  exists o, a. repeat split; try done.
  destruct (arrays w0 !! a) as [l |] eqn:Hl; [| done].
  destruct (proj2 Hp a l Hl) as (l' & Hl' & _). congruence.
Qed.

Lemma destroyComponents_with_total d bound this w o a :
  tears_down rank d bound ->
  ranked rank w -> objects w !! this = Some o -> components o = Some a ->
  rank this <= bound ->
  exists w',
    destroyComponents_with d this w = Returns tt w' /\
    ranked rank w' /\ persists w w' /\ emptied w this w' /\
    arrays w' !! a = Some [] /\ spares rank this w w'.
Proof.
  intros Hd Hr Ho Ha Hbound. unfold destroyComponents_with.
  rewrite (bind_Returns _ _ w a w)
    by (unfold getComponents, bind, instance; by rewrite Ho, Ha).
  destruct (Hr this o a Ho Ha) as (l & Hl & Hall).
  rewrite (bind_Returns _ _ w l w) by (unfold array; by rewrite Hl).
  assert (Hthis : collection_of w this = Some a) by (unfold collection_of; by rewrite Ho).
  destruct (removal_loop d bound this a l Hd w l Hr Hthis Hl)
    as (w1 & Hloop & Hr1 & Hp1 & Hthis1 & Hempty1 & Hs1); [done | |].
  { intros x Hx. destruct (Hall x Hx). split; [done |]. split; [lia | done]. }
  rewrite (bind_Returns _ _ _ _ _ Hloop).
  destruct (proj1 Hp1 this o Ho) as (o1 & Ho1 & _ & _ & _ & Hnested).
  destruct (reset_total this w1 o1 Hr1 Ho1 ltac:(apply Hnested; eauto))
    as (w2 & Hreset & Hr2 & Hp2 & Hemptied & Harrays & Hothers).
  exists w2. split; [exact Hreset |]. split; [done |].
  split; [by eapply persists_trans |]. split; [by eapply emptied_since |].
  split; [by apply Harrays |].
  intros c Hc. rewrite Hothers by (intros ->; lia). apply Hs1. lia.
Qed.

Lemma destroy_tears_down fuel : forall all, tears_down rank (fun c => destroy fuel c all) fuel.
Proof.
  induction fuel as [| n IHn]; intros all x w Hr [o Ho] Hrank; [lia |].
  cbn [destroy].
  rewrite (bind_Returns _ _ w o w) by (unfold instance; by rewrite Ho).
  destruct (quiet x all w) as (w1 & Hbase & Hobj & Harr).
  rewrite (bind_Returns _ _ _ _ _ Hbase).
  assert (Hr1 : ranked rank w1) by (by apply (ranked_same rank w)).
  assert (Hp1 : persists w w1) by (by apply persists_same).
  assert (Hsame : forall c, collection_of w1 c = collection_of w c)
    by (intros c; unfold collection_of; by rewrite Hobj).
  destruct (components o) as [a |] eqn:Ha.
  - assert (Ho1 : objects w1 !! x = Some o) by (by rewrite Hobj).
    assert (Hle : rank x <= n) by lia.
    destruct (destroyComponents_with_total (fun c => destroy n c Undefined) n x w1 o a
                (IHn Undefined) Hr1 Ho1 Ha Hle)
      as (w2 & Hrun & Hr2 & Hp2 & _ & _ & Hs2).
    exists w2. split; [exact Hrun |]. split; [done |].
    split; [by eapply persists_trans |].
    intros c Hc. by rewrite (Hs2 c Hc).
  - exists w1. split; [reflexivity |]. split; [assumption |]. split; [assumption |].
    intros c _. apply Hsame.
Qed.

End Recursion.

Lemma teardown_total `{External} (rank : loc -> nat) (fuel : nat)
    (this : loc) (all : value) (w : World) (o : Instance) (a : loc) :
  teardown_keeps_store ->
  ranked rank w ->
  objects w !! this = Some o -> components o = Some a ->
  rank this < fuel ->
  (exists w',
     destroyComponents fuel this w = Returns tt w' /\
     emptied w this w' /\ ranked rank w' /\ persists w w' /\ arrays w' !! a = Some [])
  /\ (exists w',
        destroy fuel this all w = Returns tt w' /\
        emptied w this w' /\ ranked rank w' /\ persists w w' /\ arrays w' !! a = Some []).
Proof.
  intros Hquiet Hwell Ho Ha Hrank. split.
  - assert (Hle : rank this <= fuel) by lia.
    destruct (destroyComponents_with_total rank (fun c => destroy fuel c Undefined) fuel
                this w o a (destroy_tears_down rank Hquiet fuel Undefined) Hwell Ho Ha
                Hle) as (w' & Hrun & Hr & Hp & He & Hold & _).
    exists w'. split; [exact Hrun |]. split; [exact He |].
    split; [exact Hr |]. split; [exact Hp | exact Hold].
  - destruct fuel as [| n]; [lia |]. cbn [destroy].
    rewrite (bind_Returns _ _ w o w) by (unfold instance; by rewrite Ho).
    destruct (Hquiet this all w) as (w1 & Hbase & Hobj & Harr).
    rewrite (bind_Returns _ _ _ _ _ Hbase).
    assert (Ho1 : objects w1 !! this = Some o) by (by rewrite Hobj).
    assert (Hle : rank this <= n) by lia.
    destruct (destroyComponents_with_total rank (fun c => destroy n c Undefined) n
                this w1 o a (destroy_tears_down rank Hquiet n Undefined)
                (ranked_same rank w w1 Hobj Harr Hwell) Ho1 Ha Hle)
      as (w' & Hrun & Hr & Hp & He & Hold & _).
    rewrite Ha.
    exists w'. split; [exact Hrun |].
    split; [eapply emptied_since; [by apply (persists_same w w1) | done] |].
    split; [done |]. split; [| done].
    eapply persists_trans; [by apply persists_same | done].
Qed.

(** X17.  Let the teardown of the base class leave the components and
    the arrays of the store as they were.  On a store that is ranked
    (every collection holds existing components, none inside itself),
    [destroyComponents] and [destroy], given fuel for the rank of the
    container, return; the container then has a collection, which is
    empty and is a new array, and an empty [hidden] list; every component
    of the store is still there and the store is still ranked. *)
Theorem destroy_empties_the_container `{External} (rank : loc -> nat) (fuel : nat)
    (this : loc) (all : value) (w : World) (o : Instance) :
  teardown_keeps_store ->
  well_ranked rank w = true ->
  objects w !! this = Some o -> is_Some (components o) ->
  rank this < fuel ->
  (exists w',
     destroyComponents fuel this w = Returns tt w' /\
     emptied w this w' /\ ranked rank w' /\ persists w w')
  /\ (exists w',
        destroy fuel this all w = Returns tt w' /\
        emptied w this w' /\ ranked rank w' /\ persists w w').
Proof.
  intros Hquiet Hwell Ho [a Ha] Hrank.
  apply well_ranked_ranked in Hwell.
  destruct (teardown_total rank fuel this all w o a Hquiet Hwell Ho Ha Hrank)
    as [(w1 & Hrun1 & He1 & Hr1 & Hp1 & _) (w2 & Hrun2 & He2 & Hr2 & Hp2 & _)].
  split; [exists w1 | exists w2];
    (split; [assumption |]); (split; [assumption |]); split; assumption.
Qed.

(** X28.  Under the same conditions, the array that was the collection
    of the container is emptied in place by [destroyComponents] and by
    [destroy], and is no longer the collection of the container: whoever
    else holds that array (the options it was taken from by
    [addComponents], a caller of [getComponents]) finds it empty
    afterwards. *)
Theorem destroy_empties_the_old_collection `{External} (rank : loc -> nat) (fuel : nat)
    (this : loc) (all : value) (w : World) (o : Instance) (a : loc) :
  teardown_keeps_store ->
  well_ranked rank w = true ->
  objects w !! this = Some o -> components o = Some a ->
  rank this < fuel ->
  (exists w',
     destroyComponents fuel this w = Returns tt w' /\
     arrays w' !! a = Some [] /\ collection_of w' this <> Some a)
  /\ (exists w',
        destroy fuel this all w = Returns tt w' /\
        arrays w' !! a = Some [] /\ collection_of w' this <> Some a).
Proof.
  intros Hquiet Hwell Ho Ha Hrank.
  apply well_ranked_ranked in Hwell.
  destruct (Hwell this o a Ho Ha) as (l & Hl & _).
  assert (Hnew : forall w', emptied w this w' -> collection_of w' this <> Some a).
  { intros w' (o' & a' & Ho' & Ha' & _ & Hfresh & _). unfold collection_of.
    rewrite Ho'. cbn. rewrite Ha'. intros [= ->]. congruence. }
  destruct (teardown_total rank fuel this all w o a Hquiet Hwell Ho Ha Hrank)
    as [(w1 & Hrun1 & He1 & _ & _ & Hold1) (w2 & Hrun2 & He2 & _ & _ & Hold2)].
  split; [exists w1 | exists w2]; (split; [assumption |]); split; auto.
Qed.

(** X18.  Under the same conditions, [removeComponent] of a component
    from a collection returns; afterwards the collection holds nothing
    that it did not hold and no entry with the [id] of the component, and
    the element of the component, when it has one, has no parent node;
    when the component is not a NestedComponent, the collection is exactly
    what it was without the entries that have this [id]. *)
Theorem removeComponent_unlinks `{External} (rank : loc -> nat) (fuel : nat)
    (this component a : loc) (w : World) (o : Instance) (l : list loc) :
  teardown_keeps_store ->
  well_ranked rank w = true ->
  objects w !! component = Some o ->
  rank component < fuel ->
  arrays w !! a = Some l ->
  exists w' l',
    removeComponent fuel this component (Ref a) w = Returns tt w' /\
    arrays w' !! a = Some l' /\
    (forall y, y ∈ l' -> y ∈ l /\ id_of w' y <> Some (id o)) /\
    (forall e, element o = Some e -> parentNode w' !! e = None) /\
    (components o = None ->
     l' = List.filter (fun y => negb (bool_decide (id_of w y = Some (id o)))) l).
Proof.
  intros Hquiet Hwell Ho Hrank Hl. apply well_ranked_ranked in Hwell.
  destruct (removeComponent_with_total rank (fun c => destroy fuel c Undefined) fuel
              this component a w l (destroy_tears_down rank Hquiet fuel Undefined)
              Hwell (ex_intro _ o Ho) Hrank Hl)
    as (w' & ox & l' & Hrun & _ & Hp & Hox & Hl' & Hids & Hgone & _).
  destruct (proj1 Hp component o Ho) as (o' & Ho' & Hid & Helement & _).
  rewrite Hox in Ho'. injection Ho' as <-.
  exists w', l'. split; [exact Hrun |]. split; [exact Hl' |].
  split; [by rewrite <- Hid |]. split; [by rewrite <- Helement |].
  intros Hleaf. unfold removeComponent, removeComponent_with in Hrun.
  rewrite (bind_Returns _ _ w (Ref a) w) in Hrun by reflexivity.
  destruct fuel as [| n]; [lia |]. cbn [destroy] in Hrun.
  rewrite !bind_bind in Hrun.
  rewrite (bind_Returns _ _ w o w) in Hrun by (unfold instance; by rewrite Ho).
  destruct (Hquiet component Undefined w) as (w1 & Hbase & Hobj1 & Harr1).
  rewrite bind_bind, (bind_Returns _ _ _ _ _ Hbase), Hleaf in Hrun.
  rewrite (bind_Returns _ _ w1 tt w1) in Hrun by reflexivity.
  rewrite (bind_Returns _ _ w1 o w1) in Hrun by (unfold instance; by rewrite Hobj1, Ho).
  destruct (detach_total o w1) as (w2 & Hdetach & Hobj2 & Harr2 & _).
  rewrite (bind_Returns _ _ _ _ _ Hdetach) in Hrun.
  rewrite (bind_Returns _ _ w2 o w2) in Hrun
    by (unfold instance; by rewrite Hobj2, Hobj1, Ho).
  unfold remove_by_id in Hrun.
  rewrite (bind_Returns _ _ w2 l w2) in Hrun
    by (unfold array; by rewrite Harr2, Harr1, Hl).
  rewrite (bind_Returns _ _ w2 w2 w2) in Hrun by reflexivity.
  rewrite (write_array_Returns w2 a l) in Hrun by (by rewrite Harr2, Harr1).
  injection Hrun as <-. cbn [with_arrays arrays] in Hl'.
  rewrite lookup_insert_eq in Hl'. injection Hl' as <-.
  unfold id_of. by rewrite Hobj2, Hobj1.
Qed.

End Teardown.

Section TeardownExamples.
Import Js Store.

(** X15 on the deep form: the field in the panel, then the field after
    the panel; the panel itself is not in the result. *)
Lemma getAllComponents_witness :
  getAllComponents 3 0 Fixture.deep = Returns [Ref 3; Ref 2] Fixture.deep.
Proof.
  apply (proj1 (getAllComponents_returns_the_leaves Fixture.deep 0 10
                  [NestedAt 1 11 [LeafAt 3]; LeafAt 2] 3
                  ltac:(vm_compute; reflexivity) ltac:(vm_compute; lia))).
Defined.

(** X16 on the deep form, where only the field in the panel has an
    error. *)
Lemma errors_witness :
  errors (H := Fixture.reports) 3 0 Fixture.deep = Returns [Num 7] Fixture.deep.
Proof.
  apply (errors_concatenates_the_leaves (H := Fixture.reports) Fixture.deep 0 10
           [NestedAt 1 11 [LeafAt 3]; LeafAt 2] 3
           (fun c => if bool_decide (c = 3) then Some [Num 7] else None)
           ltac:(vm_compute; reflexivity) ltac:(vm_compute; lia)).
  repeat constructor.
Defined.

Lemma collaborators_keep_store not_shown :
  teardown_keeps_store (H := Fixture.collaborators not_shown).
Proof. intros c all w. eexists. split; [reflexivity |]. split; reflexivity. Qed.

(** X17 on the deep form: the form is left with a new, empty
    collection. *)
Lemma destroy_witness :
  exists w',
    destroy (H := Fixture.collaborators []) 3 0 Undefined Fixture.deep = Returns tt w'
    /\ emptied Fixture.deep 0 w'.
Proof.
  destruct (destroy_empties_the_container (H := Fixture.collaborators []) Fixture.rank_of
              3 0 Undefined Fixture.deep (Fixture.container "form" "form" 10 [])
              (collaborators_keep_store []) ltac:(vm_compute; reflexivity) eq_refl
              ltac:(by eexists) ltac:(vm_compute; lia))
    as [_ (w' & Hrun & Hemptied & _)].
  exists w'. by split.
Defined.

(** X18 on the flat form: the field [f2] is taken out of the
    collection. *)
Lemma removeComponent_witness :
  array_after (removeComponent (H := Fixture.collaborators []) 2 0 2 (Ref 10) Fixture.flat) 10 =
  Some [1; 3].
Proof.
  destruct (removeComponent_unlinks (H := Fixture.collaborators []) Fixture.rank_of
              2 0 2 10 Fixture.flat (Fixture.field "f2" "b" (Some 2)) [1; 2; 3]
              (collaborators_keep_store []) ltac:(vm_compute; reflexivity) eq_refl
              ltac:(vm_compute; lia) eq_refl)
    as (w' & l' & Hrun & Hl' & _ & _ & Hleaf).
  rewrite Hrun. cbn [array_after]. rewrite Hl', (Hleaf eq_refl).
  vm_compute. reflexivity.
Defined.

(** X28 on the deep form: the array [10], which held the panel and
    the field after it, is empty after [destroyComponents]. *)
Lemma old_collection_witness :
  array_after (destroyComponents (H := Fixture.collaborators []) 3 0 Fixture.deep) 10 =
  Some [].
Proof.
  destruct (destroy_empties_the_old_collection (H := Fixture.collaborators [])
              Fixture.rank_of 3 0 Undefined Fixture.deep
              (Fixture.container "form" "form" 10 []) 10
              (collaborators_keep_store []) ltac:(vm_compute; reflexivity) eq_refl
              eq_refl ltac:(vm_compute; lia))
    as [(w' & Hrun & Hold & _) _].
  rewrite Hrun. exact Hold.
Defined.

End TeardownExamples.

(** * Facts about the visibility cascade *)

Section Cascade.
Import Js Store.
Context `{External} (hidden0 : option (list string)).
Hypothesis setter : setter_keeps_tree.
Hypothesis reads : condition_reads.

Lemma arrayEach_preserves {V} (P : World -> Prop)
    (it : value -> nat -> V -> M (value * V)) (a : loc) :
  (forall x i s w r w', P w -> it x i s w = Returns r w' -> P w') ->
  forall remaining index s w s' w',
    P w -> arrayEach it a index remaining s w = Returns s' w' -> P w'.
Proof.
  intros Hit. induction remaining as [| n IH]; intros index s w s' w' Hw Hrun.
  - by injection Hrun as <- <-.
  - cbn [arrayEach] in Hrun. unfold bind at 1 in Hrun.
    destruct (array a w) as [l w0 | |] eqn:Hl; [| done..].
    apply array_inv in Hl as [_ ->].
    unfold bind at 1 in Hrun.
    destruct (it _ index s w) as [[r s1] w1 | |] eqn:Hstep; [| done..].
    pose proof (Hit _ _ _ _ _ _ Hw Hstep) as Hw1.
    destruct (is_false r); [by injection Hrun as <- <- |].
    by apply (IH _ _ _ _ _ Hw1 Hrun).
Qed.

Lemma instance_inv c w o w' :
  instance c w = Returns o w' -> objects w !! c = Some o /\ w' = w.
Proof.
  unfold instance. destruct (objects w !! c) as [o' |]; [| done]. by intros [= <- <-].
Qed.

Lemma has_children_inv o w b w' :
  has_children o w = Returns b w' -> w' = w.
Proof.
  unfold has_children. destruct (components o) as [a |]; [| by intros [= _ <-]].
  unfold bind, array. destruct (arrays w !! a); [| done]. by intros [= _ <-].
Qed.

Lemma update_arrays c f w u w' :
  update c f w = Returns u w' -> arrays w' = arrays w.
Proof. intros Hup. apply update_inv in Hup as (o & _ & ->). done. Qed.

Lemma assign_arrays c b w o u w' :
  objects w !! c = Some o -> assign_visible c b w = Returns u w' -> arrays w' = arrays w.
Proof.
  intros Ho Hrun. destruct (setter c b w (ex_intro _ o Ho)) as (w1 & Hset & [Harr _] & _).
  rewrite Hset in Hrun. by injection Hrun as _ <-.
Qed.

(** Whatever it is called on, [setHidden] leaves the arrays as they
    are. *)
Lemma setHidden_frame n :
  forall this c w u w', setHidden n this c w = Returns u w' -> arrays w' = arrays w.
Proof.
  induction n as [| n IHn]; intros this c w u w' Hrun; [done |].
  cbn [setHidden] in Hrun. unfold bind at 1 in Hrun.
  destruct (instance c w) as [o w0 | |] eqn:Ho; [| done..].
  apply instance_inv in Ho as [Ho ->].
  unfold bind at 1 in Hrun.
  destruct (has_children o w) as [nonempty w0 | |] eqn:Hne; [| done..].
  apply has_children_inv in Hne as ->.
  destruct nonempty.
  - unfold bind at 1 in Hrun.
    destruct (instance this w) as [t w0 | |] eqn:Ht; [| done..].
    apply instance_inv in Ht as [Ht ->].
    unfold hideComponents_with in Hrun. unfold bind at 1 in Hrun.
    destruct (update c (set_hidden (hidden t)) w) as [[] w1 | |] eqn:Hup; [| done..].
    apply update_arrays in Hup as Ha1.
    unfold bind at 1 in Hrun.
    destruct (eachComponent c _ tt w1) as [r w2 | |] eqn:Heach; [| done..].
    injection Hrun as Hw'. subst w'.
    rewrite <- Ha1.
    unfold eachComponent in Heach. unfold bind at 1 in Heach.
    destruct (getComponents c w1) as [a w0 | |] eqn:Hget; [| done..].
    apply getComponents_inv in Hget as (_ & _ & _ & ->).
    unfold bind at 1 in Heach.
    destruct (each a _ tt w1) as [s w3 | |] eqn:Hloop; [| done..].
    injection Heach as _ Hw. subst w2.
    unfold each in Hloop. unfold bind at 1 in Hloop.
    destruct (array a w1) as [l w0 | |] eqn:Hl; [| done..].
    apply array_inv in Hl as [_ ->].
    refine (arrayEach_preserves (fun w' => arrays w' = arrays w1) _ a _ _ _ _ _ _ _
              eq_refl Hloop).
    intros x i s0 wa r0 wb Ha Hstep.
    unfold bind at 1 in Hstep.
    destruct x as [| | | | | x]; try done.
    unfold bind at 1 in Hstep.
    destruct (setHidden n c x wa) as [[] wc | |] eqn:Hrec; [| done..].
    apply IHn in Hrec as Ha'.
    cbn in Hstep. injection Hstep as _ <-. by rewrite Ha'.
  - destruct (Schema.hidden (component o)); [exact (assign_arrays c false w o u w' Ho Hrun) |].
    unfold bind at 1 in Hrun.
    destruct (instance this w) as [t w0 | |] eqn:Ht; [| done..].
    apply instance_inv in Ht as [Ht ->].
    destruct (includes_key _ _); [exact (assign_arrays c false w o u w' Ho Hrun) |].
    unfold bind at 1 in Hrun.
    destruct (reads c w (ex_intro _ o Ho)) as [shown Hshown]. rewrite Hshown in Hrun.
    destruct (negb shown); [exact (assign_arrays c false w o u w' Ho Hrun) |].
    by injection Hrun as _ <-.
Qed.

(** *** What the cascade carries along *)

Lemma carries_refl w : carries hidden0 w w.
Proof. by repeat split. Qed.

Lemma carries_trans w1 w2 w3 :
  carries hidden0 w1 w2 -> carries hidden0 w2 w3 -> carries hidden0 w1 w3.
Proof.
  intros [[Ha12 Hc12] Hh12] [[Ha23 Hc23] Hh23]. split; [split |].
  - by rewrite Ha23.
  - intros x. by rewrite Hc23.
  - intros x Hx. by apply Hh23, Hh12.
Qed.

Lemma same_tree_represents w w' t :
  same_tree w w' -> represents w t = true -> represents w' t = true.
Proof.
  intros [Harr Hcomps]. induction t as [c | c a kids IH] using Shape_ind'; intros Hrep.
  - destruct (represents_instance _ _ Hrep) as [o [Ho Hleaf]]. cbn [represents at_loc] in *.
    specialize (Hcomps c). rewrite Ho in Hcomps.
    destruct (objects w' !! c) as [o' |]; [| done]. injection Hcomps as Hcomps.
    rewrite Hcomps, Hleaf. by apply bool_decide_eq_true.
  - destruct (represents_instance _ _ Hrep) as [o [Ho Ha]].
    destruct (represents_NestedAt _ _ _ _ Hrep) as [Harray Hkids].
    cbn [represents at_loc] in *.
    specialize (Hcomps c). rewrite Ho in Hcomps.
    destruct (objects w' !! c) as [o' |]; [| done]. injection Hcomps as Hcomps.
    rewrite Hcomps, Ha.
    rewrite (bool_decide_eq_true_2 (Some a = Some a)) by done.
    rewrite Harr, Harray. rewrite bool_decide_eq_true_2 by done. cbn [andb].
    apply forallb_forall. intros t Ht. apply list_elem_of_In in Ht.
    rewrite Forall_forall in IH, Hkids. by apply IH, Hkids.
Qed.

(** Handing the list to a component. *)
Lemma hand_over c o w :
  objects w !! c = Some o ->
  exists w',
    update c (set_hidden hidden0) w = Returns tt w' /\
    carries hidden0 w w' /\ hidden_at hidden0 w' c.
Proof.
  intros Ho. eexists. split; [by apply update_Returns |].
  unfold carries, same_tree, hidden_at. cbn [with_objects objects arrays].
  split; [split; [split; [reflexivity |] |] |].
  - intros x. destruct (decide (x = c)) as [-> | Hne];
      [by rewrite lookup_insert_eq, Ho | by rewrite lookup_insert_ne].
  - intros x. destruct (decide (x = c)) as [-> | Hne];
      [by rewrite lookup_insert_eq | by rewrite lookup_insert_ne].
  - by rewrite lookup_insert_eq.
Qed.

Lemma assign_carries c b o w :
  objects w !! c = Some o ->
  exists w', assign_visible c b w = Returns tt w' /\ carries hidden0 w w'.
Proof.
  intros Ho. destruct (setter c b w (ex_intro _ o Ho)) as (w' & Hrun & Htree & Hhidden).
  exists w'. split; [exact Hrun |]. split; [exact Htree |].
  intros x Hx. unfold hidden_at in *. by rewrite Hhidden.
Qed.

(** Rules 2 to 4 return. *)
Lemma settle_carries c o w :
  objects w !! c = Some o ->
  exists w', settle hidden0 c w = Returns tt w' /\ carries hidden0 w w'.
Proof.
  intros Ho. unfold settle.
  rewrite (bind_Returns _ _ w o w) by (unfold instance; by rewrite Ho).
  destruct (_ || _); [by apply (assign_carries c false o) |].
  destruct (reads c w (ex_intro _ o Ho)) as [shown Hshown].
  rewrite (bind_Returns _ _ _ _ _ Hshown).
  destruct shown; [| by apply (assign_carries c false o)].
  exists w. split; [reflexivity | apply carries_refl].
Qed.

(** [setHidden] on a component without children, under a parent that
    has the list: rules 2 to 4 against the list. *)
Lemma setHidden_cell n parent c w o :
  objects w !! c = Some o ->
  has_children o w = Returns false w ->
  hidden_at hidden0 w parent ->
  setHidden (S n) parent c w = settle hidden0 c w.
Proof.
  intros Ho Hleaf Hparent. unfold hidden_at in Hparent.
  destruct (objects w !! parent) as [p |] eqn:Hp; [| done]. injection Hparent as Hh.
  cbn [setHidden]. unfold settle.
  rewrite !(bind_Returns _ _ w o w) by (unfold instance; by rewrite Ho).
  rewrite (bind_Returns _ _ _ _ _ Hleaf).
  destruct (Schema.hidden (component o)); [reflexivity |]. cbn [orb].
  rewrite (bind_Returns _ _ w p w) by (unfold instance; by rewrite Hp).
  rewrite Hh. destruct (includes_key hidden0 _); [reflexivity |].
  destruct (reads c w (ex_intro _ o Ho)) as [shown Hshown].
  rewrite !(bind_Returns _ _ _ _ _ Hshown). by destruct shown.
Qed.

Lemma hidden_at_later w w' l :
  carries hidden0 w w' -> Forall (hidden_at hidden0 w) l -> Forall (hidden_at hidden0 w') l.
Proof. intros [_ Hh] Hl. eapply Forall_impl; [exact Hl | exact Hh]. Qed.

(** One level, given what is known one level down. *)
Lemma level_loop n c :
  cascades hidden0 n ->
  forall kids wk index,
    Forall (fun t => represents wk t = true) kids ->
    Forall (fun t => depth t < n) kids ->
    hidden_at hidden0 wk c ->
    exists w',
      each_until_false
        (fun component (_ : nat) (_ : unit) =>
           match component with
           | Ref c0 => setHidden n c c0 ;; ret (Undefined, tt)
           | _ => throw
           end) (List.map at_loc kids) index tt wk = Returns tt w' /\
      in_turn (cascade hidden0) kids wk = Returns tt w' /\
      carries hidden0 wk w' /\
      Forall (hidden_at hidden0 w') (flat_map holders kids).
Proof.
  intros Hn. induction kids as [| t rest IH]; intros wk index Hkids Hd Hc.
  { exists wk. split; [reflexivity |]. split; [reflexivity |].
    split; [apply carries_refl | constructor]. }
  apply Forall_cons in Hkids as [Ht Hrest]. apply Forall_cons in Hd as [Hdt Hdrest].
  cbn [List.map each_until_false in_turn flat_map].
  destruct (Hn c t wk Ht Hdt Hc) as (w1 & Hrun & Hspec & Hcar1 & Hheld1).
  rewrite bind_bind, (bind_Returns _ _ _ _ _ Hrun).
  rewrite (bind_Returns _ _ w1 (Undefined, tt) w1) by reflexivity.
  rewrite (bind_Returns _ _ _ _ _ Hspec).
  cbn [is_false].
  destruct (IH w1 (S index)) as (w2 & Hrun2 & Hspec2 & Hcar2 & Hheld2).
  - eapply Forall_impl; [exact Hrest |]. intros k Hk.
    by apply (same_tree_represents wk w1 k (proj1 Hcar1)).
  - exact Hdrest.
  - by apply (proj2 Hcar1).
  - exists w2. split; [exact Hrun2 |]. split; [exact Hspec2 |].
    split; [by eapply carries_trans |].
    apply Forall_app. split; [by apply (hidden_at_later w1) | exact Hheld2].
Qed.

Lemma level_cascade n :
  cascades hidden0 n ->
  forall c a kids wk,
    represents wk (NestedAt c a kids) = true ->
    Forall (fun t => depth t < n) kids ->
    exists w',
      hideComponents_with (setHidden n) c hidden0 wk = Returns tt w' /\
      (update c (set_hidden hidden0) ;; in_turn (cascade hidden0) kids) wk = Returns tt w' /\
      carries hidden0 wk w' /\
      Forall (hidden_at hidden0 w') (c :: flat_map holders kids).
Proof.
  intros Hn c a kids wk Hrep Hd.
  destruct (represents_instance _ _ Hrep) as [o [Ho Ha]]. cbn [at_loc] in Ho.
  destruct (represents_NestedAt _ _ _ _ Hrep) as [Harr Hkids].
  unfold hideComponents_with.
  destruct (hand_over c o wk Ho) as (w1 & Hup & Hcar1 & Hheld1).
  rewrite !(bind_Returns _ _ _ _ _ Hup).
  pose proof (same_tree_represents wk w1 _ (proj1 Hcar1) Hrep) as Hrep1.
  destruct (represents_instance _ _ Hrep1) as [o1 [Ho1 Ha1]]. cbn [at_loc] in Ho1.
  destruct (represents_NestedAt _ _ _ _ Hrep1) as [Harr1 Hkids1].
  destruct (level_loop n c Hn kids w1 0 Hkids1 Hd Hheld1) as (w2 & Hloop & Hspec & Hcar2 & Hheld2).
  exists w2. split; [| split; [exact Hspec | split; [by eapply carries_trans |]]].
  - unfold bind at 1.
    rewrite (eachComponent_each _ w1 c o1 a (List.map at_loc kids) tt Ho1 Ha1 Harr1).
    + by rewrite (bind_Returns _ _ _ _ _ Hloop).
    + intros x i s wa out wb Hwa Hstep. unfold bind at 1 in Hstep.
      destruct x as [| | | | | x]; try done.
      destruct (setHidden n c x wa) as [[] wc | |] eqn:Hrec; [| done..].
      apply setHidden_frame in Hrec as Ha'. cbn in Hstep.
      injection Hstep as _ <-. by rewrite Ha'.
  - constructor; [by apply (proj2 Hcar2) | exact Hheld2].
Qed.

Lemma cascades_all : forall n, cascades hidden0 n.
Proof.
  induction n as [| n IHn]; intros parent t wk Hrep Hdepth Hparent; [lia |].
  destruct (represents_instance _ _ Hrep) as [o [Ho Ha]].
  assert (Hleaflike :
            has_children o wk = Returns false wk ->
            cascade hidden0 t = settle hidden0 (at_loc t) -> holders t = [] ->
            exists w',
              setHidden (S n) parent (at_loc t) wk = Returns tt w' /\
              cascade hidden0 t wk = Returns tt w' /\
              carries hidden0 wk w' /\
              Forall (hidden_at hidden0 w') (holders t)).
  { intros Hno -> ->.
    rewrite (setHidden_cell n parent (at_loc t) wk o Ho Hno Hparent).
    destruct (settle_carries (at_loc t) o wk Ho) as (w' & Hrun & Hcar).
    exists w'. split; [exact Hrun |]. split; [exact Hrun |]. split; [exact Hcar | constructor]. }
  destruct t as [c | c a kids]; cbn [at_loc] in *.
  { apply Hleaflike; [| done..]. unfold has_children. by rewrite Ha. }
  destruct (represents_NestedAt _ _ _ _ Hrep) as [Harr Hkids].
  destruct kids as [| k ks].
  { apply Hleaflike; [| done..]. unfold has_children. rewrite Ha.
    unfold bind, array. by rewrite Harr. }
  cbn [setHidden].
  rewrite (bind_Returns _ _ wk o wk) by (unfold instance; by rewrite Ho).
  rewrite (bind_Returns _ _ wk true wk)
    by (unfold has_children; rewrite Ha; unfold bind, array; by rewrite Harr).
  unfold hidden_at in Hparent.
  destruct (objects wk !! parent) as [p |] eqn:Hp; [| done]. injection Hparent as Hh.
  rewrite (bind_Returns _ _ wk p wk) by (unfold instance; by rewrite Hp).
  rewrite Hh.
  apply (level_cascade n IHn c a (k :: ks) wk Hrep).
  apply Forall_forall. intros t Ht. by eapply depth_kid.
Qed.

(** X19.  Let the setter of [visible] keep the arrays and, of every
    component, the collection and the [hidden] list, and let
    [conditionallyVisible] read without writing.  Then
    [hideComponents(hidden)] on a container (given fuel for the depth of
    the tree) returns, and does what the cascade over the tree does with
    this one list: the container, and every component below it that has
    children, is given the list; every component below it that has no
    children is taken once, in collection order and depth first, through
    rules 2 to 4 against the list, so that [visible = false] is assigned
    to it when its schema says [hidden], when its key is in the list or
    when its [conditionallyVisible()] returns [false], and nothing is
    assigned to it otherwise.  Afterwards the tree is the same, and the
    container and the components with children below it have the list as
    their [hidden]. *)
Theorem hideComponents_cascades (fuel : nat) (this a : loc) (kids : list Shape)
    (w : World) :
  represents w (NestedAt this a kids) = true ->
  depth (NestedAt this a kids) <= fuel ->
  exists w',
    hideComponents fuel this hidden0 w = Returns tt w' /\
    (update this (set_hidden hidden0) ;; in_turn (cascade hidden0) kids) w = Returns tt w' /\
    same_tree w w' /\
    Forall (hidden_at hidden0 w') (this :: flat_map holders kids).
Proof.
  intros Hrep Hdepth.
  destruct (level_cascade fuel (cascades_all fuel) this a kids w Hrep)
    as (w' & Hrun & Hspec & [Htree _] & Hheld).
  { apply Forall_forall. intros t Ht. apply (depth_kid this a kids t fuel Ht). lia. }
  exists w'. split; [exact Hrun |]. split; [exact Hspec |]. split; [exact Htree | exact Hheld].
Qed.

End Cascade.

Section CascadeExamples.
Import Js Store.

Lemma collaborators_keep_tree not_shown :
  setter_keeps_tree (H := Fixture.collaborators not_shown).
Proof.
  intros c b w [o Ho]. eexists. split; [by apply update_Returns |].
  unfold same_tree. cbn [with_objects objects arrays].
  split; [split; [reflexivity |] |]; intros x;
    (destruct (decide (x = c)) as [-> | Hne];
     [by rewrite lookup_insert_eq, Ho | by rewrite lookup_insert_ne]).
Qed.

Lemma collaborators_read not_shown :
  condition_reads (H := Fixture.collaborators not_shown).
Proof. intros c w _. by eexists. Qed.

(** X19 on the deep form with the hidden list [k]: the panel is given
    the list; with the setter of the fixtures, which keeps the value, the
    field in the panel and the field after it end up invisible and the
    panel visible. *)
Lemma hideComponents_witness :
  exists w',
    hideComponents (H := Fixture.collaborators []) 2 0 (Some ["k"]) Fixture.deep =
      Returns tt w'
    /\ hidden_at (Some ["k"]) w' 1
    /\ visible <$> objects w' !! 3 = Some false
    /\ visible <$> objects w' !! 2 = Some false
    /\ visible <$> objects w' !! 1 = Some true.
Proof.
  destruct (hideComponents_cascades (H := Fixture.collaborators []) (Some ["k"])
              (collaborators_keep_tree []) (collaborators_read []) 2 0 10
              [NestedAt 1 11 [LeafAt 3]; LeafAt 2] Fixture.deep
              ltac:(vm_compute; reflexivity) ltac:(vm_compute; lia))
    as (w' & Hrun & Hspec & _ & Hheld).
  exists w'. split; [exact Hrun |].
  split; [by apply Forall_cons in Hheld as [_ [H1 _]%Forall_cons] |].
  vm_compute in Hspec. injection Hspec as <-.
  repeat split; vm_compute; reflexivity.
Defined.

End CascadeExamples.

(** * Facts about the lifecycle cascades *)

Section LifecycleFacts.
Import Js Lifecycle.

Lemma Lifecycle_ind (P : Component -> Prop) :
  (forall n, P (Leaf n)) ->
  (forall n components, Forall P components -> P (Nested n components)) ->
  forall c, P c.
Proof.
  intros HL HN.
  fix IH 1. intros [n | n components].
  - apply HL.
  - apply HN. induction components as [| c cs IHcs]; constructor; auto.
Qed.

(** A loop whose every turn adds its own events adds them all, in
    order. *)
Lemma forEach_log {A} (f : A -> M unit) (evs : A -> list Event) (l : list A) :
  Forall (fun x => forall w, log (snd (f x w)) = log w ++ evs x) l ->
  forall w, log (snd (forEach f l w)) = log w ++ flat_map evs l.
Proof.
  induction 1 as [| x rest Hx _ IH]; intros w.
  - cbn. by rewrite app_nil_r.
  - cbn [forEach flat_map]. unfold bind. specialize (Hx w).
    destruct (f x w) as [[] w1]. cbn [snd] in Hx.
    by rewrite IH, Hx, <- app_assoc.
Qed.

Lemma forEach_data {A} (f : A -> M unit) (l : list A) :
  Forall (fun x => forall w, data (snd (f x w)) = data w) l ->
  forall w, data (snd (forEach f l w)) = data w.
Proof.
  induction 1 as [| x rest Hx _ IH]; intros w; [reflexivity |].
  cbn [forEach]. unfold bind. specialize (Hx w).
  destruct (f x w) as [[] w1]. cbn [snd] in Hx. by rewrite IH.
Qed.

Lemma run_flat_map {A} (c : Call) (f : A -> list Node) (l : list A) :
  flat_map (fun x => run c (f x)) l = run c (flat_map f l).
Proof.
  unfold run. induction l as [| x rest IH]; [reflexivity |].
  cbn [flat_map]. by rewrite List.map_app, IH.
Qed.

Lemma map_flat_map {A B C} (g : B -> C) (f : A -> list B) (l : list A) :
  List.map g (flat_map f l) = flat_map (fun x => List.map g (f x)) l.
Proof.
  induction l as [| x rest IH]; [reflexivity |].
  cbn [flat_map]. by rewrite List.map_app, IH.
Qed.

Lemma setPristine_log (c : Component) (pristine : value) (w : World) :
  log (snd (setPristine c pristine w)) =
  log w ++ run (SetPristine pristine) (List.map node (pre_order c)).
Proof.
  revert w. induction c as [n | n components IH] using Lifecycle_ind; intros w.
  - reflexivity.
  - cbn [setPristine pre_order List.map node]. unfold bind at 1, ask at 1.
    rewrite (forEach_log _ (fun comp => run (SetPristine pristine) (List.map node (pre_order comp))))
      by exact IH.
    cbn [log]. rewrite run_flat_map, <- map_flat_map, <- app_assoc. reflexivity.
Qed.

(** X20.  [setPristine(pristine)] on a tree makes exactly one call,
    with the same argument, on every component of the tree, a parent
    (through the base class) before its children and the children in
    collection order. *)
Theorem setPristine_reaches_every_component (c : Component) (pristine : value) (w : World) :
  log (snd (setPristine c pristine w)) =
  log w ++ run (SetPristine pristine) (List.map node (pre_order c)).
Proof. apply setPristine_log. Qed.

(** X21.  [clearOnHide(show)] on a tree makes exactly one call, with
    the same argument, on every component of the tree, a parent (through
    the base class) before its children and the children in collection
    order. *)
Theorem clearOnHide_reaches_every_component (c : Component) (show : value) (w : World) :
  log (snd (clearOnHide c show w)) =
  log w ++ run (ClearOnHide show) (List.map node (pre_order c)).
Proof.
  revert w. induction c as [n | n components IH] using Lifecycle_ind; intros w.
  - reflexivity.
  - cbn [clearOnHide pre_order List.map node]. unfold bind at 1, ask at 1.
    rewrite (forEach_log _ (fun comp => run (ClearOnHide show) (List.map node (pre_order comp))))
      by exact IH.
    cbn [log]. rewrite run_flat_map, <- map_flat_map, <- app_assoc. reflexivity.
Qed.

(** X22.  Assigning to [disabled] on a container assigns the same value
    to [disabled] on every leaf of the tree below it, each once and in
    collection order, and on nothing else: no NestedComponent records the
    value. *)
Theorem disabled_reaches_the_leaves (c : Component) (disabled : value) (w : World) :
  log (snd (set_disabled c disabled w)) = log w ++ run (SetDisabled disabled) (leaves c).
Proof.
  revert w. induction c as [n | n components IH] using Lifecycle_ind; intros w.
  - reflexivity.
  - cbn [set_disabled leaves].
    rewrite (forEach_log _ (fun comp => run (SetDisabled disabled) (leaves comp))) by exact IH.
    by rewrite run_flat_map.
Qed.

(** *** [resetValue] *)

Lemma forEach_events {A} (f : A -> M unit) (Q : A -> list Event -> Prop) (l : list A) :
  Forall (fun x => forall w, exists evs, log (snd (f x w)) = log w ++ evs /\ Q x evs) l ->
  forall w, exists evss,
    log (snd (forEach f l w)) = log w ++ concat evss /\ Forall2 Q l evss.
Proof.
  induction 1 as [| x rest Hx _ IH]; intros w.
  - exists []. cbn. rewrite app_nil_r. split; [done | constructor].
  - cbn [forEach]. unfold bind. destruct (Hx w) as (evs & Hlog & HQ).
    destruct (f x w) as [[] w1]. cbn [snd] in Hlog.
    destruct (IH w1) as (evss & Hlogs & HQs).
    exists (evs :: evss). cbn [concat]. rewrite Hlogs, Hlog, <- app_assoc.
    split; [done | by constructor].
Qed.

Lemma filter_reset_run (c : Call) (l : list Node) :
  c <> ResetValue -> List.filter is_reset (run c l) = [].
Proof.
  intros Hc. unfold run. induction l as [| n rest IH]; [reflexivity |].
  cbn. unfold is_reset at 1. cbn. destruct c; congruence.
Qed.

Lemma filter_concat {A} (p : A -> bool) (ls : list (list A)) :
  List.filter p (concat ls) = concat (List.map (List.filter p) ls).
Proof.
  induction ls as [| l rest IH]; [reflexivity |].
  cbn. by rewrite List.filter_app, IH.
Qed.

Lemma resetValue_events (c : Component) (w : World) :
  exists evs,
    log (snd (resetValue c w)) = log w ++ evs /\
    List.filter is_reset evs = run ResetValue (leaves c).
Proof.
  revert w. induction c as [n | n components IH] using Lifecycle_ind; intros w.
  - eexists. split; reflexivity.
  - cbn [resetValue leaves]. unfold bind at 1.
    destruct (forEach_events resetValue
                (fun c evs => List.filter is_reset evs = run ResetValue (leaves c))
                components IH w) as (evss & Hlog & Hresets).
    destruct (forEach resetValue components w) as [[] w1]. cbn [snd] in Hlog.
    unfold bind at 1, unset at 1.
    rewrite setPristine_log. cbn [log]. rewrite Hlog, <- app_assoc.
    eexists. split; [reflexivity |].
    rewrite List.filter_app, filter_reset_run, app_nil_r by done.
    rewrite filter_concat. clear Hlog.
    induction Hresets as [| c evs cs evss Hc _ IHr]; [reflexivity |].
    cbn [List.map concat flat_map]. apply Forall_cons in IH as [_ IH].
    unfold run in *. rewrite List.map_app, Hc. f_equal. by apply IHr.
Qed.

Lemma setPristine_data (c : Component) (pristine : value) :
  Forall pristine_keeps_data (pre_order c) ->
  forall w, data (snd (setPristine c pristine w)) = data w.
Proof.
  induction c as [n | n components IH] using Lifecycle_ind; intros Hkeeps w.
  - apply Forall_cons in Hkeeps as [Hn _]. unfold pristine_keeps_data in Hn.
    cbn [node] in Hn. cbn. by rewrite (Hn pristine).
  - cbn [pre_order] in Hkeeps. apply Forall_cons in Hkeeps as [Hn Hbelow].
    unfold pristine_keeps_data in Hn. cbn [node] in Hn.
    cbn [setPristine]. unfold bind at 1, ask at 1.
    rewrite forEach_data; [cbn; by rewrite (Hn pristine) |].
    clear w. induction components as [| c cs IHcs]; [constructor |].
    cbn [flat_map] in Hbelow. apply Forall_app in Hbelow as [Hc Hcs].
    apply Forall_cons in IH as [IHc IHrest].
    constructor; [intros w; by apply IHc | by apply IHcs].
Qed.

(** X23.  When making a component pristine does nothing to the data,
    [resetValue] on a container resets every leaf of the tree, each once
    and in collection order, then ends with [setPristine(true)] on every
    component of the tree; after it the object [getValue] returns, which
    is the container's data object itself, has no property under the
    container's key. *)
Theorem resetValue_unsets_own_key (n : Node) (components : list Component) (w : World) :
  Forall pristine_keeps_data (pre_order (Nested n components)) ->
  let w' := snd (resetValue (Nested n components) w) in
  fst (getValue n w') = Ref (this_data n)
  /\ default ∅ (data w' !! this_data n) !! key n = None
  /\ exists before,
       log w' = log w ++ before ++
                run (SetPristine (Bool true)) (List.map node (pre_order (Nested n components)))
       /\ List.filter is_reset before = run ResetValue (flat_map leaves components).
Proof.
  intros Hkeeps w'. split; [reflexivity |]. split.
  - subst w'. cbn [resetValue]. unfold bind at 1.
    destruct (forEach resetValue components w) as [[] w1].
    unfold bind at 1, unset at 1.
    rewrite (setPristine_data _ _ Hkeeps). cbn [data].
    rewrite lookup_alter_eq. destruct (data w1 !! this_data n) as [d |]; cbn.
    + apply lookup_delete_eq.
    + apply lookup_empty.
  - subst w'. cbn [resetValue]. unfold bind at 1.
    destruct (forEach_events resetValue
                (fun c evs => List.filter is_reset evs = run ResetValue (leaves c))
                components) with (w := w) as (evss & Hlog & Hresets).
    { apply Forall_forall. intros c _ w0. apply resetValue_events. }
    destruct (forEach resetValue components w) as [[] w1]. cbn [snd] in Hlog.
    unfold bind at 1, unset at 1. rewrite setPristine_log. cbn [log]. rewrite Hlog.
    exists (concat evss). split; [by rewrite <- app_assoc |].
    rewrite filter_concat. clear Hlog Hkeeps.
    induction Hresets as [| c evs cs evss' Hc _ IHr]; [reflexivity |].
    cbn [List.map concat flat_map]. unfold run in *. by rewrite List.map_app, Hc, IHr.
Qed.

(** *** [show] *)

Lemma forEach_invoke_all {A R} (m : A -> M R) (l : list A) (w : World) :
  forEach (fun x => m x ;; ret tt) l w = (tt, snd (invoke_all m l w)).
Proof.
  revert w. induction l as [| x rest IH]; intros w; [reflexivity |].
  cbn [forEach invoke_all]. unfold bind.
  destruct (m x w) as [r w1]. unfold ret at 1. rewrite IH.
  by destruct (invoke_all m rest w1).
Qed.

Lemma forEach_set_error (message : string) (l : list Node) (w : World) :
  forEach (fun n => set_error n message) l w =
  (tt, {| data := data w; log := log w ++ run (SetError message) l |}).
Proof.
  revert w. induction l as [| n rest IH]; intros w.
  - cbn. rewrite app_nil_r. by destruct w.
  - cbn [forEach]. unfold bind, set_error at 1. rewrite IH. cbn.
    by rewrite <- app_assoc.
Qed.

(** X24.  [show(show)] on a container returns what [show] of the base
    class returns, whatever is forced on the children.  When the [show]
    map of the options has a truthy entry for the container's key, every
    direct child is called with [show(true)], also when the [hide] map
    has one too; when only the [hide] map has one, every direct child is
    called with [show(false)]; otherwise no child is called.  When the
    base class returned [false], the [error] of every leaf of the tree
    below the container is then set to the empty string, in the order of
    [getAllComponents]. *)
Theorem show_forces_children_and_clears_errors (n : Node) (components : list Component)
    (v : value) (w : World) :
  show (Nested n components) v w =
  let (shown, w1) := ask_show n v w in
  let w2 :=
    match forcing n with
    | Some b => snd (invoke_all (fun component => show component (Bool b)) components w1)
    | None => w1
    end in
  (shown,
   if shown then w2
   else {| data := data w2;
           log := log w2 ++ run (SetError "") (flat_map leaves components) |}).
Proof.
  cbn [show]. unfold bind at 1. destruct (ask_show n v w) as [shown w1].
  unfold forcing, or.
  assert (Hclear : forall w2,
            ((if negb shown
              then forEach (fun component => set_error component "")
                     (flat_map leaves components)
              else ret tt) ;; ret shown) w2 =
            (shown,
             if shown then w2
             else {| data := data w2;
                     log := log w2 ++ run (SetError "") (flat_map leaves components) |})).
  { intros w2. unfold bind. destruct shown; cbn [negb]; [reflexivity |].
    by rewrite forEach_set_error. }
  destruct (truthy (forced (options_show n) n)) eqn:Hshow.
  - rewrite Hshow. unfold bind at 1.
    rewrite (forEach_invoke_all (fun component => show component (Bool true))).
    apply Hclear.
  - destruct (truthy (forced (options_hide n) n)) eqn:Hhide.
    + unfold bind at 1.
      rewrite (forEach_invoke_all (fun component => show component (Bool false))).
      apply Hclear.
    + unfold bind at 1. unfold ret at 1. apply Hclear.
Qed.

End LifecycleFacts.

Section LifecycleExamples.
Import Js Lifecycle.

(** X23 on the sample form: the key [form] is gone from the data, the
    key [panel], which the reset of the panel had removed, as well, and
    the reset leaves have put their own entries. *)
Lemma resetValue_witness :
  let w' := snd (resetValue sample filled) in
  default ∅ (data w' !! 0) !! "form" = None
  /\ List.map target (List.filter is_reset (log w')) = ["a"; "b"; "c"].
Proof.
  pose proof (resetValue_unsets_own_key (plain "form" 0)
                [Nested (plain "panel" 0) [Leaf (plain "a" 0); Leaf (plain "b" 0)];
                 Leaf (plain "c" 0)] filled) as Hreset.
  cbv zeta in *. split.
  - apply Hreset. repeat constructor.
  - vm_compute. reflexivity.
Defined.

End LifecycleExamples.

(** * Facts about collapsing *)

Section CollapseFacts.
Import Js Collapse.

Lemma Node_eq (n m : Node) :
  attributes n = attributes m -> visibility n = visibility m -> n = m.
Proof. destruct n, m. cbn. by intros -> ->. Qed.

(** X25.  On a panel that can be collapsed and whose element is in the
    document, [toggleCollapse] returns, flips [collapsed] and leaves the
    element in step with it (the [hidden] attribute and a hidden style
    exactly when collapsed); toggling twice from a state that was in step
    gives back the panel and the document exactly as they were. *)
Theorem toggleCollapse_keeps_in_step (this : Panel) (dom : Dom) (e : nat) (n : Node) :
  truthy (collapsible this) = true ->
  container this = Some e -> dom !! e = Some n ->
  exists this' dom',
    toggleCollapse this dom = Some (this', dom')
    /\ collapsed this' = negb (collapsed this)
    /\ in_step this' dom'
    /\ (in_step this dom ->
        exists back, toggleCollapse this' dom' = Some back /\ back = (this, dom)).
Proof.
  intros Hcan He Hn. destruct this as [can state el]. cbn in Hcan, He. subst el.
  unfold toggleCollapse, setCollapsed. cbn [collapsible collapsed container].
  rewrite Hcan, Hn. cbn [negb].
  destruct state; cbn [negb].
  - (* collapsed before: now open *)
    eexists _, _. split; [reflexivity |]. split; [reflexivity |]. split.
    { exists e, (set_visibility "visible" (removeAttribute "hidden" n)).
      rewrite lookup_insert_eq. repeat split. cbn. apply lookup_delete_eq. }
    intros (e' & n' & [= <-] & Hn' & Hattr & Hvis). rewrite Hn in Hn'. injection Hn' as <-.
    unfold toggleCollapse, setCollapsed. cbn [collapsible collapsed container negb].
    rewrite Hcan, lookup_insert_eq. cbn [negb]. eexists. split; [reflexivity |].
    f_equal. rewrite insert_insert_eq. apply insert_id. rewrite Hn. f_equal.
    apply Node_eq; cbn; [| done].
    rewrite insert_delete_eq. symmetry. by apply insert_id.
  - (* open before: now collapsed *)
    eexists _, _. split; [reflexivity |]. split; [reflexivity |]. split.
    { exists e, (set_visibility "hidden" (setAttribute "hidden" "true" n)).
      rewrite lookup_insert_eq. repeat split. cbn. apply lookup_insert_eq. }
    intros (e' & n' & [= <-] & Hn' & Hattr & Hvis). rewrite Hn in Hn'. injection Hn' as <-.
    unfold toggleCollapse, setCollapsed. cbn [collapsible collapsed container negb].
    rewrite Hcan, lookup_insert_eq. cbn [negb]. eexists. split; [reflexivity |].
    f_equal. rewrite insert_insert_eq. apply insert_id. rewrite Hn. f_equal.
    apply Node_eq; cbn; [| done].
    rewrite delete_insert_eq. symmetry. by apply delete_id.
Qed.

(** X26.  On a panel that cannot be collapsed, [toggleCollapse] still
    flips [collapsed] but does not touch the document, so that the flag
    no longer says what the element shows; and [setCollapsed] does
    nothing at all. *)
Theorem toggleCollapse_of_fixed_panel (this : Panel) (dom : Dom) (element : option nat) :
  truthy (collapsible this) = false ->
  setCollapsed this element dom = Some dom
  /\ exists this',
       toggleCollapse this dom = Some (this', dom)
       /\ collapsed this' = negb (collapsed this)
       /\ (in_step this dom -> ~ in_step this' dom).
Proof.
  intros Hfixed. unfold toggleCollapse, setCollapsed. cbn [collapsible].
  rewrite Hfixed. cbn [negb]. split; [reflexivity |].
  eexists. split; [reflexivity |]. split; [reflexivity |].
  intros (e & n & He & Hn & Hshows) (e' & n' & He' & Hn' & Hshows').
  cbn [container collapsed] in He', Hshows'.
  rewrite He in He'. injection He' as <-. rewrite Hn in Hn'. injection Hn' as <-.
  destruct (collapsed this); cbn [negb] in Hshows';
    destruct Hshows as [Hattr _], Hshows' as [Hattr' _]; congruence.
Qed.

End CollapseFacts.

Section CollapseExamples.
Import Js Collapse.

(** X25 on the open panel: one toggle hides the element, two give the
    page back. *)
Lemma toggleCollapse_witness :
  exists this' dom',
    toggleCollapse open_panel page = Some (this', dom')
    /\ collapsed this' = true
    /\ toggleCollapse this' dom' = Some (open_panel, page).
Proof.
  assert (Hbody : page !! 5 = Some body) by (vm_compute; reflexivity).
  destruct (toggleCollapse_keeps_in_step open_panel page 5 body eq_refl eq_refl Hbody)
    as (this' & dom' & Hrun & Hflag & _ & Hback).
  exists this', dom'. split; [exact Hrun |]. split; [exact Hflag |].
  destruct Hback as (back & Hrun' & ->); [| exact Hrun'].
  exists 5, body. split; [reflexivity |]. split; [exact Hbody |].
  split; vm_compute; reflexivity.
Defined.

(** X26 on a panel whose schema does not say [collapsible]: the element
    shows an open panel, the flag says collapsed. *)
Lemma fixed_panel_witness :
  exists this',
    toggleCollapse {| collapsible := Undefined; collapsed := false; container := Some 5 |}
      page = Some (this', page)
    /\ collapsed this' = true /\ ~ in_step this' page.
Proof.
  destruct (toggleCollapse_of_fixed_panel
              {| collapsible := Undefined; collapsed := false; container := Some 5 |} page None
              eq_refl) as (_ & this' & Hrun & Hflag & Hout).
  exists this'. split; [exact Hrun |]. split; [exact Hflag |].
  apply Hout. exists 5, body. repeat split.
Defined.

End CollapseExamples.

(** * Facts about building a container *)

Section Building.
Import Js Store.
Context `{External}.
Hypothesis tame : makes_leaves.

Lemma update_at w wk c o f :
  objects wk = <[c := o]> (objects w) ->
  exists w',
    update c f wk = Returns tt w' /\
    objects w' = <[c := f o]> (objects w) /\
    arrays w' = arrays wk /\ parentNode w' = parentNode wk /\ effects w' = effects wk.
Proof.
  intros Hobj. exists (with_objects <[c := f o]> wk). split.
  - apply update_Returns. rewrite Hobj. apply lookup_insert_eq.
  - cbn [with_objects objects arrays parentNode effects]. rewrite Hobj.
    by rewrite insert_insert_eq.
Qed.

Lemma build_at w wk c o :
  objects wk = <[c := o]> (objects w) ->
  exists w' o',
    build c wk = Returns tt w' /\
    objects w' = <[c := o']> (objects w) /\ arrays w' = arrays wk /\
    parentNode w' = parentNode wk /\ effects w' = effects wk /\
    components o' = components o /\ component o' = component o /\
    parent o' = parent o /\ root o' = root o.
Proof.
  intros Hobj. destruct tame as (_ & Hbuild & _).
  destruct (Hbuild c o wk) as (o' & Hrun & Hfields).
  { rewrite Hobj. apply lookup_insert_eq. }
  exists (with_objects <[c := o']> wk), o'. split; [exact Hrun |].
  cbn [with_objects objects arrays parentNode effects]. rewrite Hobj.
  by rewrite insert_insert_eq.
Qed.

(** [setHidden] on a leaf: the setter of [visible] at most. *)
Lemma setHidden_at n this t w wk c o :
  objects wk = <[c := o]> (objects w) ->
  components o = None -> objects wk !! this = Some t ->
  exists w' o',
    setHidden (S n) this c wk = Returns tt w' /\
    objects w' = <[c := o']> (objects w) /\ arrays w' = arrays wk /\
    component o' = component o /\ parent o' = parent o /\ isBuilt o' = isBuilt o.
Proof.
  intros Hobj Hleaf Ht.
  assert (Hc : objects wk !! c = Some o) by (rewrite Hobj; apply lookup_insert_eq).
  destruct tame as (_ & _ & _ & Hcv & Hset).
  assert (Hhide : exists w' o',
            assign_visible c false wk = Returns tt w' /\
            objects w' = <[c := o']> (objects w) /\ arrays w' = arrays wk /\
            component o' = component o /\ parent o' = parent o /\ isBuilt o' = isBuilt o).
  { destruct (Hset c false o wk Hc) as (o' & w' & Hrun & Hobj' & Harr' & Hfields).
    exists w', o'. split; [exact Hrun |]. split; [| by split].
    by rewrite Hobj', Hobj, insert_insert_eq. }
  assert (Hstay : exists w' o',
            ret tt wk = Returns tt w' /\
            objects w' = <[c := o']> (objects w) /\ arrays w' = arrays wk /\
            component o' = component o /\ parent o' = parent o /\ isBuilt o' = isBuilt o).
  { exists wk, o. by repeat split. }
  cbn [setHidden].
  rewrite (bind_Returns _ _ wk o wk) by (unfold instance; by rewrite Hc).
  rewrite (bind_Returns _ _ wk false wk) by (unfold has_children; by rewrite Hleaf).
  destruct (Schema.hidden (component o)); [exact Hhide |].
  rewrite (bind_Returns _ _ wk t wk) by (unfold instance; by rewrite Ht).
  destruct (includes_key _ _); [exact Hhide |].
  destruct (Hcv c wk) as [shown Hshown].
  rewrite (bind_Returns _ _ _ _ _ Hshown). by destruct shown.
Qed.

(** One child: made, handed its parent and root, built, collected
    unless it is internal, attached when it has an element, and taken
    through [setHidden]. *)
Lemma addComponent_leaf n this t a l schema element data w :
  objects w !! this = Some t -> components t = Some a -> arrays w !! a = Some l ->
  is_Some (match element with Some e => Some e | None => Store.element t end) ->
  exists comp w' o',
    addComponent (S n) this schema element data None Undefined w = Returns comp w' /\
    objects w !! comp = None /\
    objects w' = <[comp := o']> (objects w) /\
    component o' = schema /\ parent o' = Some this /\ isBuilt o' = true /\
    arrays w' !! a = Some (if Schema.internal schema then l else l ++ [comp]).
Proof.
  intros Ht Ha Hl Helement.
  destruct tame as (Hcreate & _ & Hhook & _).
  unfold addComponent.
  rewrite (bind_Returns _ _ w t w) by (unfold instance; by rewrite Ht).
  unfold createComponent, instantiate. rewrite !bind_bind.
  rewrite (bind_Returns _ _ w t w) by (unfold instance; by rewrite Ht).
  destruct (Hcreate schema (Js.or (Store.options t) (Store.options t))
              (Js.or (Js.or data (Store.data t)) (Store.data t)) w)
    as (c & made & Hmade & Hnew & Hleaf & Hschema).
  rewrite bind_bind, (bind_Returns _ _ _ _ _ Hmade).
  assert (Hne : c <> this) by congruence.
  set (w1 := with_objects <[c := made]> w).
  assert (Hobj1 : objects w1 = <[c := made]> (objects w)) by reflexivity.
  (* comp.parent = this *)
  destruct (update_at w w1 c made (set_parent (Some this)) Hobj1)
    as (w2 & Hup2 & Hobj2 & Harr2 & Hpn2 & Heff2).
  rewrite bind_bind, (bind_Returns _ _ _ _ _ Hup2).
  assert (Ht2 : objects w2 !! this = Some t) by (by rewrite Hobj2, lookup_insert_ne).
  (* comp.root = this.root || this *)
  rewrite bind_bind, (bind_Returns _ _ w2 t w2) by (unfold instance; by rewrite Ht2).
  destruct (update_at w w2 c _ (set_root (Some (default this (root t)))) Hobj2)
    as (w3 & Hup3 & Hobj3 & Harr3 & Hpn3 & Heff3).
  rewrite bind_bind, (bind_Returns _ _ _ _ _ Hup3).
  (* comp.build() *)
  destruct (build_at w w3 c _ Hobj3)
    as (w4 & o4 & Hbuild & Hobj4 & Harr4 & Hpn4 & Heff4 & Hc4 & Hs4 & Hp4 & Hr4).
  rewrite bind_bind, (bind_Returns _ _ _ _ _ Hbuild).
  (* comp.isBuilt = true *)
  destruct (update_at w w4 c o4 (set_isBuilt true) Hobj4)
    as (w5 & Hup5 & Hobj5 & Harr5 & Hpn5 & Heff5).
  rewrite bind_bind, (bind_Returns _ _ _ _ _ Hup5).
  rewrite (bind_Returns _ _ w5 c w5) by reflexivity.
  assert (Ht5 : objects w5 !! this = Some t) by (by rewrite Hobj5, lookup_insert_ne).
  assert (Hl5 : arrays w5 !! a = Some l) by (by rewrite Harr5, Harr4, Harr3, Harr2).
  set (o5 := set_isBuilt true o4) in *.
  (* the collection *)
  assert (Hcollected : exists w6,
            (if Schema.internal schema then ret c
             else
               let* a0 := getComponents this in
               let* l0 := array a0 in
               write_array a0 (push c l0) ;; ret c) w5 = Returns c w6 /\
            objects w6 = <[c := o5]> (objects w) /\
            arrays w6 !! a = Some (if Schema.internal schema then l else l ++ [c])).
  { destruct (Schema.internal schema).
    - exists w5. by repeat split.
    - exists (with_arrays <[a := push c l]> w5). split.
      + rewrite (bind_Returns _ _ w5 a w5)
          by (unfold getComponents, bind, instance; by rewrite Ht5, Ha).
        rewrite (bind_Returns _ _ w5 l w5) by (unfold array; by rewrite Hl5).
        by rewrite (bind_Returns _ _ _ _ _ (write_array_Returns _ _ _ _ Hl5)).
      + cbn [with_arrays objects arrays]. split; [done |]. apply lookup_insert_eq. }
  destruct Hcollected as (w6 & Hrun6 & Hobj6 & Harr6).
  rewrite (bind_Returns _ _ _ _ _ Hrun6). cbn [truthy].
  (* the hook and the element *)
  destruct (Hhook (match element with Some e => Some e | None => Store.element t end)
              c this w6) as (element' & Hhooked & Hsome).
  rewrite (bind_Returns _ _ _ _ _ Hhooked).
  assert (Hc6 : objects w6 !! c = Some o5) by (rewrite Hobj6; apply lookup_insert_eq).
  rewrite (bind_Returns _ _ w6 o5 w6) by (unfold instance; by rewrite Hc6).
  assert (Hfields : component o5 = schema /\ parent o5 = Some this /\ isBuilt o5 = true).
  { subst o5. by destruct o4; cbn in *; subst. }
  destruct (Store.element o5) as [compElement |].
  2: { destruct Hfields as (? & ? & ?).
       eexists c, _, o5. split; [reflexivity |]. cbn [with_effect objects arrays].
       by repeat split. }
  destruct (Hsome Helement) as [e ->].
  set (w7 := with_effect (AppendChild e compElement)
               (with_parentNode <[compElement := e]> w6)).
  rewrite (bind_Returns _ _ w6 tt w7) by reflexivity.
  destruct (setHidden_at n this t w w7 c o5) as (w8 & o8 & Hrun8 & Hobj8 & Harr8 & Hf8).
  { exact Hobj6. }
  { subst o5. destruct o4; cbn in *. by rewrite Hc4, Hleaf. }
  { cbn [w7 with_effect with_parentNode objects]. by rewrite Hobj6, lookup_insert_ne. }
  rewrite (bind_Returns _ _ _ _ _ Hrun8).
  exists c, w8, o8. split; [reflexivity |]. split; [done |]. split; [done |].
  destruct Hf8 as (-> & -> & ->). destruct Hfields as (-> & -> & ->).
  repeat split. by rewrite Harr8.
Qed.

Lemma addComponents_loop n this t a element data :
  is_Some (match element with Some e => Some e | None => Store.element t end) ->
  components t = Some a ->
  forall schemas w l,
    objects w !! this = Some t -> arrays w !! a = Some l ->
    exists w' added,
      forEach (fun component =>
                 addComponent (S n) this component element data None Undefined ;;
                 ret tt) schemas w = Returns tt w' /\
      arrays w' !! a = Some (l ++ added) /\
      Forall2 (child_of w' this) added (collected schemas) /\
      (forall c o, objects w !! c = Some o -> objects w' !! c = Some o).
Proof.
  intros Helement Ha. induction schemas as [| schema rest IH]; intros w l Ht Hl.
  { exists w, []. rewrite app_nil_r. split; [done |]. split; [done |].
    split; [constructor | done]. }
  cbn [forEach].
  destruct (addComponent_leaf n this t a l schema element data w Ht Ha Hl Helement)
    as (comp & w1 & o1 & Hrun & Hnew & Hobj & Hschema & Hparent & Hbuilt & Harr).
  rewrite bind_bind, (bind_Returns _ _ _ _ _ Hrun).
  rewrite (bind_Returns _ _ w1 tt w1) by reflexivity.
  assert (Hkept1 : forall c o, objects w !! c = Some o -> objects w1 !! c = Some o).
  { intros c o Hc. rewrite Hobj, lookup_insert_ne; [done | congruence]. }
  destruct (IH w1 _ (Hkept1 _ _ Ht) Harr) as (w2 & added & Hloop & Harr2 & Hkids & Hkept2).
  exists w2. unfold collected. cbn [List.filter]. fold (collected rest).
  destruct (Schema.internal schema); cbn [negb].
  - exists added. split; [exact Hloop |]. split; [exact Harr2 |].
    split; [exact Hkids | auto].
  - exists (comp :: added). split; [exact Hloop |].
    split; [by rewrite Harr2, <- app_assoc |].
    split; [| auto]. constructor; [| exact Hkids].
    exists o1. split; [| done]. apply Hkept2. rewrite Hobj. apply lookup_insert_eq.
Qed.


End Building.

Section BuildingExamples.
Import Js Store.

Lemma collaborators_make_leaves not_shown :
  makes_leaves (H := Fixture.collaborators not_shown).
Proof.
  split; [| split; [| split; [| split]]].
  - intros schema options data w. eexists _, _. split; [reflexivity |].
    split; [| done]. apply not_elem_of_dom, is_fresh.
  - intros c o w Hc. exists o. split; [| done].
    destruct w as [objs arrs pn eff]. cbn in *.
    unfold ret, with_objects. cbn. by rewrite insert_id.
  - intros element c this w. by exists element.
  - intros c w. by eexists.
  - intros c b o w Hc. eexists (set_visible b o), _.
    split; [by apply update_Returns |]. by repeat split.
Qed.


End BuildingExamples.
